(** * read_thermocalc.py: a shallow embedding and its specification

    The script post-processes a ThermoCalc table (tab-separated, one header
    line, one row per temperature).  Its numeric core is embedded here step by
    step, in the order of the script's own section headings (### 1 .. ### 9):

    - numbers are IEEE binary64 values, as numpy's float64 and Python's float
      are: Rocq's primitive floats, with NaN as the missing-value marker;
    - the table is a two-dimensional array: a width and a list of rows;
    - the column headers are strings, classified by the four regular
      expressions of the class [Regex];
    - Python exceptions and [print] are explicit: a step returns the lines
      it printed and either its value or the exception that ended it;
    - dictionaries keep their insertion order (association lists).

    Plotting (matplotlib) and argument parsing are not modelled. *)

From Stdlib Require Import List String Ascii Bool Arith Lia.
From Stdlib Require Import Permutation.
From Stdlib Require Import Floats.
From Stdlib Require Import QArith.
Import ListNotations.

Local Open Scope string_scope.
Local Open Scope nat_scope.

(** ** Python exceptions and printed output *)

Module Py.

Inductive exn : Type :=
| IndexError         (* sequence index out of range *)
| KeyError           (* dict lookup of a missing key *)
| ValueError         (* list.remove(x): x not in list *)
| ZeroDivisionError  (* division of Python numbers by zero *)
| SplineError.       (* raised inside scipy's fitting routine *)

Inductive outcome (A : Type) : Type :=
| Ok (a : A)
| Raise (e : exn).
Arguments Ok {A} a.
Arguments Raise {A} e.

Definition obind {A B} (x : outcome A) (f : A -> outcome B) : outcome B :=
  match x with
  | Ok a => f a
  | Raise e => Raise e
  end.

Definition of_option {A} (e : exn) (x : option A) : outcome A :=
  match x with
  | Some a => Ok a
  | None => Raise e
  end.

End Py.
Import Py.

Notation "x <- c1 ;; c2" := (Py.obind c1 (fun x => c2))
  (at level 61, c1 at next level, right associativity).
Notation "' pat <- c1 ;; c2" :=
  (Py.obind c1 (fun x => match x with pat => c2 end))
  (at level 61, pat pattern, c1 at next level, right associativity).

(** ** Regular expressions of the class [Regex]

    The four patterns use literals, one greedy repetition of a character
    class per capture group, and nothing else.  The matcher below is the
    backtracking matcher of Python's [re] restricted to that fragment: a
    group first takes as many characters as its class allows and gives them
    back one at a time while the rest of the pattern fails.  Headers are
    read as byte strings, and [\w] is its ASCII part: letters, digits and
    the underscore. *)

Module Re.

Inductive cclass : Type :=
| Dot        (* .      any character but a newline *)
| Word       (* \w     *)
| WordHash.  (* [\w#]  *)

Inductive item : Type :=
| Lit (s : string)               (* literal text *)
| Grp (c : cclass) (least : nat). (* a group of at least [least] characters of [c], greedy *)

Definition regex := list item.

Definition is_word (a : ascii) : bool :=
  let n := nat_of_ascii a in
  ((48 <=? n) && (n <=? 57)) || ((65 <=? n) && (n <=? 90))
  || ((97 <=? n) && (n <=? 122)) || (n =? 95).

Definition in_class (c : cclass) (a : ascii) : bool :=
  match c with
  | Dot => negb (nat_of_ascii a =? 10)
  | Word => is_word a
  | WordHash => is_word a || (nat_of_ascii a =? 35)
  end.

Fixpoint strip_prefix (l s : list ascii) : option (list ascii) :=
  match l, s with
  | [], _ => Some s
  | a :: l', b :: s' => if Ascii.eqb a b then strip_prefix l' s' else None
  | _ :: _, [] => None
  end.

(** [match_here re s]: the match of [re] anchored at the start of [s], as
    the captured groups and the number of characters consumed. *)
Fixpoint match_here (re : regex) (s : list ascii) {struct re}
  : option (list string * nat) :=
  match re with
  | [] => Some ([], 0)
  | Lit l :: re' =>
      match strip_prefix (list_ascii_of_string l) s with
      | Some s' =>
          match match_here re' s' with
          | Some (caps, n) => Some (caps, String.length l + n)
          | None => None
          end
      | None => None
      end
  | Grp c least :: re' =>
      (fix rep (s : list ascii) (acc : list ascii) {struct s}
         : option (list string * nat) :=
         let stop :=
           if least <=? List.length acc then
             match match_here re' s with
             | Some (caps, n) =>
                 Some (string_of_list_ascii (rev acc) :: caps, List.length acc + n)
             | None => None
             end
           else None in
         match s with
         | a :: s' =>
             if in_class c a then
               match rep s' (a :: acc) with
               | Some r => Some r
               | None => stop
               end
             else stop
         | [] => stop
         end) s []
  end.

(** [re.findall]: the non-overlapping matches from left to right, each as
    its list of groups.  [skip] counts the characters of the last match
    still to be stepped over.  No pattern of [Regex] matches the empty
    string, so the end of the text is not tried. *)
Fixpoint findall_from (re : regex) (s : list ascii) (skip : nat)
  : list (list string) :=
  match s with
  | [] => []
  | _ :: s' =>
      match skip with
      | S k => findall_from re s' k
      | O =>
          match match_here re s with
          | Some (caps, n) => caps :: findall_from re s' (n - 1)
          | None => findall_from re s' 0
          end
      end
  end.

Definition findall (re : regex) (s : string) : list (list string) :=
  findall_from re (list_ascii_of_string s) 0.

(** With one group [findall] returns strings, with two it returns pairs. *)
Definition findall1 (re : regex) (s : string) : list string :=
  map (fun caps => nth 0 caps "") (findall re s).

Definition findall2 (re : regex) (s : string) : list (string * string) :=
  map (fun caps => (nth 0 caps "", nth 1 caps "")) (findall re s).

End Re.

Module Regex.
Import Re.
(* Temperature \[ GROUP \]   with GROUP any characters, greedy, possibly none *)
Definition temperature : regex := [Lit "Temperature ["; Grp Dot 0; Lit "]"].
(* Mass percent of GROUP in GROUP   with \w+ and [\w#]+ as the groups *)
Definition masspct : regex :=
  [Lit "Mass percent of "; Grp Word 1; Lit " in "; Grp WordHash 1].
(* Amount of GROUP in GROUP \[g\]   with \w+ and [\w#]+ as the groups *)
Definition gram : regex :=
  [Lit "Amount of "; Grp Word 1; Lit " in "; Grp WordHash 1; Lit " [g]"].
(* Amount of GROUP \[mol\]   with [\w#]+ as the group *)
Definition phase_mol : regex := [Lit "Amount of "; Grp WordHash 1; Lit " [mol]"].
End Regex.

Definition parse_element_content (c : string) : option (string * string) :=
  match Re.findall2 Regex.masspct c with
  | r :: _ => Some r
  | [] =>
      match Re.findall2 Regex.gram c with
      | r :: _ => Some r
      | [] => None
      end
  end.

Definition parse_phase_fraction (c : string) : option string :=
  match Re.findall1 Regex.phase_mol c with
  | r :: _ => Some r
  | [] => None
  end.

(** ** Numbers and arrays

    [float] is binary64 with round-to-nearest-even, the arithmetic of numpy's
    float64.  A missing field of the table is NaN ([filling_values=np.nan]). *)

(* A decimal literal denotes the nearest binary64 value, as it does in Python. *)
Set Warnings "-inexact-float".
Local Open Scope float_scope.
Local Open Scope nat_scope.

(** [np.isnan] *)
Definition isnan (x : float) : bool := PrimFloat.is_nan x.

(** A two-dimensional numpy array: its second dimension and its rows.  The
    rows of an array all have [ncols] fields; the accessors below are total
    and read a field outside a row as NaN. *)
Record ndarray : Type := mk_array { ncols : nat; rows : list (list float) }.

Definition cell (r : list float) (i : nat) : float := nth i r nan.

(** [data[:,i]]: an index past the last column raises. *)
Definition column (i : nat) (a : ndarray) : outcome (list float) :=
  if i <? ncols a then Ok (map (fun r => cell r i) (rows a)) else Raise IndexError.

(** [T = data[:,0]].  [T] is a view of the array, not a copy: it is always
    read off the current array here, so an update in place of one is an update
    of the other. *)
Definition temperatures (a : ndarray) : list float :=
  map (fun r => cell r 0) (rows a).

(** [np.count_nonzero(~np.isnan(r))] *)
Definition count_non_nan (r : list float) : nat :=
  List.length (filter (fun x => negb (isnan x)) r).

(** [np.argmax]: the index of the first maximum. *)
Fixpoint argmax (l : list nat) : nat :=
  match l with
  | [] => 0
  | x :: l' =>
      match l' with
      | [] => 0
      | _ :: _ => let j := argmax l' in if nth j l' 0 <=? x then 0 else S j
      end
  end.

(** *** np.unique(T, return_index=True, return_counts=True)

    The distinct values of [T] in ascending order, each with the index of its
    first occurrence in [T] and the number of its occurrences.  Values are
    compared as numpy compares them: [==] of IEEE 754 (so 0.0 and -0.0 are
    one value), with the NaNs taken as one value placed last. *)

Definition feq (x y : float) : bool := (x =? y)%float || (isnan x && isnan y).
Definition flt (x y : float) : bool := (x <? y)%float || (negb (isnan x) && isnan y).

Record group : Type := mk_group { g_val : float; g_ind : nat; g_cnt : nat }.

Fixpoint unique_insert (v : float) (k : nat) (gs : list group) : list group :=
  match gs with
  | [] => [mk_group v k 1]
  | g :: gs' =>
      if feq v (g_val g) then mk_group (g_val g) (g_ind g) (S (g_cnt g)) :: gs'
      else if flt v (g_val g) then mk_group v k 1 :: g :: gs'
      else g :: unique_insert v k gs'
  end.

Fixpoint unique_from (k : nat) (T : list float) (gs : list group) : list group :=
  match T with
  | [] => gs
  | v :: T' => unique_from (S k) T' (unique_insert v k gs)
  end.

Definition np_unique (T : list float) : list group := unique_from 0 T [].

(** ** 1. Read and sort the data *)

(** [data[ind:ind+cnt, :]] *)
Definition slice (ind cnt : nat) (rs : list (list float)) : list (list float) :=
  firstn cnt (skipn ind rs).

(** One turn of [for i in np.where(cnt > 1)[0]], as the final [ind[i]]. *)
Definition chosen_index (a : ndarray) (g : group) : nat :=
  if 1 <? g_cnt g then
    g_ind g + argmax (map count_non_nan (slice (g_ind g) (g_cnt g) (rows a)))
  else g_ind g.

(** [data = data[ind]] *)
Definition deduplicate (a : ndarray) : ndarray :=
  mk_array (ncols a)
    (map (fun g => nth (chosen_index a g) (rows a) []) (np_unique (temperatures a))).

(** ** Output and configuration *)

(** The lines the script prints, one constructor per [print] statement, with
    the numbers before formatting. *)
Inductive event : Type :=
| PrintSolidus (sol liq deltaT : float)
| PrintWindow (Tmin T0 Tmax : float)
| PrintElements (elements : list string)
| PrintPhases (phases : list string)
| PrintPartition (elem phase : string) (C slope : float)
| PrintContribution (elem : string) (slopeS slopeL dT1 dT2 K ratio mLKC0 : float)
| PrintFreezing (phase : string) (K DeltaT1 DeltaT2 : float)
| PrintSchaeffler (Ni_eq Cr_eq bcc_wt : float).

(** A step that may print: what it printed, and how it ended. *)
Definition run (A : Type) : Type := list event * outcome A.

Definition ret {A} (a : A) : run A := ([], Ok a).
Definition print (e : event) : run unit := ([e], Ok tt).
Definition lift {A} (x : outcome A) : run A := ([], x).
Definition rbind {A B} (x : run A) (f : A -> run B) : run B :=
  match x with
  | (out, Ok a) => let (out', r) := f a in ((out ++ out')%list, r)
  | (out, Raise e) => (out, Raise e)
  end.

Notation "x <~ c1 ;; c2" := (rbind c1 (fun x => c2))
  (at level 61, c1 at next level, right associativity).
Notation "' pat <~ c1 ;; c2" :=
  (rbind c1 (fun x => match x with pat => c2 end))
  (at level 61, pat pattern, c1 at next level, right associativity).

Definition output {A} (x : run A) : list event := fst x.
Definition result {A} (x : run A) : outcome A := snd x.

(** [for i, c in enumerate(columns)] with a loop body that may raise. *)
Fixpoint for_enumerate {St} (body : nat -> string -> St -> run St)
    (i : nat) (columns : list string) (st : St) : run St :=
  match columns with
  | [] => ret st
  | c :: cs => st' <~ body i c st ;; for_enumerate body (S i) cs st'
  end.

Record Range : Type := mk_Range { rmin : float; rmax : float }.

(** The parsed command line.  [args.T] and [args.T0] are overwritten by
    step 2 and so live in the state of that step; the rest is read only. *)
Record Args : Type := mk_Args {
  args_T : Range;                 (* -T, default 1600,1800 *)
  args_T0 : option float;         (* -T0, default None *)
  args_base : string;             (* --base, default Fe *)
  args_tail : float;              (* --tail, default 0.5 *)
  args_phases : bool;             (* --phases *)
  args_manual : bool;             (* --manual *)
  args_verbose : bool;            (* --verbose *)
  args_skip_phases : list string  (* --skip-phases *)
}.

Definition default_args : Args :=
  mk_Args (mk_Range 1600 1800) None "Fe" 0.5 false false false [].

(** [not args.T0]: [None] and zero are false in Python. *)
Definition falsy (T0 : option float) : bool :=
  match T0 with
  | None => true
  | Some x => (x =? 0)%float
  end.

Definition mem (s : string) (l : list string) : bool := existsb (String.eqb s) l.

(** ** The words of an argument *)

(** [s.split(sep)] for a separator of one character: the pieces between
    the separators, the empty ones too; the empty string has one piece. *)
Fixpoint split (sep : ascii) (s : string) : list string :=
  match s with
  | EmptyString => [""]
  | String a s' =>
      if Ascii.eqb a sep then "" :: split sep s'
      else match split sep s' with
           | w :: ws => String a w :: ws
           | [] => [String a ""]
           end
  end.

(** [str2words = lambda s: s.split(',')] *)
Definition str2words (s : string) : list string := split "," s.

(** ** 2. Analyze phase fractions *)

Record interval_state : Type := mk_state {
  st_data : ndarray;        (* data, and with it T = data[:,0] *)
  st_T : Range;             (* args.T *)
  st_T0 : option float;     (* args.T0 *)
  st_plot : bool            (* plot_phases *)
}.

(** [T += 273.15]: in place, on the first column of [data]. *)
Definition add_kelvin (a : ndarray) : ndarray :=
  mk_array (ncols a)
    (map (fun r => match r with
                   | t :: r' => (t + 273.15)%float :: r'
                   | [] => []
                   end) (rows a)).

(** [np.argwhere(p(col))]: the indices of the entries that satisfy [p]. *)
Fixpoint argwhere_from (p : float -> bool) (k : nat) (col : list float) : list nat :=
  match col with
  | [] => []
  | x :: col' => if p x then k :: argwhere_from p (S k) col' else argwhere_from p (S k) col'
  end.

Definition argwhere (p : float -> bool) (col : list float) : list nat :=
  argwhere_from p 0 col.

Definition last_error {A} (l : list A) : option A := hd_error (rev l).

(** [T[np.argwhere(np.isnan(data[:,i]) == True)[-1][0]]] *)
Definition solidus (a : ndarray) (i : nat) : outcome float :=
  col <- column i a ;;
  k <- of_option IndexError (last_error (argwhere isnan col)) ;;
  Ok (nth k (temperatures a) nan).

(** [T[np.argwhere(data[:,i] == 1)[0][0]]] *)
Definition liquidus (a : ndarray) (i : nat) : outcome float :=
  col <- column i a ;;
  k <- of_option IndexError (hd_error (argwhere (fun x => x =? 1)%float col)) ;;
  Ok (nth k (temperatures a) nan).

(** The first [if] of the loop body: [tunit] is the list that [findall]
    returned, and ['C' in tunit] asks whether ["C"] is an element of it. *)
Definition convert_temperature (c : string) (st : interval_state) : interval_state :=
  match Re.findall1 Regex.temperature c with
  | [] => st
  | tunit =>
      if mem "C" tunit
      then mk_state (add_kelvin (st_data st)) (st_T st) (st_T0 st) (st_plot st)
      else st
  end.

(** The second [if] of the loop body. *)
Definition analyze_phase (args : Args) (i : nat) (c : string)
    (st : interval_state) : run interval_state :=
  match parse_phase_fraction c with
  | None => ret st
  | Some phase =>
      let st' :=
        if args_phases args
        then mk_state (st_data st) (st_T st) (st_T0 st) true
        else st in
      if String.eqb phase "LIQUID" then
        sol <~ lift (solidus (st_data st') i) ;;
        liq <~ lift (liquidus (st_data st') i) ;;
        let deltaT := (liq - sol)%float in
        _ <~ print (PrintSolidus sol liq deltaT) ;;
        if negb (args_manual args) then
          let T := mk_Range (sol - deltaT * args_tail args)%float
                            (liq + deltaT * args_tail args)%float in
          let T0 := if falsy (st_T0 st')
                    then Some (liq - deltaT / 1e10)%float
                    else st_T0 st' in
          ret (mk_state (st_data st') T T0 (st_plot st'))
        else ret st'
      else ret st'
  end.

Definition analyze_column (args : Args) (i : nat) (c : string)
    (st : interval_state) : run interval_state :=
  analyze_phase args i c (convert_temperature c st).

(** The whole of step 2, from the deduplicated table: the loop, the default
    of [T0], and the line that reports the window. *)
Definition analyze_phase_fractions (args : Args) (columns : list string)
    (data : ndarray) : run (interval_state * float) :=
  st <~ for_enumerate (analyze_column args) 0 columns
          (mk_state data (args_T args) (args_T0 args) false) ;;
  let mid := ((rmin (st_T st) + rmax (st_T st)) / 2)%float in
  let T0 := if falsy (st_T0 st) then mid
            else match st_T0 st with
                 | Some x => x
                 | None => mid
                 end in
  _ <~ print (PrintWindow (rmin (st_T st)) T0 (rmax (st_T st))) ;;
  ret (st, T0).

(** ** 3. Filter the data *)

(** [data[(T > args.T.min) & (T < args.T.max)]] *)
Definition filter_window (T : Range) (a : ndarray) : ndarray :=
  mk_array (ncols a)
    (filter (fun r => (rmin T <? cell r 0)%float && (cell r 0 <? rmax T)%float) (rows a)).

(** ** Dictionaries

    A Python dict keeps the order in which its keys were first inserted, and
    step 9 adds floats in that order. *)

Definition dict (V : Type) : Type := list (string * V).

Fixpoint dict_get {V} (k : string) (d : dict V) : option V :=
  match d with
  | [] => None
  | (k', v) :: d' => if String.eqb k k' then Some v else dict_get k d'
  end.

(** [d[k] = v] *)
Fixpoint dict_set {V} (k : string) (v : V) (d : dict V) : dict V :=
  match d with
  | [] => [(k, v)]
  | (k', v') :: d' =>
      if String.eqb k k' then (k, v) :: d' else (k', v') :: dict_set k v d'
  end.

(** [{ k: v for k in keys }] *)
Definition dict_of_keys {V} (keys : list string) (v : V) : dict V :=
  fold_left (fun d k => dict_set k v d) keys [].

(** [d[p][k] = v]: the lookup of [d[p]] raises when [p] is no key of [d]. *)
Definition dict_set2 {V} (p k : string) (v : V) (d : dict (dict V))
  : outcome (dict (dict V)) :=
  inner <- of_option KeyError (dict_get p d) ;;
  Ok (dict_set p (dict_set k v inner) d).

(** [d[p][k]] *)
Definition dict_get2 {V} (p k : string) (d : dict (dict V)) : outcome V :=
  inner <- of_option KeyError (dict_get p d) ;;
  of_option KeyError (dict_get k inner).

(** ** 4. Extract phases and elements *)

Definition extract_column (args : Args) (data : ndarray) (i : nat) (c : string)
    (st : list string * list string) : run (list string * list string) :=
  let (elements, phases) := st in
  match parse_element_content c with
  | None => ret st
  | Some (elem, phase) =>
      let elements' := if mem elem elements then elements else (elements ++ [elem])%list in
      if negb (mem phase phases) && negb (mem phase (args_skip_phases args)) then
        col <~ lift (column i data) ;;
        if 0 <? count_non_nan col
        then ret (elements', (phases ++ [phase])%list)
        else ret (elements', phases)
      else ret (elements', phases)
  end.

(** [l.remove(x)]: drops the first [x], raises when there is none. *)
Fixpoint list_remove (x : string) (l : list string) : outcome (list string) :=
  match l with
  | [] => Raise ValueError
  | y :: l' =>
      if String.eqb y x then Ok l'
      else l'' <- list_remove x l' ;; Ok (y :: l'')
  end.

Definition extract_phases_elements (args : Args) (columns : list string)
    (data : ndarray) : run (list string * list string) :=
  '(elements, phases) <~ for_enumerate (extract_column args data) 0 columns ([], []) ;;
  elements' <~ lift (list_remove (args_base args) elements) ;;
  _ <~ print (PrintElements elements') ;;
  _ <~ print (PrintPhases phases) ;;
  ret (elements', phases).

(** ** 5. Compute normalization factors *)

Fixpoint zip_with (f : float -> float -> float) (l1 l2 : list float) : list float :=
  match l1, l2 with
  | x :: l1', y :: l2' => f x y :: zip_with f l1' l2'
  | _, _ => []
  end.

Definition sums_column (data : ndarray) (phases : list string) (i : nat)
    (c : string) (sums : dict (list float)) : run (dict (list float)) :=
  match parse_element_content c with
  | None => ret sums
  | Some (_, phase) =>
      if mem phase phases then
        s <~ lift (of_option KeyError (dict_get phase sums)) ;;
        col <~ lift (column i data) ;;
        ret (dict_set phase (zip_with PrimFloat.add s col) sums)
      else ret sums
  end.

Definition normalization (columns : list string) (data : ndarray)
    (phases : list string) : run (dict (list float)) :=
  for_enumerate (sums_column data phases) 0 columns
    (dict_of_keys phases (map (fun _ => 0%float) (rows data))).

(** ** 6. The grid of the figure

    [Nfigs = len(elements) + (1 if plot_phases else 0)], [Ncols = (Nfigs+1)//2]
    and [axis = lambda n: axs[n//Ncols, n%Ncols]], as the row and the column
    that [axis(n)] asks of the grid of 2 rows and [Ncols] columns. *)
Definition Nfigs (elements : list string) (plot_phases : bool) : nat :=
  List.length elements + (if plot_phases then 1 else 0).

Definition Ncols (nfigs : nat) : nat := (nfigs + 1) / 2.

Definition axis (ncols n : nat) : outcome (nat * nat) :=
  if ncols =? 0 then Raise ZeroDivisionError else Ok (n / ncols, n mod ncols).

(** [l.index(x)]: the first position of [x], or ValueError. *)
Fixpoint list_index (x : string) (l : list string) : outcome nat :=
  match l with
  | [] => Raise ValueError
  | y :: l' => if String.eqb x y then Ok 0 else k <- list_index x l' ;; Ok (S k)
  end.

(** ** 8. Calculate a single-phase freezing range

    The arithmetic of this step is written once, over any type of numbers
    with the four operations, and read twice: at [float], which is what the
    script computes, and at the rationals [Q], which is the exact arithmetic
    the formulas are stated in. *)

Section FreezingRange.

Variable num : Type.
Variable zero one : num.
Variables add sub mul div : num -> num -> num.

(** The concentration and slope tables of step 7. *)
Variables C slopes : dict (dict num).

(** [mL, mS = slopes['LIQUID'][elem], slopes[phase][elem]] and
    [CL, CS = C['LIQUID'][elem], C[phase][elem]] *)
Definition entries (phase elem : string) : outcome (num * num * num * num) :=
  mL <- dict_get2 "LIQUID" elem slopes ;;
  mS <- dict_get2 phase elem slopes ;;
  CL <- dict_get2 "LIQUID" elem C ;;
  CS <- dict_get2 phase elem C ;;
  Ok (mL, mS, CL, CS).

(** The first loop over [elements], from the current [sumL, sumS]. *)
Fixpoint sum_loop (phase : string) (elements : list string) (sumL sumS : num)
  : outcome (num * num) :=
  match elements with
  | [] => Ok (sumL, sumS)
  | elem :: elements' =>
      '(mL, mS, CL, CS) <- entries phase elem ;;
      sum_loop phase elements' (add sumL (div (sub CS CL) mL))
                               (add sumS (div (sub CS CL) mS))
  end.

(** What the verbose line of an element shows. *)
Definition contribution : Type := string * (num * num * num * num * num * num * num).

(** The second loop, from the current [DeltaT1, DeltaT2]; it also collects
    the verbose lines in order.  [x**2] is [x*x]. *)
Fixpoint delta_loop (phase : string) (elements : list string) (sumL sumS : num)
    (DeltaT1 DeltaT2 : num) (lines : list contribution)
  : outcome (num * num * list contribution) :=
  match elements with
  | [] => Ok (DeltaT1, DeltaT2, lines)
  | elem :: elements' =>
      '(mL, mS, CL, CS) <- entries phase elem ;;
      let dT1 := div (mul (sub CS CL) (sub CS CL)) sumS in
      let dT2 := mul (mul CL (sub CS CL)) (sub (div one sumL) (div one sumS)) in
      delta_loop phase elements' sumL sumS (add DeltaT1 dT1) (add DeltaT2 dT2)
        (lines ++ [(elem, (div (sub CS CL) sumS, div (sub CS CL) sumL, dT1, dT2,
                           div CS CL, div mL mS, mul (sub CS CL) mL))])%list
  end.

(** The body of [for phase in phases] for a phase other than LIQUID, up to
    the numbers of its last line: [K], [DeltaT1], [DeltaT2].  Over an empty
    [elements] the accumulators are still the Python integers they start
    as, and [sumL/sumS] is the integer division 0/0, which raises; once a
    numpy number has been added they are numpy numbers, whose division by
    zero returns an infinity or NaN. *)
Definition freezing_range (elements : list string) (phase : string)
  : outcome (num * num * num * list contribution) :=
  '(sumL, sumS) <- sum_loop phase elements zero zero ;;
  '(DeltaT1, DeltaT2, lines) <- delta_loop phase elements sumL sumS zero zero [] ;;
  match elements with
  | [] => Raise ZeroDivisionError
  | _ :: _ => Ok (div sumL sumS, DeltaT1, DeltaT2, lines)
  end.

(** *** The formulas of the specification

    [gather] collects (mL, mS, CL, CS) for the elements; the sums are then
    plain sums over that list, in the order of [elements]. *)
Fixpoint gather (phase : string) (elements : list string)
  : outcome (list (num * num * num * num)) :=
  match elements with
  | [] => Ok []
  | elem :: elements' =>
      e <- entries phase elem ;;
      es <- gather phase elements' ;;
      Ok (e :: es)
  end.

(** The sum of a list, added up from [zero] and from the left.  *)
Definition total (l : list num) : num := fold_left add l zero.

Definition spec_sumL (es : list (num * num * num * num)) : num :=
  total (map (fun '(mL, mS, CL, CS) => div (sub CS CL) mL) es).

Definition spec_sumS (es : list (num * num * num * num)) : num :=
  total (map (fun '(mL, mS, CL, CS) => div (sub CS CL) mS) es).

Definition spec_K (es : list (num * num * num * num)) : num :=
  div (spec_sumL es) (spec_sumS es).

Definition spec_DeltaT1 (es : list (num * num * num * num)) : num :=
  total (map (fun '(mL, mS, CL, CS) =>
                div (mul (sub CS CL) (sub CS CL)) (spec_sumS es)) es).

Definition spec_DeltaT2 (es : list (num * num * num * num)) : num :=
  total (map (fun '(mL, mS, CL, CS) =>
                mul (mul CL (sub CS CL))
                    (sub (div one (spec_sumL es)) (div one (spec_sumS es)))) es).

End FreezingRange.

Arguments entries {num} C slopes phase elem.
Arguments sum_loop {num} add sub div C slopes phase elements sumL sumS.
Arguments delta_loop {num} one add sub mul div C slopes phase elements
  sumL sumS DeltaT1 DeltaT2 lines.
Arguments freezing_range {num} zero one add sub mul div C slopes elements phase.
Arguments gather {num} C slopes phase elements.
Arguments total {num} zero add l.
Arguments spec_sumL {num} zero add sub div es.
Arguments spec_sumS {num} zero add sub div es.
Arguments spec_K {num} zero add sub div es.
Arguments spec_DeltaT1 {num} zero add sub mul div es.
Arguments spec_DeltaT2 {num} zero one add sub mul div es.

(** The step as the script runs it. *)
Definition freezing_range_float :=
  freezing_range 0%float 1%float PrimFloat.add PrimFloat.sub PrimFloat.mul PrimFloat.div.

(** The step in exact rational arithmetic.  Division by zero, which the
    formulas leave undefined, is [Qdiv]'s. *)
Definition freezing_range_Q :=
  freezing_range 0%Q 1%Q Qplus Qminus Qmult Qdiv.

(** ** 9. The fcc-bcc ratio of the Schaeffler-DeLong diagram *)

Definition Ni_coeffs : dict float := [("Ni", 1); ("Mn", 0.5); ("C", 30); ("N", 30)]%float.
Definition Cr_coeffs : dict float := [("Cr", 1); ("Mo", 1.5); ("Si", 1.5); ("Nb", 0.5)]%float.

(** [for elem, C in C['LIQUID'].items()], from the current [Ni_eq, Cr_eq]. *)
Fixpoint equivalents (items : dict float) (Ni_eq Cr_eq : float) : float * float :=
  match items with
  | [] => (Ni_eq, Cr_eq)
  | (elem, c) :: items' =>
      let Ni_eq' := match dict_get elem Ni_coeffs with
                    | Some k => (Ni_eq + c * k)%float
                    | None => Ni_eq
                    end in
      let Cr_eq' := match dict_get elem Cr_coeffs with
                    | Some k => (Cr_eq + c * k)%float
                    | None => Cr_eq
                    end in
      equivalents items' Ni_eq' Cr_eq'
  end.

Definition Ni_eq (liquid : dict float) : float := fst (equivalents liquid 0 0).
Definition Cr_eq (liquid : dict float) : float := snd (equivalents liquid 0 0).

(** [bcc_dist = lambda x, y: (14 + b/a*(x - 19) - y)*a/np.sqrt(a**2 + b**2)]
    with [a, b = 7, 10]. *)
Definition bcc_dist (x y : float) : float :=
  ((14 + 10 / 7 * (x - 19) - y) * 7 / PrimFloat.sqrt (7 * 7 + 10 * 10))%float.

Definition ten_pct_dist : float := bcc_dist 21 12.

(** [bcc_wt = 10/ten_pct_dist*bcc_dist(Cr_eq*100, Ni_eq*100)] *)
Definition bcc_wt (liquid : dict float) : float :=
  (10 / ten_pct_dist * bcc_dist (Cr_eq liquid * 100) (Ni_eq liquid * 100))%float.

Definition schaeffler (args : Args) (liquid : dict float) : run unit :=
  if String.eqb (args_base args) "Fe"
  then print (PrintSchaeffler (Ni_eq liquid) (Cr_eq liquid) (bcc_wt liquid))
  else ret tt.

(** ** 7. Find slopes, and the run as a whole

    scipy's [UnivariateSpline(X, Y, k=1, s=0)] is not code of the script: it
    is a parameter here, the fitted spline being the two functions the script
    calls on it. *)

Record Spline : Type := mk_Spline {
  spl_call : float -> float;        (* spl(x) *)
  spl_derivative : float -> float   (* spl.derivative()(x) *)
}.

(** [a[mask]] *)
Fixpoint select {A} (mask : list bool) (l : list A) : list A :=
  match mask, l with
  | b :: mask', x :: l' => if b then x :: select mask' l' else select mask' l'
  | _, _ => []
  end.

(** [np.count_nonzero(mask)] *)
Definition count_true (mask : list bool) : nat := List.length (filter (fun b => b) mask).

Section Pipeline.

Variable UnivariateSpline : list float -> list float -> outcome Spline.

Definition tables : Type := dict (dict float) * dict (dict float).  (* C, slopes *)

Definition fit_column (args : Args) (T0 : float) (data : ndarray)
    (phases : list string) (sums : dict (list float)) (i : nat) (c : string)
    (st : tables) : run tables :=
  let (C, slopes) := st in
  match parse_element_content c with
  | None => ret st
  | Some (elem, phase) =>
      if String.eqb elem (args_base args) || negb (mem phase phases) then ret st
      else
        Y <~ lift (column i data) ;;
        s <~ lift (of_option KeyError (dict_get phase sums)) ;;
        (* NB: zero values of sums[phase] are filtered out *)
        let mask := map (fun x => (0 <? x)%float) s in
        if 0 <? count_true mask then
          let X := select mask (temperatures data) in
          let Y' := zip_with PrimFloat.div (select mask Y) (select mask s) in
          spl <~ lift (UnivariateSpline X Y') ;;
          let slope := (1 / spl_derivative spl T0)%float in
          slopes' <~ lift (dict_set2 phase elem slope slopes) ;;
          C' <~ lift (dict_set2 phase elem (spl_call spl T0) C) ;;
          _ <~ print (PrintPartition elem phase (spl_call spl T0) slope) ;;
          ret (C', slopes')
        else ret st
  end.

Definition find_slopes (args : Args) (T0 : float) (columns : list string)
    (data : ndarray) (phases : list string) (sums : dict (list float)) : run tables :=
  for_enumerate (fit_column args T0 data phases sums) 0 columns
    (dict_of_keys phases [], dict_of_keys phases []).

(** One turn of [for phase in phases] of step 8, with its printing. *)
Definition freezing_phase (args : Args) (st : tables) (elements : list string)
    (phase : string) : run unit :=
  let (C, slopes) := st in
  if String.eqb phase "LIQUID" then ret tt
  else
    '(K, DeltaT1, DeltaT2, lines) <~ lift (freezing_range_float C slopes elements phase) ;;
    _ <~ (if args_verbose args
          then (map (fun '(elem, (sS, sL, dT1, dT2, k, r, m)) =>
                       PrintContribution elem sS sL dT1 dT2 k r m) lines, Ok tt)
          else ret tt) ;;
    print (PrintFreezing phase K DeltaT1 DeltaT2).

Fixpoint for_phases (body : string -> run unit) (phases : list string) : run unit :=
  match phases with
  | [] => ret tt
  | p :: ps => _ <~ body p ;; for_phases body ps
  end.

(** The script from the array that [np.genfromtxt] returned to its last
    [print].  The title line between steps 7 and 8 reads [C['LIQUID']]. *)
Definition main (args : Args) (columns : list string) (data : ndarray) : run unit :=
  let data1 := deduplicate data in
  '(st, T0) <~ analyze_phase_fractions args columns data1 ;;
  let data3 := filter_window (st_T st) (st_data st) in
  '(elements, phases) <~ extract_phases_elements args columns data3 ;;
  sums <~ normalization columns data3 phases ;;
  '(C, slopes) <~ find_slopes args T0 columns data3 phases sums ;;
  liquid <~ lift (of_option KeyError (dict_get "LIQUID" C)) ;;
  _ <~ for_phases (freezing_phase args (C, slopes) elements) phases ;;
  schaeffler args liquid.

End Pipeline.

(** A stand-in for scipy's routine, used where a concrete run is shown: the
    piecewise-linear interpolant through the points, extended by its end
    segments.  As the routine does for degree 1, it refuses fewer than two
    points, and abscissae that do not increase. *)
Module Scipy.

Fixpoint increasing (X : list float) : bool :=
  match X with
  | x :: ((y :: _) as X') => (x <? y)%float && increasing X'
  | _ => true
  end.

(** The segment of [x]: the first whose right end is beyond [x], or the last. *)
Fixpoint segment (X Y : list float) (x : float) : float * float * float * float :=
  match X, Y with
  | x0 :: ((x1 :: X'') as X'), y0 :: ((y1 :: _) as Y') =>
      match X'' with
      | [] => (x0, y0, x1, y1)
      | _ :: _ => if (x <? x1)%float then (x0, y0, x1, y1) else segment X' Y' x
      end
  | _, _ => (0, 0, 1, 0)%float
  end.

Definition UnivariateSpline (X Y : list float) : outcome Spline :=
  if (List.length X <=? 1) || negb (increasing X) then Raise SplineError
  else Ok (mk_Spline
             (fun x => let '(x0, y0, x1, y1) := segment X Y x in
                       (y0 + (x - x0) * ((y1 - y0) / (x1 - x0)))%float)
             (fun x => let '(x0, y0, x1, y1) := segment X Y x in
                       ((y1 - y0) / (x1 - x0))%float)).

End Scipy.

(** * Vocabulary of the statements, and sample inputs *)

(** Scenario B of the specification: the LIQUID amounts NaN, NaN, 0.5, 1, 1
    at 1600, 1650, 1680, 1700, 1750. *)
Definition scenario_B : ndarray :=
  mk_array 2 [[1600; nan]; [1650; nan]; [1680; 0.5]; [1700; 1]; [1750; 1]]%float.

(** The three numbers of the line a phase ends with, without the verbose lines. *)
Definition headline {num} (r : outcome (num * num * num * list (contribution num)))
  : outcome (num * num * num) :=
  '(K, DeltaT1, DeltaT2, _) <- r ;; Ok (K, DeltaT1, DeltaT2).

(** Scenario C of the specification: one element, CL = 0.02, CS = 0.05,
    mL = 10, mS = -5. *)
Definition scenario_C_float : dict (dict float) * dict (dict float) :=
  ([("LIQUID", [("Cr", 0.02)]); ("BCC_A2", [("Cr", 0.05)])],
   [("LIQUID", [("Cr", 10)]); ("BCC_A2", [("Cr", -5)])])%float.

Definition scenario_C_Q : dict (dict Q) * dict (dict Q) :=
  ([("LIQUID", [("Cr", 2 # 100)]); ("BCC_A2", [("Cr", 5 # 100)])],
   [("LIQUID", [("Cr", 10 # 1)]); ("BCC_A2", [("Cr", - 5 # 1)])])%Q.

(** [np.unique] finds the rows of one temperature wherever they stand, but
    the loop then reads the group as the [cnt] rows that follow its first
    row.  In this table the two rows at 1700 are separated by a row at 1650. *)
Definition scattered_table : ndarray :=
  mk_array 3 [[1700; nan; nan]; [1650; 1; 1]; [1700; 2; nan]]%float.

(** Here the rows at 1600 are separated by the row at 1900. *)
Definition unsorted_table : ndarray :=
  mk_array 2 [[1600; nan]; [1900; 5]; [1600; nan]; [1700; 7]]%float.

Definition has_entry {num} (d : dict (dict num)) (phase elem : string) : bool :=
  match dict_get2 phase elem d with
  | Ok _ => true
  | Raise _ => false
  end.

(** An element without a slope or a concentration for LIQUID or for [phase]. *)
Definition lacks_entry {num} (C slopes : dict (dict num)) (phase elem : string) : bool :=
  negb (has_entry slopes "LIQUID" elem && has_entry slopes phase elem
        && has_entry C "LIQUID" elem && has_entry C phase elem).

(** The tables of a run where Ni was fitted for LIQUID only. *)
Definition tables_without_Ni : dict (dict float) * dict (dict float) :=
  ([("LIQUID", [("Cr", 0.02); ("Ni", 0.1)]); ("BCC_A2", [("Cr", 0.05)])],
   [("LIQUID", [("Cr", 10); ("Ni", 20)]); ("BCC_A2", [("Cr", -5)])])%float.

(** The header has no match of the temperature pattern. *)
Definition no_unit (c : string) : bool :=
  match Re.findall1 Regex.temperature c with
  | [] => true
  | _ :: _ => false
  end.

(** The header is the amount of the phase LIQUID. *)
Definition is_liquid (c : string) : bool :=
  match parse_phase_fraction c with
  | Some phase => String.eqb phase "LIQUID"
  | None => false
  end.

(** What the first [if] of the loop does to the table when the unit is [u]. *)
Definition converted (u : string) (a : ndarray) : ndarray :=
  if String.eqb "C" u then add_kelvin a else a.

(** The same table with its temperatures in degrees Celsius, under two
    spellings of the unit. *)
Definition celsius_table : ndarray :=
  mk_array 2 [[1326.85; nan]; [1376.85; nan]; [1406.85; 0.5]; [1426.85; 1]]%float.

(** The column has no missing value, or no value equal to 1. *)
Definition no_bound (col : list float) : bool :=
  match argwhere isnan col with
  | [] => true
  | _ :: _ =>
      match argwhere (fun x => (x =? 1)%float) col with
      | [] => true
      | _ :: _ => false
      end
  end.

(** A table whose LIQUID amount is 1 below the row where it is missing, and
    one whose LIQUID amount is never missing. *)
Definition inverted_table : ndarray := mk_array 2 [[1600; 1]; [1650; nan]]%float.
Definition all_liquid_table : ndarray := mk_array 2 [[1600; 0.5]; [1650; 1]]%float.

(** The options [--manual -T 1500,1700 -T0 1600]. *)
Definition manual_args : Args :=
  mk_Args (mk_Range 1500 1700) (Some 1600%float) "Fe" 0.5 false true false [].

(** A run in which, inside the window 1625..1725, the sum of the FCC columns
    is positive in one row only (1680): in the row above the phase is gone,
    in the row below its columns are not filled in.  There are three elements
    besides the base, which is what the figure of the script needs for its
    two rows of plots. *)
Definition one_row_columns : list string :=
  ["Temperature [K]"; "Amount of LIQUID [mol]";
   "Mass percent of Fe in LIQUID"; "Mass percent of Cr in LIQUID";
   "Mass percent of Ni in LIQUID"; "Mass percent of Mo in LIQUID";
   "Mass percent of Fe in FCC_A1"; "Mass percent of Cr in FCC_A1";
   "Mass percent of Ni in FCC_A1"; "Mass percent of Mo in FCC_A1"].

Definition one_row_table : ndarray :=
  mk_array 10 [[1600; nan; nan; nan; nan; nan; 70; 18; 10; 2];
               [1650; nan; 60; 28;  8;   4; nan; nan; nan; nan];
               [1680; 0.5; 62; 26;  9;   3; 70; 18; 10; 2];
               [1700; 1;   64; 25;  8;   3; nan; nan; nan; nan];
               [1750; 1;   64; 25;  8;   3; nan; nan; nan; nan]]%float.

Definition window_table : ndarray := filter_window (mk_Range 1625 1725) one_row_table.

Definition window_sums : dict (list float) :=
  [("LIQUID", [100; 100; 100]); ("FCC_A1", [nan; 100; nan])]%float.

Definition empty_tables : tables :=
  ([("LIQUID", []); ("FCC_A1", [])], [("LIQUID", []); ("FCC_A1", [])]).

(** The sums of a phase that is active in the window but empty where it counts. *)
Definition zero_sums : dict (list float) :=
  [("LIQUID", [100; 100; 100]); ("FCC_A1", [nan; 0; nan])]%float.

(** The header is no column of the element [base]. *)
Definition not_of_base (base c : string) : bool :=
  match parse_element_content c with
  | Some (elem, _) => negb (String.eqb elem base)
  | None => true
  end.

(** The lines of step 2. *)
Definition interval_report (ev : event) : bool :=
  match ev with
  | PrintSolidus _ _ _ | PrintWindow _ _ _ => true
  | _ => false
  end.

(** A table of a nickel-base alloy read with the default base Fe. *)
Definition nickel_columns : list string :=
  ["Temperature [K]"; "Amount of LIQUID [mol]";
   "Mass percent of Ni in LIQUID"; "Mass percent of Cr in LIQUID"].

Definition nickel_table : ndarray :=
  mk_array 4 [[1600; nan; nan; nan]; [1650; nan; 72; 28]; [1680; 0.5; 74; 26];
              [1700; 1; 75; 25]; [1750; 1; 75; 25]]%float.

(** [v] neither equals [w] nor is below it. *)
Definition above (v w : float) : bool := negb (feq v w) && negb (flt v w).

Definition head_temperature (G : list (list float)) : float := cell (hd [] G) 0.

(** The groups are not empty, the rows of a group have the temperature of
    its first row, and that temperature is above the ones [seen] before. *)
Fixpoint ascending_groups (seen : list float) (groups : list (list (list float))) : bool :=
  match groups with
  | [] => true
  | G :: groups' =>
      negb (List.length G =? 0)
      && forallb (fun r => feq (cell r 0) (head_temperature G)
                           && forallb (above (cell r 0)) seen) G
      && ascending_groups (seen ++ [head_temperature G]) groups'
  end.

(** The row to keep of a group: the first of those with the most fields
    that are not missing. *)
Definition best_row (G : list (list float)) : list float :=
  nth (argmax (map count_non_nan G)) G [].

(** What [np.unique] returns for such a table whose first row has index [k]. *)
Fixpoint groups_from (k : nat) (groups : list (list (list float))) : list group :=
  match groups with
  | [] => []
  | G :: groups' =>
      mk_group (head_temperature G) k (List.length G)
      :: groups_from (k + List.length G) groups'
  end.

(** A group of [np.unique] that lies within the first [k] values: it has a
    member, and its members start at [g_ind] and are [g_cnt] of the values
    from there on. *)
Definition within (k : nat) (g : group) : Prop :=
  1 <= g_cnt g /\ g_ind g + g_cnt g <= k.

(** [if not args.T0: args.T0 = (args.T.min + args.T.max)/2], as the value
    of [args.T0] after it. *)
Definition final_T0 (T : Range) (T0 : option float) : float :=
  if falsy T0 then ((rmin T + rmax T) / 2)%float
  else match T0 with
       | Some x => x
       | None => ((rmin T + rmax T) / 2)%float
       end.

(** The header does not carry the unit C: [T] is left as it is. *)
Definition kelvin (c : string) : bool := negb (mem "C" (Re.findall1 Regex.temperature c)).

(** The header is a column of the element [base] in some phase. *)
Definition is_base_column (base c : string) : bool :=
  match parse_element_content c with
  | Some (elem, _) => String.eqb elem base
  | None => false
  end.

(** The columns of the table whose header is an element column of the phase
    [p], in header order; [i] is the index of the first header. *)
Fixpoint phase_columns (data : ndarray) (p : string) (i : nat) (columns : list string)
  : list (list float) :=
  match columns with
  | [] => []
  | c :: cs =>
      match parse_element_content c with
      | Some (_, phase) =>
          if String.eqb phase p
          then map (fun r => cell r i) (rows data) :: phase_columns data p (S i) cs
          else phase_columns data p (S i) cs
      | None => phase_columns data p (S i) cs
      end
  end.

(** [np.zeros_like(T)] *)
Definition zeros (data : ndarray) : list float := map (fun _ => 0%float) (rows data).

(** The header is no element column of the phase LIQUID. *)
Definition not_of_liquid (c : string) : bool :=
  match parse_element_content c with
  | Some (_, phase) => negb (String.eqb phase "LIQUID")
  | None => true
  end.

(** The lines of steps 8 and 9: the results of the run. *)
Definition result_line (ev : event) : bool :=
  match ev with
  | PrintContribution _ _ _ _ _ _ _ _ | PrintFreezing _ _ _ _ | PrintSchaeffler _ _ _ => true
  | _ => false
  end.

(** A run that ends with an exception and has printed no result. *)
Definition aborts {A} (x : run A) : Prop :=
  (exists e, result x = Raise e)
  /\ forallb (fun ev => negb (result_line ev)) (output x) = true.

(** The properties of the two tables that every turn keeps. *)
Definition tables_invariant (base : string) (C0 slopes0 C slopes : dict (dict float)) : Prop :=
  (forall p, dict_get p C = None <-> dict_get p C0 = None)
  /\ (forall p, dict_get p slopes = None <-> dict_get p slopes0 = None)
  /\ (forall p inner, dict_get p C = Some inner -> dict_get base inner = None)
  /\ (forall p inner, dict_get p slopes = Some inner -> dict_get base inner = None)
  /\ (forall p e, has_entry C p e = has_entry slopes p e).

(** What a line of step 8 is about. *)
Inductive subject : Type :=
| OfElement (elem : string)
| OfPhase (phase : string)
| Other.

Definition subject_of (ev : event) : subject :=
  match ev with
  | PrintContribution elem _ _ _ _ _ _ _ => OfElement elem
  | PrintFreezing phase _ _ _ => OfPhase phase
  | _ => Other
  end.

(** The phases that step 8 does not pass over. *)
Definition solid (phase : string) : bool := negb (String.eqb phase "LIQUID").

(** Concentrations and slopes of three elements, for which the order of the
    additions shows in binary64. *)
Definition three_elements_float : dict (dict float) * dict (dict float) :=
  ([("LIQUID", [("Cr", 0); ("Ni", 0); ("Mo", 0)]);
    ("BCC_A2", [("Cr", 0.1); ("Ni", 0.2); ("Mo", 0.3)])],
   [("LIQUID", [("Cr", 1); ("Ni", 1); ("Mo", 1)]);
    ("BCC_A2", [("Cr", 2); ("Ni", 2); ("Mo", 2)])])%float.

Definition three_elements_Q : dict (dict Q) * dict (dict Q) :=
  ([("LIQUID", [("Cr", 0); ("Ni", 0); ("Mo", 0)]);
    ("BCC_A2", [("Cr", 1 # 10); ("Ni", 2 # 10); ("Mo", 3 # 10)])],
   [("LIQUID", [("Cr", 1); ("Ni", 1); ("Mo", 1)]);
    ("BCC_A2", [("Cr", 2); ("Ni", 2); ("Mo", 2)])])%Q.

(** A run with [--verbose]. *)
Definition verbose_args : Args :=
  mk_Args (mk_Range 1600 1800) None "Fe" 0.5 false false true [].

(** [elem in Ni_coeffs], [elem in Cr_coeffs] *)
Definition in_Ni (item : string * float) : bool :=
  match dict_get (fst item) Ni_coeffs with Some _ => true | None => false end.

Definition in_Cr (item : string * float) : bool :=
  match dict_get (fst item) Cr_coeffs with Some _ => true | None => false end.

(** The loop of a group in [match_here], with the match of the rest of the
    pattern as [k]. *)
Fixpoint greedy (c : Re.cclass) (least : nat)
    (k : list ascii -> option (list string * nat)) (s acc : list ascii)
  : option (list string * nat) :=
  let stop :=
    if least <=? List.length acc then
      match k s with
      | Some (caps, n) =>
          Some (string_of_list_ascii (rev acc) :: caps, List.length acc + n)
      | None => None
      end
    else None in
  match s with
  | a :: s' =>
      if Re.in_class c a then
        match greedy c least k s' (a :: acc) with
        | Some r => Some r
        | None => stop
        end
      else stop
  | [] => stop
  end.

(** The text that a pattern matches when its groups capture [caps]. *)
Fixpoint text_of (re : Re.regex) (caps : list string) : option (list ascii) :=
  match re with
  | [] => match caps with [] => Some [] | _ :: _ => None end
  | Re.Lit l :: re' =>
      match text_of re' caps with
      | Some t => Some (list_ascii_of_string l ++ t)%list
      | None => None
      end
  | Re.Grp c least :: re' =>
      match caps with
      | cap :: caps' =>
          if forallb (Re.in_class c) (list_ascii_of_string cap)
             && (least <=? String.length cap)
          then match text_of re' caps' with
               | Some t => Some (list_ascii_of_string cap ++ t)%list
               | None => None
               end
          else None
      | [] => None
      end
  end.

(** The pattern matches at no position of the text. *)
Fixpoint nowhere (re : Re.regex) (s : list ascii) : bool :=
  match s with
  | [] => true
  | _ :: s' =>
      match Re.match_here re s with
      | None => nowhere re s'
      | Some _ => false
      end
  end.

(** The text ends, or goes on with a character outside the class. *)
Definition boundary (c : Re.cclass) (rest : list ascii) : bool :=
  match rest with
  | [] => true
  | a :: _ => negb (Re.in_class c a)
  end.

(** The text ends, or goes on with a space and then not with [x]. *)
Definition follow (x : ascii) (rest : list ascii) : bool :=
  match rest with
  | [] => true
  | a :: r =>
      Ascii.eqb a " "
      && match r with
         | [] => true
         | y :: _ => negb (Ascii.eqb x y)
         end
  end.

(** A name as a group of the class [c] captures it: not empty, and of
    characters of the class. *)
Definition name (c : Re.cclass) (s : string) : bool :=
  negb (String.eqb s "") && forallb (Re.in_class c) (list_ascii_of_string s).

(** [t in s] of two strings *)
Definition contains (t s : string) : Prop :=
  exists pre post : string, s = (pre ++ t ++ post)%string.

(** [sep in s] for a separator of one character *)
Fixpoint has_char (sep : ascii) (s : string) : bool :=
  match s with
  | EmptyString => false
  | String a s' => Ascii.eqb a sep || has_char sep s'
  end.

(** The lines of step 7. *)
Definition partition_line (ev : event) : bool :=
  match ev with
  | PrintPartition _ _ _ _ => true
  | _ => false
  end.

(** A table of two phases, each with two rows inside the window that
    step 2 finds (1625..1725). *)
Definition two_phase_table : ndarray :=
  mk_array 10 [[1600; nan; nan; nan; nan; nan; 70; 18; 10; 2];
               [1650; nan; nan; nan; nan; nan; 69; 19; 10; 2];
               [1680; 0.5; 62; 26;  9;   3; 68; 20; 10; 2];
               [1700; 1;   64; 25;  8;   3; nan; nan; nan; nan];
               [1750; 1;   64; 25;  8;   3; nan; nan; nan; nan]]%float.

(** The header is the amount of some phase. *)
Definition is_phase_header (c : string) : bool :=
  match parse_phase_fraction c with
  | Some _ => true
  | None => false
  end.

(** The line of the solidus and the liquidus. *)
Definition solidus_line (ev : event) : bool :=
  match ev with
  | PrintSolidus _ _ _ => true
  | _ => false
  end.

(** The sums of step 5 for the two-phase table in its window. *)
Definition two_phase_sums : dict (list float) :=
  [("LIQUID", [nan; 100; 100]); ("FCC_A1", [100; 100; nan])]%float.

(** * Worked examples *)

Example parse_masspct :
  parse_element_content "Mass percent of Cr in BCC_A2#2" = Some ("Cr", "BCC_A2#2").
Proof. reflexivity. Qed.

Example parse_gram :
  parse_element_content "Amount of Ni in LIQUID [g]" = Some ("Ni", "LIQUID").
Proof. reflexivity. Qed.

Example parse_phase :
  parse_phase_fraction "Amount of LIQUID [mol]" = Some "LIQUID".
Proof. reflexivity. Qed.

Example parse_phase_not_gram :
  parse_phase_fraction "Amount of Ni in LIQUID [g]" = None.
Proof. reflexivity. Qed.

Example temperature_greedy :
  Re.findall1 Regex.temperature "Temperature [K] and [C]" = ["K] and [C"].
Proof. reflexivity. Qed.

Example unique_example :
  np_unique [1700; 1650; 1700; 1600]%float
  = [mk_group 1600 3 1; mk_group 1650 1 1; mk_group 1700 0 2]%float.
Proof. reflexivity. Qed.

(** Scenario A of the specification: of two rows at 1700 the second, with
    fewer missing fields, is kept. *)
Example scenario_A :
  rows (deduplicate (mk_array 4
         [[1650; 1; 2; 3]; [1700; nan; nan; nan]; [1700; 1; 2; nan]; [1750; 0; 0; 0]]%float))
  = [[1650; 1; 2; 3]; [1700; 1; 2; nan]; [1750; 0; 0; 0]]%float.
Proof. reflexivity. Qed.

(** * Steps that print *)

Lemma rbind_result {A B} (x : run A) (f : A -> run B) (b : B) :
  result (rbind x f) = Ok b -> exists a, result x = Ok a /\ result (f a) = Ok b.
Proof.
  destruct x as [out [a | e]]; simpl.
  - intros H. exists a. split; [reflexivity |]. destruct (f a). exact H.
  - discriminate.
Qed.

Lemma rbind_silent {A B} (x : run A) (f : A -> run B) (a : A) :
  x = ([], Ok a) -> rbind x f = f a.
Proof. intros ->. simpl. now destruct (f a). Qed.

Lemma for_enumerate_app {St} (body : nat -> string -> St -> run St)
    (cs1 cs2 : list string) :
  forall k st st',
    for_enumerate body k cs1 st = ([], Ok st') ->
    for_enumerate body k (cs1 ++ cs2) st
    = for_enumerate body (k + List.length cs1) cs2 st'.
Proof.
  induction cs1 as [| c cs1 IH]; simpl; intros k st st' H.
  - injection H as ->. now rewrite Nat.add_0_r.
  - destruct (body k c st) as [out [st1 | e]] eqn:Hb; simpl in *.
    + destruct (for_enumerate body (S k) cs1 st1) as [out' r] eqn:Hl.
      injection H as Hout Hr. apply app_eq_nil in Hout as [-> ->].
      subst r. rewrite (IH _ _ _ Hl). rewrite <- Nat.add_succ_comm. simpl.
      now destruct (for_enumerate body (S (k + List.length cs1)) cs2 st').
    + discriminate.
Qed.

Lemma rbind_lift_ok {A B} (a : A) (f : A -> run B) : rbind (lift (Ok a)) f = f a.
Proof. now apply rbind_silent. Qed.

Lemma rbind_ok {A B} (x : run A) (f : A -> run B) (out : list event) (a : A) :
  x = (out, Ok a) -> rbind x f = ((out ++ output (f a))%list, result (f a)).
Proof. intros ->. simpl. now destruct (f a). Qed.

Lemma output_rbind {A B} (x : run A) (f : A -> run B) (p : event -> bool) :
  forallb p (output x) = true ->
  (forall a, forallb p (output (f a)) = true) ->
  forallb p (output (rbind x f)) = true.
Proof.
  destruct x as [out [a | e]]; simpl; intros Hx Hf; [| exact Hx].
  specialize (Hf a). destruct (f a) as [out' r]. simpl in *.
  rewrite forallb_app, Hx, Hf. reflexivity.
Qed.

(** * Deduplication (step 1) on a table sorted by temperature

    The table as ThermoCalc writes it: the rows of one temperature follow
    each other, and the temperature does not fall from one group of rows to
    the next.  Both are stated with the comparisons of [np.unique]. *)

Lemma unique_insert_above (v : float) (k : nat) (gs : list group) :
  forallb (above v) (map g_val gs) = true ->
  unique_insert v k gs = (gs ++ [mk_group v k 1])%list.
Proof.
  induction gs as [| g gs IH]; simpl; intros H; [reflexivity |].
  apply andb_prop in H as [Hg Hgs]. unfold above in Hg.
  apply andb_prop in Hg as [He Hl]. apply negb_true_iff in He, Hl.
  rewrite He, Hl. now rewrite IH.
Qed.

Lemma unique_insert_last (v w : float) (k i c : nat) (gs : list group) :
  forallb (above v) (map g_val gs) = true ->
  feq v w = true ->
  unique_insert v k (gs ++ [mk_group w i c]) = (gs ++ [mk_group w i (S c)])%list.
Proof.
  induction gs as [| g gs IH]; simpl; intros H Hw.
  - now rewrite Hw.
  - apply andb_prop in H as [Hg Hgs]. unfold above in Hg.
    apply andb_prop in Hg as [He Hl]. apply negb_true_iff in He, Hl.
    rewrite He, Hl. now rewrite IH.
Qed.

Lemma unique_from_group (w : float) (i : nat) (gs : list group) (G : list (list float)) :
  forall (T : list float) (k c : nat),
    forallb (fun r => feq (cell r 0) w && forallb (above (cell r 0)) (map g_val gs)) G
    = true ->
    unique_from k (map (fun r => cell r 0) G ++ T) (gs ++ [mk_group w i c])
    = unique_from (k + List.length G) T (gs ++ [mk_group w i (c + List.length G)]).
Proof.
  induction G as [| r G IH]; simpl; intros T k c H.
  - now rewrite !Nat.add_0_r.
  - apply andb_prop in H as [Hr HG]. apply andb_prop in Hr as [Hw Ha].
    rewrite (unique_insert_last _ w) by assumption.
    rewrite IH by exact HG. now rewrite <- !Nat.add_succ_comm.
Qed.

Lemma unique_from_groups (groups : list (list (list float))) :
  forall (k : nat) (gs : list group),
    ascending_groups (map g_val gs) groups = true ->
    unique_from k (map (fun r => cell r 0) (List.concat groups)) gs
    = (gs ++ groups_from k groups)%list.
Proof.
  induction groups as [| G groups IH]; simpl; intros k gs H.
  - now rewrite app_nil_r.
  - apply andb_prop in H as [H Hrest]. apply andb_prop in H as [Hne HG].
    destruct G as [| r G]; [discriminate |]. simpl in *.
    apply andb_prop in HG as [Hr HG]. apply andb_prop in Hr as [_ Ha].
    rewrite map_app. rewrite unique_insert_above by exact Ha.
    change (cell r 0) with (head_temperature (r :: G)).
    rewrite unique_from_group by exact HG.
    rewrite IH.
    + rewrite <- app_assoc. simpl. now rewrite <- Nat.add_succ_comm.
    + rewrite map_app. exact Hrest.
Qed.

Lemma argmax_cons (x y : nat) (l : list nat) :
  argmax (x :: y :: l)
  = if nth (argmax (y :: l)) (y :: l) 0 <=? x then 0 else S (argmax (y :: l)).
Proof. reflexivity. Qed.

Lemma argmax_bound (l : list nat) : l <> [] -> argmax l < List.length l.
Proof.
  induction l as [| x l IH]; [congruence |]. intros _.
  destruct l as [| y l]; [simpl; lia |]. rewrite argmax_cons.
  assert (argmax (y :: l) < List.length (y :: l)) by (apply IH; congruence).
  destruct (nth (argmax (y :: l)) (y :: l) 0 <=? x); cbn [List.length] in *; lia.
Qed.

(** [argmax] is an index of a maximum, and the first such index. *)
Lemma argmax_spec (l : list nat) :
  (forall i, nth i l 0 <= nth (argmax l) l 0)
  /\ (forall i, i < argmax l -> nth i l 0 < nth (argmax l) l 0).
Proof.
  induction l as [| x l [IHmax IHfirst]].
  - split; [intros [| i]; reflexivity | simpl; lia].
  - destruct l as [| y l].
    + split; [intros [| [| i]]; simpl; lia | simpl; lia].
    + rewrite argmax_cons.
      destruct (nth (argmax (y :: l)) (y :: l) 0 <=? x) eqn:E.
      * apply Nat.leb_le in E. split; [| lia].
        intros [| i]; [reflexivity |].
        change (nth (S i) (x :: y :: l) 0) with (nth i (y :: l) 0).
        change (nth 0 (x :: y :: l) 0) with x.
        specialize (IHmax i). lia.
      * apply Nat.leb_gt in E.
        change (nth (S (argmax (y :: l))) (x :: y :: l) 0)
          with (nth (argmax (y :: l)) (y :: l) 0).
        split.
        -- intros [| i].
           ++ change (nth 0 (x :: y :: l) 0) with x. lia.
           ++ change (nth (S i) (x :: y :: l) 0) with (nth i (y :: l) 0). apply IHmax.
        -- intros [| i] Hi.
           ++ change (nth 0 (x :: y :: l) 0) with x. exact E.
           ++ change (nth (S i) (x :: y :: l) 0) with (nth i (y :: l) 0).
              apply IHfirst. lia.
Qed.

Lemma slice_group (pre G post : list (list float)) :
  slice (List.length pre) (List.length G) (pre ++ G ++ post) = G.
Proof.
  unfold slice. rewrite skipn_app, skipn_all, Nat.sub_diag. simpl.
  rewrite firstn_app, firstn_all, Nat.sub_diag. simpl. now rewrite app_nil_r.
Qed.

Lemma nth_group (pre G post : list (list float)) (j : nat) :
  j < List.length G -> nth (List.length pre + j) (pre ++ G ++ post) [] = nth j G [].
Proof.
  intros Hj. rewrite app_nth2 by lia.
  replace (List.length pre + j - List.length pre) with j by lia.
  now rewrite app_nth1.
Qed.

Lemma chosen_rows (n : nat) (groups : list (list (list float))) :
  forall pre : list (list float),
    forallb (fun G => negb (List.length G =? 0)) groups = true ->
    map (fun g => nth (chosen_index (mk_array n (pre ++ List.concat groups)) g)
                      (pre ++ List.concat groups) [])
        (groups_from (List.length pre) groups)
    = map best_row groups.
Proof.
  induction groups as [| G groups IH]; simpl; intros pre H; [reflexivity |].
  apply andb_prop in H as [HG Hrest].
  assert (Hne : G <> []) by (destruct G; [discriminate | congruence]).
  f_equal.
  - unfold chosen_index. simpl.
    assert (Hbest : nth (List.length pre + argmax (map count_non_nan G))
                        (pre ++ G ++ List.concat groups) [] = best_row G).
    { apply nth_group. rewrite <- (length_map count_non_nan).
      apply argmax_bound. destruct G; [congruence | discriminate]. }
    destruct (1 <? List.length G) eqn:E.
    + now rewrite slice_group.
    + apply Nat.ltb_ge in E. destruct G as [| r [| r' G]]; try (simpl in E; lia); try congruence.
      unfold best_row. simpl. rewrite Nat.add_0_r in Hbest. exact Hbest.
  - specialize (IH (pre ++ G)%list Hrest).
    rewrite length_app, <- !app_assoc in IH. exact IH.
Qed.

Lemma ascending_groups_nonempty (groups : list (list (list float))) :
  forall seen, ascending_groups seen groups = true ->
               forallb (fun G => negb (List.length G =? 0)) groups = true.
Proof.
  induction groups as [| G groups IH]; simpl; intros seen H; [reflexivity |].
  apply andb_prop in H as [H Hrest]. apply andb_prop in H as [Hne _].
  rewrite Hne. simpl. now apply (IH _ Hrest).
Qed.

Lemma ascending_groups_uniform (groups : list (list (list float))) :
  forall seen,
    ascending_groups seen groups = true ->
    forallb (fun G => forallb (fun r => feq (cell r 0) (head_temperature G)) G) groups
    = true.
Proof.
  induction groups as [| G groups IH]; simpl; intros seen H; [reflexivity |].
  apply andb_prop in H as [H Hrest]. apply andb_prop in H as [_ HG].
  rewrite (IH _ Hrest), andb_true_r.
  apply forallb_forall. intros r Hr. rewrite forallb_forall in HG.
  specialize (HG r Hr). now apply andb_prop in HG as [HG _].
Qed.

(** On a table sorted by temperature the script keeps, in order, one row of
    each group of rows of one temperature: the first of the rows of the group
    with the most fields that are not missing.  The kept rows have the
    temperatures of their groups, which ascend. *)
Theorem deduplicate_sorted :
  forall (n : nat) (groups : list (list (list float))),
    ascending_groups [] groups = true ->
    rows (deduplicate (mk_array n (List.concat groups))) = map best_row groups
    /\ Forall (fun G =>
                 In (best_row G) G
                 /\ feq (cell (best_row G) 0) (head_temperature G) = true
                 /\ (forall r, In r G -> count_non_nan r <= count_non_nan (best_row G))
                 /\ (forall i, i < argmax (map count_non_nan G) ->
                               count_non_nan (nth i G []) < count_non_nan (best_row G)))
              groups.
Proof.
  intros n groups H.
  pose proof (ascending_groups_nonempty groups [] H) as Hne.
  split.
  - unfold deduplicate, np_unique, temperatures. cbn [rows ncols].
    rewrite (unique_from_groups groups 0 [] H). simpl.
    exact (chosen_rows n groups [] Hne).
  - apply Forall_forall. intros G HG.
    assert (HGne : negb (List.length G =? 0) = true)
      by (rewrite forallb_forall in Hne; now apply Hne).
    assert (Hlen : argmax (map count_non_nan G) < List.length G).
    { rewrite <- (length_map count_non_nan). apply argmax_bound.
      destruct G; [discriminate | discriminate]. }
    destruct (argmax_spec (map count_non_nan G)) as [Hmax Hfirst].
    assert (Hnth : forall i, i < List.length G ->
                             nth i (map count_non_nan G) 0 = count_non_nan (nth i G [])).
    { intros i Hi. rewrite (nth_indep _ 0 (count_non_nan [])) by (now rewrite length_map).
      apply map_nth. }
    assert (Hin : In (best_row G) G) by (now apply nth_In).
    split; [exact Hin | split].
    { pose proof (ascending_groups_uniform groups [] H) as Hu.
      rewrite forallb_forall in Hu. specialize (Hu G HG).
      rewrite forallb_forall in Hu. now apply Hu. }
    unfold best_row. split.
    + intros r Hr. apply (In_nth _ _ []) in Hr as [i [Hi <-]].
      rewrite <- !Hnth by assumption. apply Hmax.
    + intros i Hi. rewrite <- !Hnth by lia. now apply Hfirst.
Qed.

(** Scenario A as three groups. *)
Lemma deduplicate_sorted_witness :
  rows (deduplicate (mk_array 4
         [[1650; 1; 2; 3]; [1700; nan; nan; nan]; [1700; 1; 2; nan]; [1750; 0; 0; 0]]%float))
  = [[1650; 1; 2; 3]; [1700; 1; 2; nan]; [1750; 0; 0; 0]]%float.
Proof.
  apply (proj1 (deduplicate_sorted 4
                  [[[1650; 1; 2; 3]]; [[1700; nan; nan; nan]; [1700; 1; 2; nan]];
                   [[1750; 0; 0; 0]]]%float eq_refl)).
Defined.

(** * Deduplication (step 1) on a table whose equal temperatures are apart *)

(** C3.  Evaluation at [scattered_table]: the group of 1700 is rows 0 and 2,
    of which row 2 has the most fields; the script compares rows 0 and 1
    instead and keeps row 1, so that the result has the row of 1650 twice and
    no row of 1700. *)
Theorem deduplicate_scattered_group :
  np_unique (temperatures scattered_table)
  = [mk_group 1650 1 1; mk_group 1700 0 2]%float
  /\ map count_non_nan (slice 0 2 (rows scattered_table)) = [1; 3]
  /\ rows (deduplicate scattered_table) = [[1650; 1; 1]; [1650; 1; 1]]%float.
Proof. repeat split. Qed.

(** C9.  Evaluation at [unsorted_table]: the temperatures of the result are
    1900, 1700, 1900, which do not ascend, and the solidus and liquidus are
    then read off rows in that order. *)
Theorem deduplicate_unsorted_order :
  temperatures (deduplicate unsorted_table) = [1900; 1700; 1900]%float
  /\ rows (deduplicate unsorted_table) = [[1900; 5]; [1700; 7]; [1900; 5]]%float.
Proof. repeat split. Qed.

(** * The loop of step 2: conversion to kelvin, and the missing bounds *)

Lemma temperatures_add_kelvin (a : ndarray) :
  temperatures (add_kelvin a) = map (fun t => (t + 273.15)%float) (temperatures a).
Proof.
  unfold temperatures, add_kelvin. simpl. rewrite !map_map.
  apply map_ext. intros [| t r]; reflexivity.
Qed.

Lemma column_add_kelvin (a : ndarray) (i : nat) :
  0 < i -> column i (add_kelvin a) = column i a.
Proof.
  intros Hi. unfold column, add_kelvin. simpl. destruct (i <? ncols a); [| reflexivity].
  f_equal. rewrite map_map. apply map_ext. intros [| t r]; [reflexivity |].
  destruct i; [lia | reflexivity].
Qed.

Lemma convert_temperature_unit (c u : string) (st : interval_state) :
  Re.findall1 Regex.temperature c = [u] ->
  convert_temperature c st
  = mk_state (converted u (st_data st)) (st_T st) (st_T0 st) (st_plot st).
Proof.
  intros H. unfold convert_temperature, converted. rewrite H.
  unfold mem. cbn [existsb]. rewrite orb_false_r.
  destruct (String.eqb "C" u); [reflexivity | now destruct st].
Qed.

Lemma convert_temperature_no_unit (c : string) (st : interval_state) :
  no_unit c = true -> convert_temperature c st = st.
Proof.
  unfold no_unit, convert_temperature.
  destruct (Re.findall1 Regex.temperature c); [reflexivity | discriminate].
Qed.

Lemma convert_temperature_column (c : string) (st : interval_state) (i : nat) :
  0 < i -> column i (st_data (convert_temperature c st)) = column i (st_data st).
Proof.
  intros Hi. unfold convert_temperature.
  destruct (Re.findall1 Regex.temperature c) as [| u us]; [reflexivity |].
  destruct (mem "C" (u :: us)); [simpl; now apply column_add_kelvin | reflexivity].
Qed.

Lemma analyze_phase_data (args : Args) (i : nat) (c : string) (st st' : interval_state) :
  result (analyze_phase args i c st) = Ok st' -> st_data st' = st_data st.
Proof.
  unfold analyze_phase.
  destruct (parse_phase_fraction c) as [phase |]; [| simpl; now intros [= <-]].
  destruct (String.eqb phase "LIQUID").
  - destruct (args_phases args); simpl;
      destruct (solidus (st_data st) i); simpl; try discriminate;
      destruct (liquidus (st_data st) i); simpl; try discriminate;
      destruct (args_manual args); simpl; now intros [= <-].
  - destruct (args_phases args); simpl; now intros [= <-].
Qed.

Lemma loop_data (args : Args) (cs : list string) :
  forallb no_unit cs = true ->
  forall k st st',
    result (for_enumerate (analyze_column args) k cs st) = Ok st' ->
    st_data st' = st_data st.
Proof.
  induction cs as [| c cs IH]; simpl; intros H k st st' Hr.
  - now injection Hr as <-.
  - apply andb_prop in H as [Hc Hcs].
    apply rbind_result in Hr as [st1 [H1 H2]].
    unfold analyze_column in H1. rewrite convert_temperature_no_unit in H1 by exact Hc.
    apply analyze_phase_data in H1. apply (IH Hcs) in H2. congruence.
Qed.

(** The unit degC contains a C, and the table is left in degrees Celsius: the
    solidus and the window are those of the unconverted temperatures.  With
    the unit C the same table is converted. *)
Lemma celsius_unit_counterexample :
  Re.findall1 Regex.temperature "Temperature [degC]" = ["degC"]
  /\ output (analyze_phase_fractions default_args
               ["Temperature [degC]"; "Amount of LIQUID [mol]"] celsius_table)
     = [PrintSolidus 1376.85 1426.85 50;
        PrintWindow (1376.85 - 50 * 0.5) (1426.85 - 50 / 1e10) (1426.85 + 50 * 0.5)]%float
  /\ output (analyze_phase_fractions default_args
               ["Temperature [C]"; "Amount of LIQUID [mol]"] celsius_table)
     = [PrintSolidus 1650 1700 50;
        PrintWindow (1650 - 50 * 0.5) (1700 - 50 / 1e10) (1700 + 50 * 0.5)]%float.
Proof. repeat split. Qed.

(** C4, as the script has it.  The unit [u] is what the header of the
    temperature column has between its brackets.  If [u] is the one letter C,
    every temperature is raised by 273.15, otherwise (kelvin, but also any
    longer unit that contains a C) every temperature is left as it is; this
    is done before the rest of the loop body reads the table, and, no other
    header carrying a unit, it is the table that step 2 hands on. *)
Theorem celsius_conversion :
  forall (args : Args) (c u : string) (cs : list string) (a : ndarray)
         (T : Range) (T0 : option float) (plot : bool),
    Re.findall1 Regex.temperature c = [u] ->
    forallb no_unit cs = true ->
    temperatures (converted u a)
    = (if String.eqb "C" u
       then map (fun t => (t + 273.15)%float) (temperatures a)
       else temperatures a)
    /\ for_enumerate (analyze_column args) 0 (c :: cs) (mk_state a T T0 plot)
       = (st <~ analyze_phase args 0 c (mk_state (converted u a) T T0 plot) ;;
          for_enumerate (analyze_column args) 1 cs st)
    /\ (forall st,
          result (for_enumerate (analyze_column args) 0 (c :: cs) (mk_state a T T0 plot))
          = Ok st ->
          st_data st = converted u a).
Proof.
  intros args c u cs a T T0 plot Hu Hcs.
  assert (Hloop :
    for_enumerate (analyze_column args) 0 (c :: cs) (mk_state a T T0 plot)
    = (st <~ analyze_phase args 0 c (mk_state (converted u a) T T0 plot) ;;
       for_enumerate (analyze_column args) 1 cs st)).
  { simpl. unfold analyze_column at 1. now rewrite (convert_temperature_unit c u). }
  split; [| split].
  - unfold converted. destruct (String.eqb "C" u); [apply temperatures_add_kelvin | reflexivity].
  - exact Hloop.
  - intros st Hst. rewrite Hloop in Hst.
    apply rbind_result in Hst as [st1 [H1 H2]].
    apply analyze_phase_data in H1. apply (loop_data args cs Hcs) in H2.
    simpl in H1. congruence.
Qed.

(** The units C, K and degC in front of an amount column. *)
Lemma celsius_conversion_witness :
  temperatures (converted "C" celsius_table)
  = map (fun t => (t + 273.15)%float) (temperatures celsius_table)
  /\ temperatures (converted "K" celsius_table) = temperatures celsius_table
  /\ temperatures (converted "degC" celsius_table) = temperatures celsius_table.
Proof.
  split; [| split].
  - apply (celsius_conversion default_args "Temperature [C]" "C"
             ["Amount of LIQUID [mol]"] celsius_table (mk_Range 1600 1800) None false);
      reflexivity.
  - apply (celsius_conversion default_args "Temperature [K]" "K"
             ["Amount of LIQUID [mol]"] celsius_table (mk_Range 1600 1800) None false);
      reflexivity.
  - apply (celsius_conversion default_args "Temperature [degC]" "degC"
             ["Amount of LIQUID [mol]"] celsius_table (mk_Range 1600 1800) None false);
      reflexivity.
Defined.

Lemma analyze_column_not_liquid (args : Args) (k : nat) (c : string) (st : interval_state) :
  is_liquid c = false ->
  exists st',
    analyze_column args k c st = ([], Ok st')
    /\ forall i, 0 < i -> column i (st_data st') = column i (st_data st).
Proof.
  unfold is_liquid, analyze_column, analyze_phase. intros H.
  destruct (parse_phase_fraction c) as [phase |].
  - rewrite H. destruct (args_phases args); eexists; (split; [reflexivity |]);
      intros i Hi; simpl; now apply convert_temperature_column.
  - eexists. split; [reflexivity |]. intros i Hi. now apply convert_temperature_column.
Qed.

Lemma loop_not_liquid (args : Args) (pre : list string) :
  forallb (fun c => negb (is_liquid c)) pre = true ->
  forall k st,
  exists st',
    for_enumerate (analyze_column args) k pre st = ([], Ok st')
    /\ forall i, 0 < i -> column i (st_data st') = column i (st_data st).
Proof.
  induction pre as [| c pre IH]; simpl; intros H k st.
  - exists st. split; [reflexivity | reflexivity].
  - apply andb_prop in H as [Hc Hpre]. apply negb_true_iff in Hc.
    destruct (analyze_column_not_liquid args k c st Hc) as [st1 [H1 Hcol1]].
    destruct (IH Hpre (S k) st1) as [st2 [H2 Hcol2]].
    exists st2. split.
    + rewrite (rbind_silent _ _ st1 H1). exact H2.
    + intros i Hi. rewrite Hcol2, Hcol1 by exact Hi. reflexivity.
Qed.

Lemma solidus_raise (a : ndarray) (i : nat) (e : exn) :
  solidus a i = Raise e -> e = IndexError.
Proof.
  unfold solidus, column. destruct (i <? ncols a); simpl; [| congruence].
  destruct (last_error _); simpl; congruence.
Qed.

Lemma solidus_no_missing (a : ndarray) (i : nat) (col : list float) :
  column i a = Ok col -> argwhere isnan col = [] -> solidus a i = Raise IndexError.
Proof. intros Hc Hn. unfold solidus. rewrite Hc. simpl. now rewrite Hn. Qed.

Lemma liquidus_no_one (a : ndarray) (i : nat) (col : list float) :
  column i a = Ok col -> argwhere (fun x => (x =? 1)%float) col = [] ->
  liquidus a i = Raise IndexError.
Proof. intros Hc Hn. unfold liquidus. rewrite Hc. simpl. now rewrite Hn. Qed.

Lemma analyze_phase_no_bound (args : Args) (i : nat) (c : string)
    (st : interval_state) (col : list float) :
  is_liquid c = true ->
  column i (st_data st) = Ok col ->
  no_bound col = true ->
  analyze_phase args i c st = ([], Raise IndexError).
Proof.
  unfold is_liquid, analyze_phase, no_bound. intros Hc Hcol Hb.
  destruct (parse_phase_fraction c) as [phase |]; [| discriminate]. rewrite Hc.
  assert (Hd : st_data (if args_phases args
                        then mk_state (st_data st) (st_T st) (st_T0 st) true
                        else st) = st_data st)
    by (destruct (args_phases args); reflexivity).
  rewrite Hd.
  destruct (solidus (st_data st) i) as [sol | e] eqn:Hs; simpl.
  - destruct (argwhere isnan col) eqn:Hn.
    + rewrite (solidus_no_missing _ _ _ Hcol Hn) in Hs. discriminate.
    + destruct (argwhere (fun x => (x =? 1)%float) col) eqn:Ho; [| discriminate].
      now rewrite (liquidus_no_one _ _ _ Hcol Ho).
  - now rewrite (solidus_raise _ _ _ Hs).
Qed.

Lemma analyze_phase_fractions_no_bound (args : Args) (pre post : list string)
    (c : string) (data : ndarray) (col : list float) :
  0 < List.length pre ->
  forallb (fun c' => negb (is_liquid c')) pre = true ->
  is_liquid c = true ->
  column (List.length pre) data = Ok col ->
  no_bound col = true ->
  analyze_phase_fractions args (pre ++ c :: post) data = ([], Raise IndexError).
Proof.
  intros Hlen Hpre Hc Hcol Hb. unfold analyze_phase_fractions.
  destruct (loop_not_liquid args pre Hpre 0
              (mk_state data (args_T args) (args_T0 args) false)) as [st1 [H1 Hcol1]].
  rewrite (for_enumerate_app _ _ _ _ _ _ H1). simpl.
  unfold analyze_column at 1.
  rewrite (analyze_phase_no_bound args _ c _ col); [reflexivity | exact Hc | | exact Hb].
  rewrite convert_temperature_column by exact Hlen.
  rewrite Hcol1 by exact Hlen. exact Hcol.
Qed.

(** With the LIQUID amount 1 at 1600 and missing at 1650 the solidus is above
    the liquidus, deltaT is -50, and step 2 ends normally with the window
    1675..1575.  With no missing amount step 2 raises although the window
    and T0 are given by hand. *)
Lemma degenerate_interval_counterexample :
  (1600 - 1650 <=? 0)%float = true
  /\ analyze_phase_fractions default_args
       ["Temperature [K]"; "Amount of LIQUID [mol]"] inverted_table
     = ([PrintSolidus 1650 1600 (-50); PrintWindow 1675 (1600 - -50 / 1e10) 1575],
        Ok (mk_state inverted_table (mk_Range 1675 1575) (Some (1600 - -50 / 1e10)) false,
            1600 - -50 / 1e10))%float
  /\ analyze_phase_fractions manual_args
       ["Temperature [K]"; "Amount of LIQUID [mol]"] all_liquid_table
     = ([], Raise IndexError).
Proof. repeat split. Qed.

(** C5, as the script has it.  When a header is the amount of LIQUID and its
    column lacks a missing value (no solidus) or a value equal to 1 (no
    liquidus), step 2 raises IndexError, whatever the options, the manual
    window and T0 included, and the run ends there with nothing printed.
    When both bounds are found the step goes on whatever the sign of
    deltaT = liquidus - solidus: there is no test of it. *)
Theorem interval_bound_missing :
  (forall (UnivariateSpline : list float -> list float -> outcome Spline)
          (args : Args) (pre post : list string) (c : string)
          (data : ndarray) (col : list float),
      0 < List.length pre ->
      forallb (fun c' => negb (is_liquid c')) pre = true ->
      is_liquid c = true ->
      column (List.length pre) (deduplicate data) = Ok col ->
      no_bound col = true ->
      analyze_phase_fractions args (pre ++ c :: post) (deduplicate data)
      = ([], Raise IndexError)
      /\ main UnivariateSpline args (pre ++ c :: post) data = ([], Raise IndexError))
  /\ (forall (args : Args) (i : nat) (c : string) (st : interval_state) (sol liq : float),
        is_liquid c = true ->
        solidus (st_data st) i = Ok sol ->
        liquidus (st_data st) i = Ok liq ->
        exists st',
          analyze_phase args i c st = ([PrintSolidus sol liq (liq - sol)], Ok st')).
Proof.
  split.
  - intros U args pre post c data col Hlen Hpre Hc Hcol Hb.
    assert (H : analyze_phase_fractions args (pre ++ c :: post) (deduplicate data)
                = ([], Raise IndexError))
      by (now apply (analyze_phase_fractions_no_bound args pre post c _ col)).
    split; [exact H |]. unfold main. now rewrite H.
  - intros args i c st sol liq Hc Hs Hl. unfold is_liquid in Hc. unfold analyze_phase.
    destruct (parse_phase_fraction c) as [phase |]; [| discriminate]. rewrite Hc.
    destruct (args_phases args); simpl; rewrite Hs, Hl; simpl;
      destruct (args_manual args); simpl; eexists; reflexivity.
Qed.

(** A LIQUID column without a missing value under --manual, and the inverted
    table. *)
Lemma interval_bound_missing_witness :
  (analyze_phase_fractions manual_args
     ["Temperature [K]"; "Amount of LIQUID [mol]"] (deduplicate all_liquid_table)
   = ([], Raise IndexError)
   /\ main Scipy.UnivariateSpline manual_args
        ["Temperature [K]"; "Amount of LIQUID [mol]"] all_liquid_table
      = ([], Raise IndexError))
  /\ exists st',
       analyze_phase default_args 1 "Amount of LIQUID [mol]"
         (mk_state inverted_table (mk_Range 1600 1800) None false)
       = ([PrintSolidus 1650 1600 (1600 - 1650)], Ok st').
Proof.
  split.
  - apply (proj1 interval_bound_missing Scipy.UnivariateSpline manual_args
             ["Temperature [K]"] [] "Amount of LIQUID [mol]" all_liquid_table
             [0.5; 1]%float); [simpl; lia | reflexivity | reflexivity | reflexivity | reflexivity].
  - apply (proj2 interval_bound_missing default_args 1 "Amount of LIQUID [mol]"
             (mk_state inverted_table (mk_Range 1600 1800) None false)
             1650%float 1600%float); reflexivity.
Defined.

(** * Solidus and liquidus (step 2) *)

Lemma argwhere_from_app (p : float -> bool) (l1 l2 : list float) :
  forall k,
    argwhere_from p k (l1 ++ l2)
    = (argwhere_from p k l1 ++ argwhere_from p (k + List.length l1) l2)%list.
Proof.
  induction l1 as [| x l1 IH]; intros k; simpl.
  - now rewrite Nat.add_0_r.
  - rewrite IH, Nat.add_succ_comm. destruct (p x); reflexivity.
Qed.

Lemma argwhere_from_none (p : float -> bool) (l : list float) :
  forallb (fun x => negb (p x)) l = true -> forall k, argwhere_from p k l = [].
Proof.
  induction l as [| x l IH]; simpl; intros H k; [reflexivity |].
  apply andb_prop in H as [Hx Hl]. apply negb_true_iff in Hx. rewrite Hx. now apply IH.
Qed.

Lemma forallb_map {A B} (f : A -> B) (p : B -> bool) (l : list A) :
  forallb p (map f l) = forallb (fun x => p (f x)) l.
Proof. induction l as [| x l IH]; simpl; [reflexivity | now rewrite IH]. Qed.

Lemma last_error_snoc {A} (l : list A) (x : A) : last_error (l ++ [x]) = Some x.
Proof. unfold last_error. now rewrite rev_app_distr. Qed.

Lemma nth_temperatures (n : nat) (before after : list (list float)) (r : list float) :
  nth (List.length before) (temperatures (mk_array n (before ++ r :: after))) nan
  = cell r 0.
Proof.
  unfold temperatures. simpl. rewrite map_app. simpl.
  rewrite app_nth2; rewrite length_map; [| lia]. now rewrite Nat.sub_diag.
Qed.

Lemma column_split (n i : nat) (before after : list (list float)) (r : list float) :
  i < n ->
  column i (mk_array n (before ++ r :: after))
  = Ok (map (fun r' => cell r' i) before ++ cell r i :: map (fun r' => cell r' i) after)%list.
Proof.
  intros Hi. unfold column. simpl. apply Nat.ltb_lt in Hi. rewrite Hi.
  now rewrite map_app.
Qed.

Lemma solidus_last_missing (n i : nat) (before after : list (list float)) (r : list float) :
  i < n ->
  isnan (cell r i) = true ->
  forallb (fun r' => negb (isnan (cell r' i))) after = true ->
  solidus (mk_array n (before ++ r :: after)) i = Ok (cell r 0).
Proof.
  intros Hi Hr Hafter. unfold solidus. rewrite column_split by assumption. simpl.
  unfold argwhere. rewrite argwhere_from_app. simpl. rewrite Hr.
  rewrite (argwhere_from_none isnan (map (fun r' => cell r' i) after))
    by (rewrite forallb_map; exact Hafter).
  rewrite last_error_snoc. simpl. rewrite length_map. now rewrite nth_temperatures.
Qed.

Lemma liquidus_first_one (n i : nat) (before after : list (list float)) (r : list float) :
  i < n ->
  forallb (fun r' => negb (cell r' i =? 1)%float) before = true ->
  (cell r i =? 1)%float = true ->
  liquidus (mk_array n (before ++ r :: after)) i = Ok (cell r 0).
Proof.
  intros Hi Hbefore Hr. unfold liquidus. rewrite column_split by assumption. simpl.
  unfold argwhere. rewrite argwhere_from_app.
  rewrite (argwhere_from_none (fun x => (x =? 1)%float) (map (fun r' => cell r' i) before))
    by (rewrite forallb_map; exact Hbefore).
  simpl. rewrite Hr. simpl. rewrite length_map. now rewrite nth_temperatures.
Qed.

(** C2.  Over the deduplicated table, read in its row order (which is the
    order of ascending temperature), the solidus is the temperature of the
    last row whose value in the LIQUID amount column is missing, and the
    liquidus is the temperature of the first row whose value there equals 1.
    For the amounts NaN, NaN, 0.5, 1, 1 at 1600, 1650, 1680, 1700, 1750 the
    script reports solidus 1650, liquidus 1700 and deltaT 50. *)
Theorem solidus_liquidus_detection :
  (forall (n i : nat) (before after : list (list float)) (r : list float),
      i < n ->
      isnan (cell r i) = true ->
      forallb (fun r' => negb (isnan (cell r' i))) after = true ->
      solidus (mk_array n (before ++ r :: after)) i = Ok (cell r 0))
  /\ (forall (n i : nat) (before after : list (list float)) (r : list float),
        i < n ->
        forallb (fun r' => negb (cell r' i =? 1)%float) before = true ->
        (cell r i =? 1)%float = true ->
        liquidus (mk_array n (before ++ r :: after)) i = Ok (cell r 0))
  /\ solidus scenario_B 1 = Ok 1650%float
  /\ liquidus scenario_B 1 = Ok 1700%float
  /\ output (analyze_phase_fractions default_args
               ["Temperature [K]"; "Amount of LIQUID [mol]"] scenario_B)
     = [PrintSolidus 1650 1700 50; PrintWindow 1625 (1700 - 50 / 1e10) 1725]%float.
Proof.
  split; [exact solidus_last_missing | split; [exact liquidus_first_one |]].
  repeat split; vm_compute; reflexivity.
Qed.

(** Scenario B, split at its last missing row and at its first row of 1. *)
Lemma solidus_liquidus_detection_witness :
  solidus scenario_B 1 = Ok 1650%float /\ liquidus scenario_B 1 = Ok 1700%float.
Proof.
  split.
  - apply (proj1 solidus_liquidus_detection 2 1
             [[1600; nan]]%float [[1680; 0.5]; [1700; 1]; [1750; 1]]%float [1650; nan]%float);
      [lia | reflexivity | reflexivity].
  - apply (proj1 (proj2 solidus_liquidus_detection) 2 1
             [[1600; nan]; [1650; nan]; [1680; 0.5]]%float [[1750; 1]]%float [1700; 1]%float);
      [lia | reflexivity | reflexivity].
Defined.

(** * The base element (step 4) *)

Lemma mem_app_single (x y : string) (l : list string) :
  mem x (l ++ [y]) = mem x l || String.eqb x y.
Proof. unfold mem. rewrite existsb_app. simpl. now rewrite orb_false_r. Qed.

Lemma list_remove_absent (x : string) (l : list string) :
  mem x l = false -> list_remove x l = Raise ValueError.
Proof.
  induction l as [| y l IH]; simpl; [reflexivity |]. intros H.
  apply orb_false_iff in H as [Hy Hl]. rewrite String.eqb_sym, Hy.
  now rewrite (IH Hl).
Qed.

Lemma extract_column_outcome (args : Args) (data : ndarray) (i : nat) (c : string)
    (st : list string * list string) :
  not_of_base (args_base args) c = true ->
  mem (args_base args) (fst st) = false ->
  (exists st', extract_column args data i c st = ([], Ok st')
               /\ mem (args_base args) (fst st') = false)
  \/ (extract_column args data i c st = ([], Raise IndexError) /\ ncols data <= i).
Proof.
  unfold not_of_base, extract_column. destruct st as [elements phases]. simpl.
  intros Hc Hm.
  destruct (parse_element_content c) as [[elem phase] |].
  - apply negb_true_iff in Hc.
    assert (Hm' : mem (args_base args)
                    (if mem elem elements then elements else (elements ++ [elem])%list)
                  = false).
    { destruct (mem elem elements); [exact Hm |].
      rewrite mem_app_single, Hm, String.eqb_sym, Hc. reflexivity. }
    destruct (negb (mem phase phases) && negb (mem phase (args_skip_phases args))).
    + unfold column. destruct (i <? ncols data) eqn:Hi.
      * left. simpl.
        destruct (0 <? count_non_nan _); eexists; (split; [reflexivity | exact Hm']).
      * right. apply Nat.ltb_ge in Hi. split; [reflexivity | exact Hi].
    + left. eexists. split; [reflexivity | exact Hm'].
  - left. eexists. split; [reflexivity | exact Hm].
Qed.

Lemma extract_loop_outcome (args : Args) (data : ndarray) (columns : list string) :
  forallb (not_of_base (args_base args)) columns = true ->
  forall i st,
    mem (args_base args) (fst st) = false ->
    (exists st', for_enumerate (extract_column args data) i columns st = ([], Ok st')
                 /\ mem (args_base args) (fst st') = false)
    \/ (for_enumerate (extract_column args data) i columns st = ([], Raise IndexError)
        /\ ncols data < i + List.length columns).
Proof.
  induction columns as [| c columns IH]; simpl; intros H i st Hm.
  - left. exists st. split; [reflexivity | exact Hm].
  - apply andb_prop in H as [Hc Hcs].
    destruct (extract_column_outcome args data i c st Hc Hm) as [[st1 [H1 Hm1]] | [H1 Hi]].
    + rewrite (rbind_silent _ _ st1 H1).
      destruct (IH Hcs (S i) st1 Hm1) as [[st2 [H2 Hm2]] | [H2 Hi]].
      * left. exists st2. split; assumption.
      * right. split; [exact H2 | lia].
    + right. rewrite H1. split; [reflexivity | lia].
Qed.

Lemma extract_raises (args : Args) (data : ndarray) (columns : list string) :
  forallb (not_of_base (args_base args)) columns = true ->
  extract_phases_elements args columns data = ([], Raise ValueError)
  \/ (extract_phases_elements args columns data = ([], Raise IndexError)
      /\ ncols data < List.length columns).
Proof.
  intros H. unfold extract_phases_elements.
  destruct (extract_loop_outcome args data columns H 0 ([], []) eq_refl)
    as [[[elements phases] [H1 Hm]] | [H1 Hi]].
  - left. rewrite (rbind_silent _ _ _ H1). simpl in Hm.
    now rewrite (list_remove_absent _ _ Hm).
  - right. rewrite H1. split; [reflexivity | exact Hi].
Qed.

Lemma analyze_phase_output (args : Args) (i : nat) (c : string) (st : interval_state) :
  forallb interval_report (output (analyze_phase args i c st)) = true.
Proof.
  unfold analyze_phase.
  destruct (parse_phase_fraction c) as [phase |]; [| reflexivity].
  destruct (String.eqb phase "LIQUID"); [| reflexivity].
  destruct (solidus _ i); [| reflexivity]. simpl.
  destruct (liquidus _ i); [| reflexivity]. simpl.
  destruct (negb (args_manual args)); reflexivity.
Qed.

Lemma analyze_loop_output (args : Args) (columns : list string) :
  forall i st,
    forallb interval_report (output (for_enumerate (analyze_column args) i columns st))
    = true.
Proof.
  induction columns as [| c columns IH]; simpl; intros i st; [reflexivity |].
  apply output_rbind; [apply analyze_phase_output | intros st'; apply IH].
Qed.

Lemma analyze_phase_fractions_output (args : Args) (columns : list string) (data : ndarray) :
  forallb interval_report (output (analyze_phase_fractions args columns data)) = true.
Proof.
  unfold analyze_phase_fractions.
  apply output_rbind; [apply analyze_loop_output | intros st; reflexivity].
Qed.

Lemma analyze_column_ncols (args : Args) (i : nat) (c : string) (st st' : interval_state) :
  result (analyze_column args i c st) = Ok st' ->
  ncols (st_data st') = ncols (st_data st).
Proof.
  unfold analyze_column. intros H. apply analyze_phase_data in H. rewrite H.
  unfold convert_temperature.
  destruct (Re.findall1 Regex.temperature c) as [| u us]; [reflexivity |].
  destruct (mem "C" (u :: us)); reflexivity.
Qed.

Lemma analyze_loop_ncols (args : Args) (columns : list string) :
  forall i st st',
    result (for_enumerate (analyze_column args) i columns st) = Ok st' ->
    ncols (st_data st') = ncols (st_data st).
Proof.
  induction columns as [| c columns IH]; simpl; intros i st st' H.
  - now injection H as <-.
  - apply rbind_result in H as [st1 [H1 H2]].
    apply analyze_column_ncols in H1. apply IH in H2. congruence.
Qed.

Lemma analyze_phase_fractions_ncols (args : Args) (columns : list string)
    (data : ndarray) (st : interval_state) (T0 : float) :
  result (analyze_phase_fractions args columns data) = Ok (st, T0) ->
  ncols (st_data st) = ncols data.
Proof.
  unfold analyze_phase_fractions. intros H.
  apply rbind_result in H as [st1 [H1 H2]]. simpl in H2. injection H2 as <- _.
  now apply analyze_loop_ncols in H1.
Qed.

Lemma main_without_base (UnivariateSpline : list float -> list float -> outcome Spline)
    (args : Args) (columns : list string) (data : ndarray) :
  forallb (not_of_base (args_base args)) columns = true ->
  (exists e, result (main UnivariateSpline args columns data) = Raise e)
  /\ forallb interval_report (output (main UnivariateSpline args columns data)) = true
  /\ (forall st T0,
        result (analyze_phase_fractions args columns (deduplicate data)) = Ok (st, T0) ->
        List.length columns <= ncols data ->
        result (main UnivariateSpline args columns data) = Raise ValueError).
Proof.
  intros H. unfold main.
  pose proof (analyze_phase_fractions_output args columns (deduplicate data)) as Hout.
  destruct (analyze_phase_fractions args columns (deduplicate data))
    as [out [[st T0] | e]] eqn:H2.
  - pose proof (extract_raises args (filter_window (st_T st) (st_data st)) columns H) as H4.
    assert (Hn : ncols (st_data st) = ncols data).
    { apply (analyze_phase_fractions_ncols args columns (deduplicate data) st T0).
      now rewrite H2. }
    rewrite (rbind_ok _ _ out (st, T0) eq_refl).
    destruct H4 as [H4 | [H4 Hw]]; rewrite H4; simpl; rewrite app_nil_r.
    + split; [now exists ValueError | split; [exact Hout | reflexivity]].
    + split; [now exists IndexError | split; [exact Hout |]].
      intros st' T0' _ Hlen. simpl in Hw. lia.
  - simpl. split; [now exists e | split; [exact Hout | discriminate]].
Qed.

(** C10.  The run needs a column of the base element: if no header is a
    column of an element in a phase whose element is the configured base,
    step 4 raises before it prints, at [elements.remove] with ValueError (or
    earlier in its loop with IndexError, when the header has more fields than
    the table has columns); the run as a whole ends with an exception, having
    printed at most the lines of step 2 and so no element list, partition
    coefficient, freezing range or phase balance; and when step 2 succeeds
    on a table as wide as the header, the exception is the ValueError. *)
Theorem base_element_required :
  forall (UnivariateSpline : list float -> list float -> outcome Spline)
         (args : Args) (columns : list string) (data : ndarray),
    forallb (not_of_base (args_base args)) columns = true ->
    (forall window : ndarray,
        extract_phases_elements args columns window = ([], Raise ValueError)
        \/ (extract_phases_elements args columns window = ([], Raise IndexError)
            /\ ncols window < List.length columns))
    /\ (exists e, result (main UnivariateSpline args columns data) = Raise e)
    /\ forallb interval_report (output (main UnivariateSpline args columns data)) = true
    /\ (forall st T0,
          result (analyze_phase_fractions args columns (deduplicate data)) = Ok (st, T0) ->
          List.length columns <= ncols data ->
          result (main UnivariateSpline args columns data) = Raise ValueError).
Proof.
  intros U args columns data H. split.
  - intros window. now apply extract_raises.
  - now apply main_without_base.
Qed.

(** The nickel-base table: step 2 prints its two lines, step 4 raises. *)
Lemma base_element_required_witness :
  main Scipy.UnivariateSpline default_args nickel_columns nickel_table
  = ([PrintSolidus 1650 1700 50; PrintWindow 1625 (1700 - 50 / 1e10) 1725]%float,
     Raise ValueError)
  /\ (exists e,
        result (main Scipy.UnivariateSpline default_args nickel_columns nickel_table)
        = Raise e).
Proof.
  split; [reflexivity |].
  apply (base_element_required Scipy.UnivariateSpline default_args
           nickel_columns nickel_table); reflexivity.
Defined.

(** * The guard of the fit (step 7) *)

Lemma dict_get_set {V} (k : string) (v : V) (d : dict V) :
  dict_get k (dict_set k v d) = Some v.
Proof.
  induction d as [| [k' v'] d IH]; simpl.
  - now rewrite String.eqb_refl.
  - destruct (String.eqb k k') eqn:E; simpl.
    + now rewrite String.eqb_refl.
    + now rewrite E.
Qed.

Lemma dict_set2_get2 {V} (p k : string) (v : V) (d : dict (dict V)) (inner : dict V) :
  dict_get p d = Some inner ->
  exists d', dict_set2 p k v d = Ok d' /\ dict_get2 p k d' = Ok v.
Proof.
  intros H. unfold dict_set2, dict_get2. rewrite H. simpl.
  eexists. split; [reflexivity |]. rewrite dict_get_set. simpl. now rewrite dict_get_set.
Qed.

(** With one valid row the pair is not skipped: the routine is called on the
    one point, and its exception ends the run. *)
Lemma single_row_counterexample :
  extract_phases_elements default_args one_row_columns window_table
  = ([PrintElements ["Cr"; "Ni"; "Mo"]; PrintPhases ["LIQUID"; "FCC_A1"]],
     Ok (["Cr"; "Ni"; "Mo"], ["LIQUID"; "FCC_A1"]))
  /\ normalization one_row_columns window_table ["LIQUID"; "FCC_A1"] = ([], Ok window_sums)
  /\ count_true (map (fun x => (0 <? x)%float) [nan; 100; nan]%float) = 1
  /\ fit_column Scipy.UnivariateSpline default_args (1700 - 50 / 1e10) window_table
       ["LIQUID"; "FCC_A1"] window_sums 7 "Mass percent of Cr in FCC_A1" empty_tables
     = ([], Raise SplineError)
  /\ result (main Scipy.UnivariateSpline default_args one_row_columns one_row_table)
     = Raise SplineError.
Proof. repeat split. Qed.

(** C6, as the script has it.  For a column of an element other than the
    base in an active phase, the pair is skipped, with no entry and no
    output, exactly when no row has a positive phase sum.  With one valid
    row or more the spline routine is called on the valid rows: when it
    returns, the concentration and the slope at T0 are entered for the pair;
    when it raises, as it does on a single row, the exception ends the run. *)
Theorem fit_guard :
  forall (UnivariateSpline : list float -> list float -> outcome Spline)
         (args : Args) (T0 : float) (data : ndarray) (phases : list string)
         (sums : dict (list float)) (i : nat) (c elem phase : string)
         (C slopes : dict (dict float)) (Y s : list float) (Cp Sp : dict float),
    parse_element_content c = Some (elem, phase) ->
    String.eqb elem (args_base args) = false ->
    mem phase phases = true ->
    column i data = Ok Y ->
    dict_get phase sums = Some s ->
    dict_get phase C = Some Cp ->
    dict_get phase slopes = Some Sp ->
    let mask := map (fun x => (0 <? x)%float) s in
    let X := select mask (temperatures data) in
    let Y' := zip_with PrimFloat.div (select mask Y) (select mask s) in
    (count_true mask = 0 ->
       fit_column UnivariateSpline args T0 data phases sums i c (C, slopes)
       = ([], Ok (C, slopes)))
    /\ (0 < count_true mask ->
        forall spl, UnivariateSpline X Y' = Ok spl ->
        exists C' slopes',
          fit_column UnivariateSpline args T0 data phases sums i c (C, slopes)
          = ([PrintPartition elem phase (spl_call spl T0) (1 / spl_derivative spl T0)],
             Ok (C', slopes'))
          /\ dict_get2 phase elem C' = Ok (spl_call spl T0)
          /\ dict_get2 phase elem slopes' = Ok (1 / spl_derivative spl T0)%float)
    /\ (0 < count_true mask ->
        forall e, UnivariateSpline X Y' = Raise e ->
        fit_column UnivariateSpline args T0 data phases sums i c (C, slopes)
        = ([], Raise e)).
Proof.
  intros U args T0 data phases sums i c elem phase C slopes Y s Cp Sp
         Hc Hbase Hph HY Hs HCp HSp mask X Y'.
  assert (Hfit :
    fit_column U args T0 data phases sums i c (C, slopes)
    = if 0 <? count_true mask then
        spl <~ lift (U X Y') ;;
        let slope := (1 / spl_derivative spl T0)%float in
        slopes' <~ lift (dict_set2 phase elem slope slopes) ;;
        C' <~ lift (dict_set2 phase elem (spl_call spl T0) C) ;;
        _ <~ print (PrintPartition elem phase (spl_call spl T0) slope) ;;
        ret (C', slopes')
      else ret (C, slopes)).
  { unfold fit_column. rewrite Hc, Hbase, Hph, HY, Hs. cbn [orb negb of_option].
    now rewrite !rbind_lift_ok. }
  split; [| split].
  - intros H0. rewrite Hfit, H0. reflexivity.
  - intros Hpos spl Hspl. apply Nat.ltb_lt in Hpos. rewrite Hfit, Hpos, Hspl.
    destruct (dict_set2_get2 phase elem (1 / spl_derivative spl T0)%float slopes Sp HSp)
      as [slopes' [Hset1 Hget1]].
    destruct (dict_set2_get2 phase elem (spl_call spl T0) C Cp HCp)
      as [C' [Hset2 Hget2]].
    exists C', slopes'. simpl. rewrite Hset1. simpl. rewrite Hset2. simpl.
    repeat split; assumption.
  - intros Hpos e He. apply Nat.ltb_lt in Hpos. rewrite Hfit, Hpos, He. reflexivity.
Qed.

(** The three cases in the window of the one-row table: no valid row, three,
    and one. *)
Lemma fit_guard_witness :
  fit_column Scipy.UnivariateSpline default_args 1700 window_table
    ["LIQUID"; "FCC_A1"] zero_sums 7 "Mass percent of Cr in FCC_A1" empty_tables
  = ([], Ok empty_tables)
  /\ (exists spl C' slopes',
        Scipy.UnivariateSpline [1650; 1680; 1700]%float
          [28 / 100; 26 / 100; 25 / 100]%float = Ok spl
        /\ fit_column Scipy.UnivariateSpline default_args 1700 window_table
             ["LIQUID"; "FCC_A1"] window_sums 3 "Mass percent of Cr in LIQUID"
             empty_tables
           = ([PrintPartition "Cr" "LIQUID" (spl_call spl 1700)
                 (1 / spl_derivative spl 1700)], Ok (C', slopes'))
        /\ dict_get2 "LIQUID" "Cr" C' = Ok (spl_call spl 1700)
        /\ dict_get2 "LIQUID" "Cr" slopes' = Ok (1 / spl_derivative spl 1700)%float)
  /\ fit_column Scipy.UnivariateSpline default_args 1700 window_table
       ["LIQUID"; "FCC_A1"] window_sums 7 "Mass percent of Cr in FCC_A1"
       empty_tables
     = ([], Raise SplineError).
Proof.
  split; [| split].
  - apply (proj1 (fit_guard Scipy.UnivariateSpline default_args 1700 window_table
                    ["LIQUID"; "FCC_A1"] zero_sums 7
                    "Mass percent of Cr in FCC_A1" "Cr" "FCC_A1"
                    (fst empty_tables) (snd empty_tables)
                    [nan; 18; nan]%float [nan; 0; nan]%float [] []
                    eq_refl eq_refl eq_refl eq_refl eq_refl eq_refl eq_refl)).
    reflexivity.
  - destruct (Scipy.UnivariateSpline [1650; 1680; 1700]%float
                [28 / 100; 26 / 100; 25 / 100]%float) as [spl | e] eqn:E;
      [| vm_compute in E; discriminate E].
    exists spl.
    destruct (proj1 (proj2 (fit_guard Scipy.UnivariateSpline default_args 1700 window_table
                              ["LIQUID"; "FCC_A1"] window_sums 3
                              "Mass percent of Cr in LIQUID" "Cr" "LIQUID"
                              (fst empty_tables) (snd empty_tables)
                              [28; 26; 25]%float [100; 100; 100]%float [] []
                              eq_refl eq_refl eq_refl eq_refl eq_refl eq_refl eq_refl))
                (ltac:(vm_compute; lia)) spl E) as [C' [slopes' H]].
    exists C', slopes'. split; [reflexivity | exact H].
  - apply (proj2 (proj2 (fit_guard Scipy.UnivariateSpline default_args 1700 window_table
                           ["LIQUID"; "FCC_A1"] window_sums 7
                           "Mass percent of Cr in FCC_A1" "Cr" "FCC_A1"
                           (fst empty_tables) (snd empty_tables)
                           [nan; 18; nan]%float [nan; 100; nan]%float [] []
                           eq_refl eq_refl eq_refl eq_refl eq_refl eq_refl eq_refl)));
      [vm_compute; lia | reflexivity].
Defined.

(** * The freezing-range formulas (step 8) *)

Section FreezingRangeFacts.

Context {num : Type} (zero one : num) (add sub mul div : num -> num -> num).
Variables C slopes : dict (dict num).

Lemma sum_loop_gather (phase : string) (elements : list string) :
  forall sumL sumS,
    sum_loop add sub div C slopes phase elements sumL sumS
    = (es <- gather C slopes phase elements ;;
       Ok (fold_left add (map (fun '(mL, mS, CL, CS) => div (sub CS CL) mL) es) sumL,
           fold_left add (map (fun '(mL, mS, CL, CS) => div (sub CS CL) mS) es) sumS)).
Proof.
  induction elements as [| elem elements' IH]; intros sumL sumS; simpl.
  - reflexivity.
  - destruct (entries C slopes phase elem) as [[[[mL mS] CL] CS] | e]; simpl.
    + rewrite IH. destruct (gather C slopes phase elements'); reflexivity.
    + reflexivity.
Qed.

Lemma delta_loop_gather (phase : string) (elements : list string) (sumL sumS : num) :
  forall DeltaT1 DeltaT2 lines,
    ('(D1, D2, _) <- delta_loop one add sub mul div C slopes phase elements
                       sumL sumS DeltaT1 DeltaT2 lines ;; Ok (D1, D2))
    = (es <- gather C slopes phase elements ;;
       Ok (fold_left add
             (map (fun '(mL, mS, CL, CS) => div (mul (sub CS CL) (sub CS CL)) sumS) es)
             DeltaT1,
           fold_left add
             (map (fun '(mL, mS, CL, CS) =>
                     mul (mul CL (sub CS CL)) (sub (div one sumL) (div one sumS))) es)
             DeltaT2)).
Proof.
  induction elements as [| elem elements' IH]; intros DeltaT1 DeltaT2 lines; simpl.
  - reflexivity.
  - destruct (entries C slopes phase elem) as [[[[mL mS] CL] CS] | e]; simpl.
    + rewrite IH. destruct (gather C slopes phase elements'); reflexivity.
    + reflexivity.
Qed.

Lemma gather_nil (phase : string) (elements : list string) :
  gather C slopes phase elements = Ok [] -> elements = [].
Proof.
  destruct elements as [| elem elements']; [reflexivity |]. simpl.
  destruct (entries C slopes phase elem); simpl; [| discriminate].
  destruct (gather C slopes phase elements'); discriminate.
Qed.

Lemma freezing_range_spec (elements : list string) (phase : string) :
  headline (freezing_range zero one add sub mul div C slopes elements phase)
  = (es <- gather C slopes phase elements ;;
     match es with
     | [] => Raise ZeroDivisionError
     | _ :: _ => Ok (spec_K zero add sub div es,
                     spec_DeltaT1 zero add sub mul div es,
                     spec_DeltaT2 zero one add sub mul div es)
     end).
Proof.
  unfold freezing_range, headline. rewrite sum_loop_gather.
  destruct (gather C slopes phase elements) as [es |] eqn:Hes; simpl; [| reflexivity].
  match goal with
  | |- context [delta_loop ?o ?a ?s ?m ?d ?C ?sl ?p ?el ?sL ?sS ?d1 ?d2 ?ls] =>
      pose proof (delta_loop_gather p el sL sS d1 d2 ls) as Hd
  end.
  rewrite Hes in Hd. simpl in Hd.
  destruct (delta_loop _ _ _ _ _ _ _ _ _ _ _ _ _ _) as [[[D1 D2] ls] |]; simpl in Hd;
    [| discriminate].
  injection Hd as -> ->. simpl.
  destruct elements as [| elem elements'].
  - simpl in Hes. injection Hes as <-. reflexivity.
  - destruct es as [| e es'].
    + apply gather_nil in Hes. discriminate.
    + reflexivity.
Qed.

End FreezingRangeFacts.

(** C1.  For a phase other than LIQUID the script's two loops compute, over
    the elements in order, sumL as the sum of (CS-CL)/mL and sumS as the sum
    of (CS-CL)/mS, and report K = sumL/sumS, DeltaT1 as the sum of
    (CS-CL)^2/sumS and DeltaT2 as the sum of CL(CS-CL)(1/sumL - 1/sumS); this
    holds whatever the arithmetic.  For the single element with CL = 0.02,
    CS = 0.05, mL = 10, mS = -5 the exact values are K = -1/2, DeltaT1 = -3/20
    and DeltaT2 = 3/10; in binary64 the script gets K = -0.5 and the neighbours
    -0.15000000000000002 and 0.30000000000000004 of the other two, which are
    within 1e-15 of them. *)
Theorem freezing_range_formulas :
  (forall (num : Type) (zero one : num) (add sub mul div : num -> num -> num)
          (C slopes : dict (dict num)) (elements : list string) (phase : string),
      headline (freezing_range zero one add sub mul div C slopes elements phase)
      = (es <- gather C slopes phase elements ;;
         match es with
         | [] => Raise ZeroDivisionError
         | _ :: _ => Ok (spec_K zero add sub div es,
                         spec_DeltaT1 zero add sub mul div es,
                         spec_DeltaT2 zero one add sub mul div es)
         end))
  /\ match headline (freezing_range_Q (fst scenario_C_Q) (snd scenario_C_Q) ["Cr"] "BCC_A2") with
     | Ok (K, DeltaT1, DeltaT2) =>
         (K == - 1 # 2)%Q /\ (DeltaT1 == - 15 # 100)%Q /\ (DeltaT2 == 3 # 10)%Q
     | Raise _ => False
     end
  /\ headline (freezing_range_float (fst scenario_C_float) (snd scenario_C_float)
                 ["Cr"] "BCC_A2")
     = Ok (-0.5, -0.15000000000000002, 0.30000000000000004)%float
  /\ (PrimFloat.abs (-0.15000000000000002 - -0.15) <=? 1e-15)%float = true
  /\ (PrimFloat.abs (0.30000000000000004 - 0.3) <=? 1e-15)%float = true.
Proof.
  split; [| split; [| split; [| split]]].
  - intros. apply freezing_range_spec.
  - vm_compute. repeat split.
  - vm_compute. reflexivity.
  - vm_compute. reflexivity.
  - vm_compute. reflexivity.
Qed.

(** * Missing entries in the freezing-range computation (step 8) *)

Section MissingEntries.

Context {num : Type} (zero one : num) (add sub mul div : num -> num -> num).
Variables C slopes : dict (dict num).

Lemma dict_get2_raise (d : dict (dict num)) (p k : string) (e : exn) :
  dict_get2 p k d = Raise e -> e = KeyError.
Proof.
  unfold dict_get2. destruct (dict_get p d) as [inner |]; simpl.
  - destruct (dict_get k inner); simpl; congruence.
  - congruence.
Qed.

Lemma entries_lacking (phase elem : string) :
  lacks_entry C slopes phase elem = true ->
  entries C slopes phase elem = Raise KeyError.
Proof.
  unfold lacks_entry, has_entry, entries. intros H.
  destruct (dict_get2 "LIQUID" elem slopes) eqn:H1; simpl;
    [| now rewrite (dict_get2_raise _ _ _ _ H1)].
  destruct (dict_get2 phase elem slopes) eqn:H2; simpl;
    [| now rewrite (dict_get2_raise _ _ _ _ H2)].
  destruct (dict_get2 "LIQUID" elem C) eqn:H3; simpl;
    [| now rewrite (dict_get2_raise _ _ _ _ H3)].
  destruct (dict_get2 phase elem C) eqn:H4; simpl;
    [| now rewrite (dict_get2_raise _ _ _ _ H4)].
  discriminate.
Qed.

Lemma entries_raise (phase elem : string) (e : exn) :
  entries C slopes phase elem = Raise e -> e = KeyError.
Proof.
  unfold entries. intros H.
  destruct (dict_get2 "LIQUID" elem slopes) eqn:H1; simpl in H;
    [| injection H as <-; exact (dict_get2_raise _ _ _ _ H1)].
  destruct (dict_get2 phase elem slopes) eqn:H2; simpl in H;
    [| injection H as <-; exact (dict_get2_raise _ _ _ _ H2)].
  destruct (dict_get2 "LIQUID" elem C) eqn:H3; simpl in H;
    [| injection H as <-; exact (dict_get2_raise _ _ _ _ H3)].
  destruct (dict_get2 phase elem C) eqn:H4; simpl in H;
    [| injection H as <-; exact (dict_get2_raise _ _ _ _ H4)].
  discriminate.
Qed.

Lemma sum_loop_lacking (phase : string) (elements : list string) :
  existsb (lacks_entry C slopes phase) elements = true ->
  forall sumL sumS,
    sum_loop add sub div C slopes phase elements sumL sumS = Raise KeyError.
Proof.
  induction elements as [| elem elements' IH]; simpl; intros H sumL sumS.
  - discriminate.
  - destruct (entries C slopes phase elem) as [[[[mL mS] CL] CS] | e] eqn:He; simpl.
    + apply orb_prop in H as [H | H].
      * apply entries_lacking in H. congruence.
      * now apply IH.
    + now rewrite (entries_raise _ _ _ He).
Qed.

Lemma freezing_range_lacking (phase : string) (elements : list string) :
  existsb (lacks_entry C slopes phase) elements = true ->
  freezing_range zero one add sub mul div C slopes elements phase = Raise KeyError.
Proof.
  intros H. unfold freezing_range. now rewrite sum_loop_lacking.
Qed.

End MissingEntries.

(** Ni has no entry for BCC_A2: the phase raises KeyError, where leaving Ni
    out would have given the values over Cr alone. *)
Lemma missing_element_counterexample :
  lacks_entry (fst tables_without_Ni) (snd tables_without_Ni) "BCC_A2" "Ni" = true
  /\ freezing_phase default_args tables_without_Ni ["Cr"; "Ni"] "BCC_A2"
     = ([], Raise KeyError)
  /\ freezing_phase default_args tables_without_Ni ["Cr"] "BCC_A2"
     = ([PrintFreezing "BCC_A2" (-0.5) (-0.15000000000000002) 0.30000000000000004], Ok tt).
Proof. repeat split. Qed.

(** C7, as the script has it.  In the computation for a phase other than
    LIQUID, an element of the list without an entry for LIQUID or for that
    phase is not left out of the sums: the lookup raises KeyError, and nothing
    is printed for the phase.  Over an empty list of elements the computation
    raises ZeroDivisionError and reports no K. *)
Theorem freezing_range_missing_entry :
  (forall (args : Args) (C slopes : dict (dict float)) (elements : list string)
          (phase : string),
      String.eqb phase "LIQUID" = false ->
      existsb (lacks_entry C slopes phase) elements = true ->
      freezing_range_float C slopes elements phase = Raise KeyError
      /\ freezing_phase args (C, slopes) elements phase = ([], Raise KeyError))
  /\ (forall (args : Args) (C slopes : dict (dict float)) (phase : string),
        String.eqb phase "LIQUID" = false ->
        freezing_phase args (C, slopes) [] phase = ([], Raise ZeroDivisionError)).
Proof.
  split.
  - intros args C slopes elements phase Hp Hl.
    assert (H : freezing_range_float C slopes elements phase = Raise KeyError)
      by (apply freezing_range_lacking; exact Hl).
    split; [exact H |]. unfold freezing_phase. rewrite Hp, H. reflexivity.
  - intros args C slopes phase Hp. unfold freezing_phase. rewrite Hp. reflexivity.
Qed.

(** The tables without Ni, and an empty list of elements. *)
Lemma freezing_range_missing_entry_witness :
  (freezing_range_float (fst tables_without_Ni) (snd tables_without_Ni)
     ["Cr"; "Ni"] "BCC_A2" = Raise KeyError
   /\ freezing_phase default_args tables_without_Ni ["Cr"; "Ni"] "BCC_A2"
      = ([], Raise KeyError))
  /\ freezing_phase default_args tables_without_Ni [] "BCC_A2"
     = ([], Raise ZeroDivisionError).
Proof.
  split.
  - apply (proj1 freezing_range_missing_entry default_args
             (fst tables_without_Ni) (snd tables_without_Ni)); reflexivity.
  - apply (proj2 freezing_range_missing_entry default_args
             (fst tables_without_Ni) (snd tables_without_Ni)); reflexivity.
Defined.

(** * The Schaeffler estimate (step 9) *)

(** C8.  For an iron base the last line reports
    bcc_wt = 10/dist(21,12) * dist(100 Cr_eq, 100 Ni_eq), with
    dist(x,y) = (14 + 10/7 (x - 19) - y) 7 / sqrt(7^2 + 10^2); and a liquid
    composition whose equivalents are Cr_eq = 0.21 and Ni_eq = 0.12 is
    reported with bcc_wt = 10, exactly, in binary64. *)
Theorem schaeffler_calibration :
  (forall x y : float,
      bcc_dist x y
      = ((14 + 10 / 7 * (x - 19) - y) * 7 / PrimFloat.sqrt (7 * 7 + 10 * 10))%float)
  /\ (forall liquid : dict float,
        bcc_wt liquid
        = (10 / bcc_dist 21 12
           * bcc_dist (Cr_eq liquid * 100) (Ni_eq liquid * 100))%float)
  /\ (forall (args : Args) (liquid : dict float),
        args_base args = "Fe" ->
        Cr_eq liquid = 0.21%float ->
        Ni_eq liquid = 0.12%float ->
        bcc_wt liquid = 10%float
        /\ schaeffler args liquid = ([PrintSchaeffler 0.12 0.21 10], Ok tt)).
Proof.
  split; [reflexivity | split; [reflexivity |]].
  intros args liquid Hbase HCr HNi.
  assert (Hwt : bcc_wt liquid = 10%float).
  { unfold bcc_wt. rewrite HCr, HNi. vm_compute. reflexivity. }
  split; [exact Hwt |].
  unfold schaeffler. rewrite Hbase, Hwt, HCr, HNi. reflexivity.
Qed.

(** The composition Cr 0.21, Ni 0.12 with the default base. *)
Lemma schaeffler_calibration_witness :
  bcc_wt [("Cr", 0.21); ("Ni", 0.12)]%float = 10%float
  /\ schaeffler default_args [("Cr", 0.21); ("Ni", 0.12)]%float
     = ([PrintSchaeffler 0.12 0.21 10], Ok tt).
Proof.
  apply (proj2 (proj2 schaeffler_calibration) default_args
               [("Cr", 0.21); ("Ni", 0.12)]%float);
    vm_compute; reflexivity.
Defined.

(** * Deduplication (step 1) on any table *)

Lemma unique_insert_within (v : float) (k : nat) (gs : list group) :
  Forall (within k) gs -> Forall (within (S k)) (unique_insert v k gs).
Proof.
  unfold within. induction gs as [| g gs IH]; simpl; intros H.
  - constructor; [simpl; lia | constructor].
  - inversion H as [| g' gs' Hg Hgs]; subst.
    destruct (feq v (g_val g)).
    + constructor; [simpl; lia |].
      eapply Forall_impl; [| exact Hgs]. simpl. intros; lia.
    + destruct (flt v (g_val g)).
      * constructor; [simpl; lia |]. constructor; [lia |].
        eapply Forall_impl; [| exact Hgs]. simpl. intros; lia.
      * constructor; [lia | now apply IH].
Qed.

Lemma unique_from_within (T : list float) :
  forall (k : nat) (gs : list group),
    Forall (within k) gs -> Forall (within (k + List.length T)) (unique_from k T gs).
Proof.
  induction T as [| v T IH]; simpl; intros k gs H.
  - now rewrite Nat.add_0_r.
  - rewrite <- Nat.add_succ_comm. apply IH. now apply unique_insert_within.
Qed.

Lemma unique_insert_count (v : float) (k : nat) (gs : list group) :
  list_sum (map g_cnt (unique_insert v k gs)) = S (list_sum (map g_cnt gs)).
Proof.
  induction gs as [| g gs IH]; simpl; [reflexivity |].
  destruct (feq v (g_val g)); [reflexivity |].
  destruct (flt v (g_val g)); simpl; [lia |]. rewrite IH. lia.
Qed.

Lemma unique_from_count (T : list float) :
  forall (k : nat) (gs : list group),
    list_sum (map g_cnt (unique_from k T gs)) = list_sum (map g_cnt gs) + List.length T.
Proof.
  induction T as [| v T IH]; simpl; intros k gs; [lia |].
  rewrite IH, unique_insert_count. lia.
Qed.

Lemma groups_at_most (gs : list group) (n : nat) :
  Forall (within n) gs -> List.length gs <= list_sum (map g_cnt gs).
Proof.
  unfold within. induction gs as [| g gs IH]; simpl; intros H; [lia |].
  inversion H; subst. specialize (IH H3). lia.
Qed.

Lemma slice_length (ind cnt : nat) (rs : list (list float)) :
  ind + cnt <= List.length rs -> List.length (slice ind cnt rs) = cnt.
Proof. intros H. unfold slice. rewrite length_firstn, length_skipn. lia. Qed.

Lemma chosen_index_bound (a : ndarray) (g : group) :
  within (List.length (rows a)) g -> chosen_index a g < List.length (rows a).
Proof.
  unfold within, chosen_index. intros [Hc Hi].
  destruct (1 <? g_cnt g) eqn:E; [| lia].
  assert (Hlen : List.length (map count_non_nan (slice (g_ind g) (g_cnt g) (rows a)))
                 = g_cnt g) by (rewrite length_map; now apply slice_length).
  assert (argmax (map count_non_nan (slice (g_ind g) (g_cnt g) (rows a))) < g_cnt g).
  { rewrite <- Hlen at 2. apply argmax_bound. intros Hnil. rewrite Hnil in Hlen.
    simpl in Hlen. lia. }
  lia.
Qed.

(** On any table, sorted or not, [data[ind]] stays inside the table: every
    index the loop arrives at is the index of a row, so that the result is
    made of rows of the input, as many as [np.unique] found temperatures and
    no more than there were rows; the counts of [np.unique] add up to the
    number of rows, and the width is kept. *)
Theorem deduplicate_within_table :
  forall a : ndarray,
    Forall (fun g => chosen_index a g < List.length (rows a))
           (np_unique (temperatures a))
    /\ Forall (fun r => In r (rows a)) (rows (deduplicate a))
    /\ List.length (rows (deduplicate a)) = List.length (np_unique (temperatures a))
    /\ List.length (rows (deduplicate a)) <= List.length (rows a)
    /\ list_sum (map g_cnt (np_unique (temperatures a))) = List.length (rows a)
    /\ ncols (deduplicate a) = ncols a.
Proof.
  intros a.
  assert (Hw : Forall (within (List.length (rows a))) (np_unique (temperatures a))).
  { pose proof (unique_from_within (temperatures a) 0 [] (Forall_nil _)) as H.
    simpl in H. unfold temperatures in H at 1. now rewrite length_map in H. }
  assert (Hb : Forall (fun g => chosen_index a g < List.length (rows a))
                      (np_unique (temperatures a))).
  { eapply Forall_impl; [| exact Hw]. intros g. apply chosen_index_bound. }
  assert (Hsum : list_sum (map g_cnt (np_unique (temperatures a))) = List.length (rows a)).
  { unfold np_unique. rewrite unique_from_count. simpl.
    unfold temperatures. now rewrite length_map. }
  split; [exact Hb | split; [| split; [| split; [| split]]]].
  - unfold deduplicate. simpl. apply Forall_forall. intros r Hr.
    apply in_map_iff in Hr as [g [<- Hg]]. apply nth_In.
    rewrite Forall_forall in Hb. now apply Hb.
  - unfold deduplicate. simpl. now rewrite length_map.
  - unfold deduplicate. simpl. rewrite length_map, <- Hsum.
    now apply (groups_at_most _ (List.length (rows a))).
  - exact Hsum.
  - reflexivity.
Qed.

(** A table whose temperatures already ascend strictly is returned as it is. *)
Theorem deduplicate_ascending_unchanged :
  forall a : ndarray,
    ascending_groups [] (map (fun r => [r]) (rows a)) = true ->
    deduplicate a = a.
Proof.
  intros [n rs] H. simpl in H.
  assert (Hc : List.concat (map (fun r : list float => [r]) rs) = rs).
  { clear H. induction rs as [| r rs IH]; simpl; [reflexivity | now rewrite IH]. }
  assert (Hb : map best_row (map (fun r : list float => [r]) rs) = rs).
  { clear H Hc. induction rs as [| r rs IH]; simpl; [reflexivity |].
    rewrite IH. reflexivity. }
  pose proof (unique_from_groups _ 0 [] H) as Hu.
  pose proof (chosen_rows n _ [] (ascending_groups_nonempty _ [] H)) as Hch.
  simpl in Hu, Hch. rewrite Hc in Hu, Hch.
  unfold deduplicate, np_unique, temperatures. cbn [rows ncols]. f_equal.
  rewrite Hu, Hch. exact Hb.
Qed.

Lemma deduplicate_ascending_unchanged_witness :
  deduplicate scenario_B = scenario_B.
Proof. apply deduplicate_ascending_unchanged. reflexivity. Defined.

(** * The window and the reference temperature (step 2) *)

Lemma analyze_phase_fractions_unfold (args : Args) (columns : list string) (data : ndarray) :
  analyze_phase_fractions args columns data
  = (st <~ for_enumerate (analyze_column args) 0 columns
             (mk_state data (args_T args) (args_T0 args) false) ;;
     _ <~ print (PrintWindow (rmin (st_T st)) (final_T0 (st_T st) (st_T0 st))
                   (rmax (st_T st))) ;;
     ret (st, final_T0 (st_T st) (st_T0 st))).
Proof. reflexivity. Qed.

Lemma convert_temperature_window (c : string) (st : interval_state) :
  st_T (convert_temperature c st) = st_T st
  /\ st_T0 (convert_temperature c st) = st_T0 st.
Proof.
  unfold convert_temperature.
  destruct (Re.findall1 Regex.temperature c) as [| u us]; [now split |].
  destruct (mem "C" (u :: us)); now split.
Qed.

Lemma analyze_column_manual (args : Args) (i : nat) (c : string) (st st' : interval_state) :
  args_manual args = true ->
  result (analyze_column args i c st) = Ok st' ->
  st_T st' = st_T st /\ st_T0 st' = st_T0 st.
Proof.
  intros Hm. unfold analyze_column, analyze_phase.
  destruct (convert_temperature_window c st) as [HT HT0].
  destruct (parse_phase_fraction c) as [phase |];
    [| simpl; intros [= <-]; now split].
  rewrite Hm.
  destruct (String.eqb phase "LIQUID").
  - destruct (args_phases args); simpl;
      destruct (solidus _ i); simpl; try discriminate;
      destruct (liquidus _ i); simpl; try discriminate;
      intros [= <-]; now split.
  - destruct (args_phases args); simpl; intros [= <-]; now split.
Qed.

Lemma analyze_loop_manual (args : Args) (columns : list string) :
  args_manual args = true ->
  forall i st st',
    result (for_enumerate (analyze_column args) i columns st) = Ok st' ->
    st_T st' = st_T st /\ st_T0 st' = st_T0 st.
Proof.
  intros Hm. induction columns as [| c columns IH]; simpl; intros i st st' H.
  - injection H as <-. now split.
  - apply rbind_result in H as [st1 [H1 H2]].
    apply (analyze_column_manual args i c st st1 Hm) in H1 as [HT HT0].
    apply IH in H2 as [HT' HT0']. split; congruence.
Qed.

Lemma output_rbind_print {A} (x : run A) (f : A -> event) (g : A -> float) (a : A) :
  result x = Ok a ->
  output (y <~ x ;; _ <~ print (f y) ;; ret (y, g y)) = (output x ++ [f a])%list
  /\ result (y <~ x ;; _ <~ print (f y) ;; ret (y, g y)) = Ok (a, g a).
Proof.
  destruct x as [out [a' | e]]; simpl; [| discriminate]. intros [= ->]. now split.
Qed.

(** With [--manual] step 2 leaves the window and the reference temperature
    to the user: after it [args.T] is the window of the command line, and
    [args.T0] is the one of the command line or, without one, the middle of
    that window; the last line printed reports them. *)
Theorem manual_window_kept :
  forall (args : Args) (columns : list string) (data : ndarray)
         (st : interval_state) (T0 : float),
    args_manual args = true ->
    result (analyze_phase_fractions args columns data) = Ok (st, T0) ->
    st_T st = args_T args
    /\ st_T0 st = args_T0 args
    /\ T0 = final_T0 (args_T args) (args_T0 args)
    /\ exists out,
         output (analyze_phase_fractions args columns data)
         = (out ++ [PrintWindow (rmin (args_T args)) T0 (rmax (args_T args))])%list.
Proof.
  intros args columns data st T0 Hm H.
  rewrite analyze_phase_fractions_unfold in *.
  destruct (rbind_result _ _ _ H) as [st1 [H1 H2]].
  destruct (analyze_loop_manual args columns Hm _ _ _ H1) as [HT HT0]. simpl in HT, HT0.
  destruct (output_rbind_print _
              (fun y => PrintWindow (rmin (st_T y)) (final_T0 (st_T y) (st_T0 y))
                          (rmax (st_T y)))
              (fun y => final_T0 (st_T y) (st_T0 y)) st1 H1) as [Ho Hr].
  rewrite Hr in H. injection H as <- <-. rewrite Ho, HT, HT0.
  repeat split; try assumption. eexists. reflexivity.
Qed.

Lemma manual_window_kept_witness :
  final_T0 (mk_Range 1500 1700) (Some 1600%float) = 1600%float
  /\ exists out,
       output (analyze_phase_fractions manual_args
                 ["Temperature [K]"; "Amount of LIQUID [mol]"] scenario_B)
       = (out ++ [PrintWindow 1500 1600 1700])%list.
Proof.
  split; [reflexivity |].
  apply (manual_window_kept manual_args ["Temperature [K]"; "Amount of LIQUID [mol]"]
           scenario_B (mk_state scenario_B (mk_Range 1500 1700) (Some 1600%float) false)
           1600%float); reflexivity.
Defined.

Lemma analyze_column_quiet (args : Args) (k : nat) (c : string) (st : interval_state) :
  is_liquid c = false ->
  exists st',
    analyze_column args k c st = ([], Ok st')
    /\ st_T st' = st_T st /\ st_T0 st' = st_T0 st
    /\ (kelvin c = true -> st_data st' = st_data st).
Proof.
  unfold is_liquid, analyze_column, analyze_phase. intros H.
  destruct (convert_temperature_window c st) as [HT HT0].
  assert (Hd : kelvin c = true -> st_data (convert_temperature c st) = st_data st).
  { unfold kelvin, convert_temperature. intros Hk. apply negb_true_iff in Hk.
    destruct (Re.findall1 Regex.temperature c) as [| u us]; [reflexivity |].
    now rewrite Hk. }
  destruct (parse_phase_fraction c) as [phase |].
  - rewrite H. destruct (args_phases args); eexists; (split; [reflexivity |]);
      simpl; repeat split; assumption.
  - eexists. split; [reflexivity |]. repeat split; assumption.
Qed.

Lemma analyze_loop_quiet (args : Args) (columns : list string) :
  forallb (fun c => negb (is_liquid c)) columns = true ->
  forall k st,
  exists st',
    for_enumerate (analyze_column args) k columns st = ([], Ok st')
    /\ st_T st' = st_T st /\ st_T0 st' = st_T0 st
    /\ (forallb kelvin columns = true -> st_data st' = st_data st).
Proof.
  induction columns as [| c columns IH]; simpl; intros H k st.
  - exists st. repeat split.
  - apply andb_prop in H as [Hc Hcs]. apply negb_true_iff in Hc.
    destruct (analyze_column_quiet args k c st Hc) as [st1 [H1 [HT [HT0 Hd]]]].
    destruct (IH Hcs (S k) st1) as [st2 [H2 [HT' [HT0' Hd']]]].
    exists st2. rewrite (rbind_silent _ _ st1 H1).
    repeat split; try congruence.
    intros Hk. apply andb_prop in Hk as [Hk1 Hk2].
    rewrite (Hd' Hk2). now apply Hd.
Qed.

(** Without a column of the amount of LIQUID step 2 finds no interval: it
    prints the window line only, the window is the one of the command line
    (by default 1600..1800), and the reference temperature is the one of the
    command line or, without one, the middle of the window. *)
Theorem no_liquid_column :
  forall (args : Args) (columns : list string) (data : ndarray),
    forallb (fun c => negb (is_liquid c)) columns = true ->
    exists st,
      analyze_phase_fractions args columns data
      = ([PrintWindow (rmin (args_T args)) (final_T0 (args_T args) (args_T0 args))
            (rmax (args_T args))],
         Ok (st, final_T0 (args_T args) (args_T0 args)))
      /\ st_T st = args_T args /\ st_T0 st = args_T0 args.
Proof.
  intros args columns data H. rewrite analyze_phase_fractions_unfold.
  destruct (analyze_loop_quiet args columns H 0
              (mk_state data (args_T args) (args_T0 args) false))
    as [st [Hl [HT [HT0 _]]]].
  simpl in HT, HT0. exists st. rewrite (rbind_silent _ _ st Hl), HT, HT0.
  repeat split.
Qed.

Lemma no_liquid_column_witness :
  exists st,
    analyze_phase_fractions default_args
      ["Temperature [K]"; "Mass percent of Fe in FCC_A1"] scenario_B
    = ([PrintWindow 1600 1700 1800], Ok (st, 1700%float)).
Proof.
  destruct (no_liquid_column default_args
              ["Temperature [K]"; "Mass percent of Fe in FCC_A1"] scenario_B eq_refl)
    as [st [H _]].
  exists st. exact H.
Defined.

(** The automatic window.  For a table in kelvin with one LIQUID amount
    column in which both bounds are found, and without [--manual], step 2
    prints the solidus line and the window line, sets the window to
    solidus - tail deltaT .. liquidus + tail deltaT, and takes as reference
    temperature the one of the command line or, without one,
    liquidus - deltaT/1e10. *)
Theorem automatic_window :
  forall (args : Args) (pre post : list string) (c : string) (data : ndarray)
         (sol liq : float),
    args_manual args = false ->
    forallb (fun c' => negb (is_liquid c')) pre = true ->
    forallb (fun c' => negb (is_liquid c')) post = true ->
    forallb kelvin (pre ++ [c]) = true ->
    is_liquid c = true ->
    solidus data (List.length pre) = Ok sol ->
    liquidus data (List.length pre) = Ok liq ->
    let deltaT := (liq - sol)%float in
    let T := mk_Range (sol - deltaT * args_tail args)%float
                      (liq + deltaT * args_tail args)%float in
    let T0 := final_T0 T (if falsy (args_T0 args)
                          then Some (liq - deltaT / 1e10)%float
                          else args_T0 args) in
    exists st,
      analyze_phase_fractions args (pre ++ c :: post) data
      = ([PrintSolidus sol liq deltaT; PrintWindow (rmin T) T0 (rmax T)], Ok (st, T0))
      /\ st_T st = T.
Proof.
  intros args pre post c data sol liq Hm Hpre Hpost Hk Hc Hs Hl deltaT T T0.
  rewrite forallb_app in Hk. apply andb_prop in Hk as [Hkpre Hkc].
  simpl in Hkc. rewrite andb_true_r in Hkc.
  rewrite analyze_phase_fractions_unfold.
  destruct (analyze_loop_quiet args pre Hpre 0
              (mk_state data (args_T args) (args_T0 args) false))
    as [st1 [H1 [HT1 [HT01 Hd1]]]].
  specialize (Hd1 Hkpre). simpl in HT1, HT01, Hd1.
  rewrite (for_enumerate_app _ _ _ _ _ _ H1). cbn [for_enumerate Nat.add].
  assert (Hcol : exists st2,
    analyze_column args (List.length pre) c st1
    = ([PrintSolidus sol liq deltaT], Ok st2)
    /\ st_T st2 = T
    /\ st_T0 st2 = (if falsy (args_T0 args)
                    then Some (liq - deltaT / 1e10)%float else args_T0 args)).
  { unfold analyze_column, analyze_phase.
    assert (Hconv : convert_temperature c st1 = st1).
    { unfold kelvin in Hkc. apply negb_true_iff in Hkc. unfold convert_temperature.
      destruct (Re.findall1 Regex.temperature c) as [| u us]; [reflexivity |].
      now rewrite Hkc. }
    rewrite Hconv. unfold is_liquid in Hc.
    destruct (parse_phase_fraction c) as [phase |]; [| discriminate].
    rewrite Hc, Hm.
    destruct (args_phases args); simpl; rewrite Hd1, Hs, Hl; simpl;
      eexists; (split; [reflexivity |]); simpl; rewrite HT01; split; reflexivity. }
  destruct Hcol as [st2 [H2 [HT2 HT02]]].
  destruct (analyze_loop_quiet args post Hpost (S (List.length pre)) st2)
    as [st3 [H3 [HT3 [HT03 _]]]].
  exists st3. rewrite H2. cbn [rbind]. rewrite H3. cbn [rbind print ret app].
  rewrite HT3, HT03, HT2, HT02. split; reflexivity.
Qed.

Lemma automatic_window_witness :
  exists st,
    analyze_phase_fractions default_args
      ["Temperature [K]"; "Amount of LIQUID [mol]"; "Amount of FCC_A1 [mol]"] scenario_B
    = ([PrintSolidus 1650 1700 50; PrintWindow 1625 (1700 - 50 / 1e10) 1725], Ok (st, 1700 - 50 / 1e10))%float.
Proof.
  destruct (automatic_window default_args ["Temperature [K]"] ["Amount of FCC_A1 [mol]"]
              "Amount of LIQUID [mol]" scenario_B 1650 1700
              eq_refl eq_refl eq_refl eq_refl eq_refl eq_refl eq_refl) as [st [H _]].
  exists st. exact H.
Defined.

(** * Elements and phases (step 4) *)

Lemma mem_In (s : string) (l : list string) : mem s l = true <-> In s l.
Proof.
  unfold mem. rewrite existsb_exists. split.
  - intros [x [Hx He]]. apply String.eqb_eq in He. now subst.
  - intros H. exists s. split; [exact H | apply String.eqb_refl].
Qed.

Lemma mem_not_In (s : string) (l : list string) : mem s l = false <-> ~ In s l.
Proof.
  rewrite <- mem_In. destruct (mem s l); split; congruence.
Qed.

Lemma list_remove_spec (x : string) (l : list string) :
  forall l',
    list_remove x l = Ok l' ->
    NoDup l ->
    NoDup l' /\ ~ In x l' /\ In x l /\ (forall y, In y l' <-> In y l /\ y <> x).
Proof.
  induction l as [| y l IH]; simpl; intros l' H Hnd; [discriminate |].
  inversion Hnd as [| y' l0 Hy Hl]; subst.
  destruct (String.eqb y x) eqn:E.
  - apply String.eqb_eq in E. subst y. injection H as <-.
    split; [exact Hl | split; [exact Hy | split; [now left |]]].
    intros z. split.
    + intros Hz. split; [now right | intros ->; contradiction].
    + intros [[-> | Hz] Hne]; [congruence | exact Hz].
  - apply String.eqb_neq in E.
    destruct (list_remove x l) as [l'' |] eqn:Hr; simpl in H; [| discriminate].
    injection H as <-.
    destruct (IH l'' eq_refl Hl) as [Hnd' [Hx [Hin Hiff]]].
    split; [| split; [| split; [now right |]]].
    + constructor; [| exact Hnd']. intros Hy'. apply Hiff in Hy' as [Hy' _]. contradiction.
    + intros [-> | Hx']; [congruence | contradiction].
    + intros z. split.
      * intros [<- | Hz]; [split; [now left | congruence] |].
        apply Hiff in Hz as [Hz Hne]. split; [now right | exact Hne].
      * intros [[<- | Hz] Hne]; [now left | right; apply Hiff; now split].
Qed.

Lemma list_remove_present (x : string) (l : list string) :
  In x l -> exists l', list_remove x l = Ok l'.
Proof.
  induction l as [| y l IH]; simpl; [contradiction |]. intros H.
  destruct (String.eqb y x) eqn:E; [eexists; reflexivity |].
  apply String.eqb_neq in E. destruct H as [-> | H]; [congruence |].
  destruct (IH H) as [l' ->]. eexists. reflexivity.
Qed.

(** What one turn of the loop of step 4 does to the two lists. *)
Lemma extract_column_cases (args : Args) (data : ndarray) (i : nat) (c : string)
    (elements phases elements' phases' : list string) :
  result (extract_column args data i c (elements, phases)) = Ok (elements', phases') ->
  match parse_element_content c with
  | None => elements' = elements /\ phases' = phases
  | Some (elem, phase) =>
      elements' = (if mem elem elements then elements else (elements ++ [elem])%list)
      /\ (phases' = phases
          \/ (phases' = (phases ++ [phase])%list
              /\ mem phase phases = false
              /\ mem phase (args_skip_phases args) = false))
  end.
Proof.
  unfold extract_column.
  destruct (parse_element_content c) as [[elem phase] |];
    [| simpl; intros [= <- <-]; now split].
  destruct (mem phase phases) eqn:Hp; simpl.
  - intros [= <- <-]. split; [reflexivity | now left].
  - destruct (mem phase (args_skip_phases args)) eqn:Hs; simpl.
    + intros [= <- <-]. split; [reflexivity | now left].
    + destruct (column i data) as [col |]; simpl; [| discriminate].
      destruct (0 <? count_non_nan col); simpl; intros [= <- <-];
        (split; [reflexivity |]); [right | left]; auto.
Qed.

Lemma extract_column_total (args : Args) (data : ndarray) (i : nat) (c : string)
    (st : list string * list string) :
  i < ncols data -> exists st', extract_column args data i c st = ([], Ok st').
Proof.
  intros Hi. unfold extract_column. destruct st as [elements phases].
  destruct (parse_element_content c) as [[elem phase] |]; [| eexists; reflexivity].
  destruct (negb (mem phase phases) && negb (mem phase (args_skip_phases args)));
    [| eexists; reflexivity].
  unfold column. apply Nat.ltb_lt in Hi. rewrite Hi. simpl.
  destruct (0 <? count_non_nan _); eexists; reflexivity.
Qed.

Lemma extract_loop_total (args : Args) (data : ndarray) (columns : list string) :
  forall i st,
    i + List.length columns <= ncols data ->
    exists st', for_enumerate (extract_column args data) i columns st = ([], Ok st').
Proof.
  induction columns as [| c columns IH]; simpl; intros i st H.
  - eexists. reflexivity.
  - destruct (extract_column_total args data i c st) as [st1 H1]; [lia |].
    destruct (IH (S i) st1) as [st2 H2]; [lia |].
    exists st2. now rewrite (rbind_silent _ _ st1 H1).
Qed.

(** The two lists after the loop, from the two lists before it. *)
Lemma extract_loop_spec (args : Args) (data : ndarray) (columns : list string) :
  forall i elements phases elements' phases',
    result (for_enumerate (extract_column args data) i columns (elements, phases))
    = Ok (elements', phases') ->
    NoDup elements -> NoDup phases ->
    Forall (fun p => mem p (args_skip_phases args) = false) phases ->
    NoDup elements' /\ NoDup phases'
    /\ Forall (fun p => mem p (args_skip_phases args) = false) phases'
    /\ (forall e, In e elements' <->
                  In e elements
                  \/ exists c p, In c columns /\ parse_element_content c = Some (e, p))
    /\ (forall p, In p phases' ->
                  In p phases
                  \/ exists c e, In c columns /\ parse_element_content c = Some (e, p)).
Proof.
  induction columns as [| c columns IH]; simpl;
    intros i elements phases elements' phases' H Hne Hnp Hs.
  - injection H as <- <-. repeat split; auto.
    intros [He | [c [p [[] _]]]]. exact He.
  - apply rbind_result in H as [[el1 ph1] [H1 H2]].
    apply extract_column_cases in H1.
    assert (Hstep : NoDup el1 /\ NoDup ph1
                    /\ Forall (fun p => mem p (args_skip_phases args) = false) ph1
                    /\ (forall e, In e el1 <->
                                  In e elements
                                  \/ exists p, parse_element_content c = Some (e, p))
                    /\ (forall p, In p ph1 ->
                                  In p phases
                                  \/ exists e, parse_element_content c = Some (e, p))).
    { destruct (parse_element_content c) as [[elem phase] |].
      - destruct H1 as [-> Hph]. split; [| split; [| split; [| split]]].
        + destruct (mem elem elements) eqn:E; [exact Hne |].
          apply mem_not_In in E. apply NoDup_app; [exact Hne | | ].
          * constructor; [intros [] | constructor].
          * intros x Hx [<- | []]. contradiction.
        + destruct Hph as [-> | [-> [Hm _]]]; [exact Hnp |].
          apply mem_not_In in Hm. apply NoDup_app; [exact Hnp | | ].
          * constructor; [intros [] | constructor].
          * intros x Hx [<- | []]. contradiction.
        + destruct Hph as [-> | [-> [_ Hsk]]]; [exact Hs |].
          apply Forall_app. split; [exact Hs | constructor; [exact Hsk | constructor]].
        + intros e. destruct (mem elem elements) eqn:E.
          * apply mem_In in E. split; [now left |].
            intros [He | [p [= <- _]]]; assumption.
          * rewrite in_app_iff. simpl. split.
            -- intros [He | [<- | []]]; [now left | right; now exists phase].
            -- intros [He | [p [= <- _]]]; [now left | right; now left].
        + intros p Hp. destruct Hph as [-> | [-> _]]; [now left |].
          apply in_app_iff in Hp as [Hp | [<- | []]]; [now left | right; now exists elem].
      - destruct H1 as [-> ->]. repeat split; auto.
        intros [He | [p [=]]]. exact He. }
    destruct Hstep as [Hne1 [Hnp1 [Hs1 [He1 Hp1]]]].
    destruct (IH _ _ _ _ _ H2 Hne1 Hnp1 Hs1) as [Hne2 [Hnp2 [Hs2 [He2 Hp2]]]].
    repeat split; try assumption.
    + intros He. apply He2 in He as [He | [c' [p [Hc' Hpc]]]].
      * apply He1 in He as [He | [p Hpc]]; [now left |].
        right. exists c, p. split; [now left | exact Hpc].
      * right. exists c', p. split; [now right | exact Hpc].
    + intros [He | [c' [p [[<- | Hc'] Hpc]]]]; apply He2.
      * left. apply He1. now left.
      * left. apply He1. right. now exists p.
      * right. now exists c', p.
    + intros p Hp. apply Hp2 in Hp as [Hp | [c' [e [Hc' Hpc]]]].
      * apply Hp1 in Hp as [Hp | [e Hpc]]; [now left |].
        right. exists c, e. split; [now left | exact Hpc].
      * right. exists c', e. split; [now right | exact Hpc].
Qed.

Lemma for_enumerate_silent {St} (body : nat -> string -> St -> run St) :
  (forall i c st, output (body i c st) = []) ->
  forall columns i st, output (for_enumerate body i columns st) = [].
Proof.
  intros Hb. induction columns as [| c columns IH]; simpl; intros i st; [reflexivity |].
  specialize (Hb i c st). destruct (body i c st) as [out [st1 | e]]; simpl in *.
  - specialize (IH (S i) st1).
    destruct (for_enumerate body (S i) columns st1) as [out' r]. simpl in *.
    now rewrite Hb, IH.
  - exact Hb.
Qed.

Lemma extract_loop_silent (args : Args) (data : ndarray) (columns : list string) :
  forall i st, output (for_enumerate (extract_column args data) i columns st) = [].
Proof.
  apply for_enumerate_silent. intros i c [elements phases]. unfold extract_column.
  destruct (parse_element_content c) as [[elem phase] |]; [| reflexivity].
  destruct (negb (mem phase phases) && negb (mem phase (args_skip_phases args)));
    [| reflexivity].
  destruct (column i data) as [col |]; [| reflexivity]. simpl.
  destruct (0 <? count_non_nan col); reflexivity.
Qed.

Lemma extract_result :
  forall (args : Args) (columns : list string) (data : ndarray)
         (elements phases : list string),
    result (extract_phases_elements args columns data) = Ok (elements, phases) ->
    output (extract_phases_elements args columns data)
    = [PrintElements elements; PrintPhases phases]
    /\ NoDup elements /\ NoDup phases
    /\ (forall e, In e elements <->
                  e <> args_base args
                  /\ exists c p, In c columns /\ parse_element_content c = Some (e, p))
    /\ (forall p, In p phases ->
                  mem p (args_skip_phases args) = false
                  /\ exists c e, In c columns /\ parse_element_content c = Some (e, p)).
Proof.
  intros args columns data elements phases H.
  unfold extract_phases_elements in *.
  destruct (for_enumerate (extract_column args data) 0 columns ([], []))
    as [out [[el ph] | e]] eqn:Hloop; [| discriminate].
  destruct (extract_loop_spec args data columns 0 [] [] el ph)
    as [Hne [Hnp [Hs [He Hp]]]];
    [now rewrite Hloop | constructor | constructor | constructor |].
  assert (Hout : out = []).
  { pose proof (extract_loop_silent args data columns 0 ([], [])) as Ho.
    now rewrite Hloop in Ho. }
  subst out. simpl in H |- *.
  destruct (list_remove (args_base args) el) as [el' |] eqn:Hr; simpl in H |- *;
    [| discriminate].
  injection H as <- <-.
  destruct (list_remove_spec _ _ _ Hr Hne) as [Hnd' [Hnb [_ Hiff]]].
  split; [reflexivity | split; [exact Hnd' | split; [exact Hnp | split]]].
  - intros e. rewrite Hiff, He. split.
    + intros [[[] | Hc] Hneq]. now split.
    + intros [Hneq Hc]. split; [now right | exact Hneq].
  - intros p Hin. split.
    + rewrite Forall_forall in Hs. now apply Hs.
    + destruct (Hp p Hin) as [[] | Hc]. exact Hc.
Qed.

(** The lists of step 4.  When the step returns, it has printed the two
    lists; no element and no phase occurs twice; the elements are the
    elements of the element columns of the header except the base; every
    phase is the phase of an element column, and none is a skipped phase. *)
Theorem extract_lists :
  forall (args : Args) (columns : list string) (data : ndarray)
         (elements phases : list string),
    result (extract_phases_elements args columns data) = Ok (elements, phases) ->
    output (extract_phases_elements args columns data)
    = [PrintElements elements; PrintPhases phases]
    /\ NoDup elements /\ NoDup phases
    /\ (forall e, In e elements <->
                  e <> args_base args
                  /\ exists c p, In c columns /\ parse_element_content c = Some (e, p))
    /\ (forall p, In p phases ->
                  mem p (args_skip_phases args) = false
                  /\ exists c e, In c columns /\ parse_element_content c = Some (e, p)).
Proof. exact extract_result. Qed.

Lemma extract_lists_witness :
  output (extract_phases_elements default_args one_row_columns window_table)
  = [PrintElements ["Cr"; "Ni"; "Mo"]; PrintPhases ["LIQUID"; "FCC_A1"]]
  /\ NoDup ["Cr"; "Ni"; "Mo"].
Proof.
  destruct (extract_lists default_args one_row_columns window_table
              ["Cr"; "Ni"; "Mo"] ["LIQUID"; "FCC_A1"] eq_refl) as [H [Hnd _]].
  split; [exact H | exact Hnd].
Defined.

(** The converse of the need of a base column: when some header is a column
    of the base element and the header has no more fields than the table has
    columns, step 4 returns, having printed its two lines. *)
Theorem extract_returns :
  forall (args : Args) (columns : list string) (data : ndarray),
    existsb (is_base_column (args_base args)) columns = true ->
    List.length columns <= ncols data ->
    exists elements phases,
      extract_phases_elements args columns data
      = ([PrintElements elements; PrintPhases phases], Ok (elements, phases)).
Proof.
  intros args columns data Hb Hw. unfold extract_phases_elements.
  destruct (extract_loop_total args data columns 0 ([], [])) as [[el ph] Hloop];
    [simpl; lia |].
  destruct (extract_loop_spec args data columns 0 [] [] el ph)
    as [_ [_ [_ [He _]]]];
    [now rewrite Hloop | constructor | constructor | constructor |].
  assert (Hin : In (args_base args) el).
  { apply existsb_exists in Hb as [c [Hc Hbc]]. unfold is_base_column in Hbc.
    destruct (parse_element_content c) as [[elem phase] |] eqn:Hp; [| discriminate].
    apply String.eqb_eq in Hbc. subst elem. apply He. right. now exists c, phase. }
  destruct (list_remove_present _ _ Hin) as [el' Hr].
  exists el', ph. rewrite (rbind_silent _ _ _ Hloop). simpl. rewrite Hr. reflexivity.
Qed.

Lemma extract_returns_witness :
  exists elements phases,
    extract_phases_elements default_args one_row_columns window_table
    = ([PrintElements elements; PrintPhases phases], Ok (elements, phases)).
Proof.
  apply extract_returns; [reflexivity | simpl; lia].
Defined.

(** * The normalization factors (step 5) *)

Lemma dict_get_set_other {V} (k k' : string) (v : V) (d : dict V) :
  String.eqb k k' = false -> dict_get k (dict_set k' v d) = dict_get k d.
Proof.
  intros Hk. induction d as [| [k0 v0] d IH]; simpl.
  - now rewrite Hk.
  - destruct (String.eqb k' k0) eqn:E; simpl.
    + apply String.eqb_eq in E. subst k0. now rewrite Hk.
    + now rewrite IH.
Qed.

Lemma dict_of_keys_get {V} (p : string) (v : V) (keys : list string) :
  dict_get p (dict_of_keys keys v) = if mem p keys then Some v else None.
Proof.
  unfold dict_of_keys.
  assert (H : forall d0,
             dict_get p (fold_left (fun d k => dict_set k v d) keys d0)
             = if mem p keys then Some v else dict_get p d0).
  { induction keys as [| k keys IH]; simpl; intros d0; [reflexivity |].
    rewrite IH. destruct (mem p keys); [now rewrite orb_true_r |].
    rewrite orb_false_r. destruct (String.eqb p k) eqn:E.
    - apply String.eqb_eq in E. subst k. apply dict_get_set.
    - now apply dict_get_set_other. }
  now rewrite H.
Qed.

Lemma zip_with_length (f : float -> float -> float) (l1 l2 : list float) :
  List.length l1 = List.length l2 -> List.length (zip_with f l1 l2) = List.length l1.
Proof.
  revert l2. induction l1 as [| x l1 IH]; intros [| y l2]; simpl; try discriminate;
    [reflexivity |]. intros [= H]. now rewrite IH.
Qed.

Lemma sums_loop_spec (data : ndarray) (phases columns : list string) :
  forall (i : nat) (sums : dict (list float)),
    i + List.length columns <= ncols data ->
    (forall p, mem p phases = true -> dict_get p sums <> None) ->
    exists sums',
      for_enumerate (sums_column data phases) i columns sums = ([], Ok sums')
      /\ forall p,
           dict_get p sums'
           = if mem p phases
             then option_map (fold_left (zip_with PrimFloat.add)
                                        (phase_columns data p i columns))
                             (dict_get p sums)
             else dict_get p sums.
Proof.
  induction columns as [| c columns IH]; simpl; intros i sums Hw Hdef.
  - exists sums. split; [reflexivity |]. intros p.
    destruct (mem p phases); [| reflexivity]. now destruct (dict_get p sums).
  - assert (Hstep : exists sums1,
      sums_column data phases i c sums = ([], Ok sums1)
      /\ forall p,
           dict_get p sums1
           = match parse_element_content c with
             | Some (_, phase) =>
                 if String.eqb phase p && mem p phases
                 then option_map (fun s => zip_with PrimFloat.add s
                                             (map (fun r => cell r i) (rows data)))
                                 (dict_get p sums)
                 else dict_get p sums
             | None => dict_get p sums
             end).
    { unfold sums_column.
      destruct (parse_element_content c) as [[elem phase] |];
        [| exists sums; split; reflexivity].
      destruct (mem phase phases) eqn:Hph.
      - destruct (dict_get phase sums) as [s |] eqn:Hs;
          [| exfalso; now apply (Hdef phase Hph)].
        unfold column. assert (Hi : (i <? ncols data) = true) by (apply Nat.ltb_lt; lia).
        rewrite Hi. eexists. split; [reflexivity |]. intros p.
        destruct (String.eqb phase p) eqn:E; simpl.
        + apply String.eqb_eq in E. subst p. rewrite Hph, Hs. simpl. apply dict_get_set.
        + rewrite dict_get_set_other; [reflexivity |]. now rewrite String.eqb_sym.
      - exists sums. split; [reflexivity |]. intros p.
        destruct (String.eqb phase p) eqn:E; [| reflexivity].
        apply String.eqb_eq in E. subst p. now rewrite Hph. }
    destruct Hstep as [sums1 [H1 Hget1]].
    destruct (IH (S i) sums1) as [sums2 [H2 Hget2]]; [lia | |].
    + intros p Hp. rewrite Hget1.
      destruct (parse_element_content c) as [[elem phase] |]; [| now apply Hdef].
      destruct (String.eqb phase p && mem p phases); [| now apply Hdef].
      specialize (Hdef p Hp). now destruct (dict_get p sums).
    + exists sums2. rewrite (rbind_silent _ _ sums1 H1). split; [exact H2 |].
      intros p. rewrite Hget2, Hget1.
      destruct (mem p phases) eqn:Hp; [| now destruct (parse_element_content c) as [[? ?] |];
                                          [rewrite andb_false_r |]].
      destruct (parse_element_content c) as [[elem phase] |]; [| reflexivity].
      rewrite andb_true_r. destruct (String.eqb phase p); [| reflexivity].
      now destruct (dict_get p sums).
Qed.

(** Step 5 on a table as wide as its header.  It does not raise; for every
    active phase the factor is the row-wise sum, added up from zeros in
    header order, of all the element columns of the phase, the column of the
    base element included, and it has one entry per row; no other phase has
    a factor. *)
Theorem normalization_sums :
  forall (columns : list string) (data : ndarray) (phases : list string),
    List.length columns <= ncols data ->
    exists sums,
      normalization columns data phases = ([], Ok sums)
      /\ (forall p, mem p phases = true ->
            dict_get p sums
            = Some (fold_left (zip_with PrimFloat.add)
                              (phase_columns data p 0 columns) (zeros data)))
      /\ (forall p, mem p phases = false -> dict_get p sums = None)
      /\ (forall p s, dict_get p sums = Some s ->
                      List.length s = List.length (rows data)).
Proof.
  intros columns data phases Hw. unfold normalization.
  destruct (sums_loop_spec data phases columns 0
              (dict_of_keys phases (zeros data))) as [sums [H Hget]].
  - simpl. lia.
  - intros p Hp. rewrite dict_of_keys_get, Hp. discriminate.
  - exists sums. split; [exact H |].
    assert (Hin : forall p, mem p phases = true ->
              dict_get p sums
              = Some (fold_left (zip_with PrimFloat.add)
                                (phase_columns data p 0 columns) (zeros data))).
    { intros p Hp. rewrite Hget, Hp, dict_of_keys_get, Hp. reflexivity. }
    assert (Hout : forall p, mem p phases = false -> dict_get p sums = None).
    { intros p Hp. rewrite Hget, Hp, dict_of_keys_get, Hp. reflexivity. }
    split; [exact Hin | split; [exact Hout |]].
    intros p s Hs. destruct (mem p phases) eqn:Hp; [| rewrite (Hout p Hp) in Hs; discriminate].
    rewrite (Hin p Hp) in Hs. injection Hs as <-.
    assert (Hlen : forall cols acc i,
              List.length acc = List.length (rows data) ->
              List.length (fold_left (zip_with PrimFloat.add)
                                     (phase_columns data p i cols) acc)
              = List.length (rows data)).
    { induction cols as [| c cols IH]; simpl; intros acc i Hacc; [exact Hacc |].
      destruct (parse_element_content c) as [[elem phase] |]; [| now apply IH].
      destruct (String.eqb phase p); [| now apply IH].
      simpl. apply IH. rewrite zip_with_length; [exact Hacc |].
      now rewrite length_map. }
    apply Hlen. unfold zeros. now rewrite length_map.
Qed.

Lemma normalization_sums_witness :
  exists sums,
    normalization one_row_columns window_table ["LIQUID"; "FCC_A1"] = ([], Ok sums)
    /\ dict_get "FCC_A1" sums = Some [nan; 100; nan]%float.
Proof.
  destruct (normalization_sums one_row_columns window_table ["LIQUID"; "FCC_A1"])
    as [sums [H [Hin _]]]; [simpl; lia |].
  exists sums. split; [exact H |]. rewrite (Hin "FCC_A1" eq_refl). reflexivity.
Defined.

(** * The tables of step 7 *)

Lemma dict_set2_get {V} (p k : string) (v : V) (d d' : dict (dict V)) :
  dict_set2 p k v d = Ok d' ->
  exists inner,
    dict_get p d = Some inner
    /\ forall q, dict_get q d'
                 = if String.eqb q p then Some (dict_set k v inner) else dict_get q d.
Proof.
  unfold dict_set2. destruct (dict_get p d) as [inner |] eqn:H; simpl; [| discriminate].
  intros [= <-]. exists inner. split; [reflexivity |]. intros q.
  destruct (String.eqb q p) eqn:E.
  - apply String.eqb_eq in E. subst q. apply dict_get_set.
  - now apply dict_get_set_other.
Qed.

(** What one turn of the loop of step 7 does to a table: nothing, or one
    entry for an element other than the base in an active phase. *)
Lemma fit_column_cases (U : list float -> list float -> outcome Spline)
    (args : Args) (T0 : float) (data : ndarray) (phases : list string)
    (sums : dict (list float)) (i : nat) (c : string) (C slopes C' slopes' : dict (dict float)) :
  result (fit_column U args T0 data phases sums i c (C, slopes)) = Ok (C', slopes') ->
  (C' = C /\ slopes' = slopes)
  \/ exists elem phase vC vS innerC innerS,
       String.eqb elem (args_base args) = false
       /\ mem phase phases = true
       /\ dict_get phase C = Some innerC
       /\ dict_get phase slopes = Some innerS
       /\ (forall q, dict_get q C'
                     = if String.eqb q phase then Some (dict_set elem vC innerC)
                       else dict_get q C)
       /\ (forall q, dict_get q slopes'
                     = if String.eqb q phase then Some (dict_set elem vS innerS)
                       else dict_get q slopes).
Proof.
  unfold fit_column.
  destruct (parse_element_content c) as [[elem phase] |];
    [| simpl; intros [= <- <-]; now left].
  destruct (String.eqb elem (args_base args)) eqn:Hb; simpl;
    [intros [= <- <-]; now left |].
  destruct (mem phase phases) eqn:Hp; simpl; [| intros [= <- <-]; now left].
  destruct (column i data) as [Y |]; simpl; [| discriminate].
  destruct (dict_get phase sums) as [s |]; simpl; [| discriminate].
  destruct (0 <? count_true _); [| simpl; intros [= <- <-]; now left].
  destruct (U _ _) as [spl |]; simpl; [| discriminate].
  destruct (dict_set2 phase elem (1 / spl_derivative spl T0)%float slopes)
    as [s1 |] eqn:H1; simpl; [| discriminate].
  destruct (dict_set2 phase elem (spl_call spl T0) C) as [c1 |] eqn:H2; simpl;
    [| discriminate].
  intros [= <- <-]. right.
  apply dict_set2_get in H1 as [innerS [HS HgS]].
  apply dict_set2_get in H2 as [innerC [HC HgC]].
  exists elem, phase, (spl_call spl T0), (1 / spl_derivative spl T0)%float, innerC, innerS.
  repeat split; assumption.
Qed.

Lemma has_entry_step (d d' : dict (dict float)) (phase elem : string) (v : float)
    (inner : dict float) (p e : string) :
  dict_get phase d = Some inner ->
  (forall q, dict_get q d'
             = if String.eqb q phase then Some (dict_set elem v inner) else dict_get q d) ->
  has_entry d' p e
  = if String.eqb p phase && String.eqb e elem then true else has_entry d p e.
Proof.
  intros Hd Hg. unfold has_entry, dict_get2. rewrite Hg.
  destruct (String.eqb p phase) eqn:Ep; simpl.
  - apply String.eqb_eq in Ep. subst p. rewrite Hd. simpl.
    destruct (String.eqb e elem) eqn:Ee.
    + apply String.eqb_eq in Ee. subst e. now rewrite dict_get_set.
    + now rewrite dict_get_set_other.
  - reflexivity.
Qed.

Lemma fit_column_invariant (U : list float -> list float -> outcome Spline)
    (args : Args) (T0 : float) (data : ndarray) (phases : list string)
    (sums : dict (list float)) (i : nat) (c : string)
    (C0 slopes0 C slopes C' slopes' : dict (dict float)) :
  result (fit_column U args T0 data phases sums i c (C, slopes)) = Ok (C', slopes') ->
  tables_invariant (args_base args) C0 slopes0 C slopes ->
  tables_invariant (args_base args) C0 slopes0 C' slopes'.
Proof.
  intros H [HkC [HkS [HbC [HbS He]]]].
  apply fit_column_cases in H
    as [[-> ->] | [elem [phase [vC [vS [iC [iS [Hb [_ [HC [HS [HgC HgS]]]]]]]]]]]].
  - repeat split; auto; try apply HkC; try apply HkS.
  - assert (Hbase : String.eqb (args_base args) elem = false)
      by (now rewrite String.eqb_sym).
    split; [| split; [| split; [| split]]].
    + intros p. rewrite HgC, <- HkC. destruct (String.eqb p phase) eqn:E; [| reflexivity].
      apply String.eqb_eq in E. subst p. rewrite HC. split; discriminate.
    + intros p. rewrite HgS, <- HkS. destruct (String.eqb p phase) eqn:E; [| reflexivity].
      apply String.eqb_eq in E. subst p. rewrite HS. split; discriminate.
    + intros p inner. rewrite HgC. destruct (String.eqb p phase) eqn:E; [| apply HbC].
      intros [= <-]. rewrite dict_get_set_other by exact Hbase. now apply (HbC phase).
    + intros p inner. rewrite HgS. destruct (String.eqb p phase) eqn:E; [| apply HbS].
      intros [= <-]. rewrite dict_get_set_other by exact Hbase. now apply (HbS phase).
    + intros p e. rewrite (has_entry_step C C' phase elem vC iC p e HC HgC).
      rewrite (has_entry_step slopes slopes' phase elem vS iS p e HS HgS).
      now rewrite He.
Qed.

Lemma fit_loop_invariant (U : list float -> list float -> outcome Spline)
    (args : Args) (T0 : float) (data : ndarray) (phases : list string)
    (sums : dict (list float)) (columns : list string) (C0 slopes0 : dict (dict float)) :
  forall i C slopes C' slopes',
    result (for_enumerate (fit_column U args T0 data phases sums) i columns (C, slopes))
    = Ok (C', slopes') ->
    tables_invariant (args_base args) C0 slopes0 C slopes ->
    tables_invariant (args_base args) C0 slopes0 C' slopes'.
Proof.
  induction columns as [| c columns IH]; simpl; intros i C slopes C' slopes' H Hinv.
  - now injection H as <- <-.
  - apply rbind_result in H as [[C1 s1] [H1 H2]].
    eapply IH; [exact H2 |]. eapply fit_column_invariant; [exact H1 | exact Hinv].
Qed.

Lemma find_slopes_invariant (U : list float -> list float -> outcome Spline)
    (args : Args) (T0 : float) (columns : list string) (data : ndarray)
    (phases : list string) (sums : dict (list float)) (C slopes : dict (dict float)) :
  result (find_slopes U args T0 columns data phases sums) = Ok (C, slopes) ->
  tables_invariant (args_base args) (dict_of_keys phases []) (dict_of_keys phases [])
                   C slopes.
Proof.
  intros H. unfold find_slopes in H. eapply fit_loop_invariant; [exact H |].
  repeat split; auto.
  - intros p inner. rewrite dict_of_keys_get. destruct (mem p phases); [| discriminate].
    now intros [= <-].
  - intros p inner. rewrite dict_of_keys_get. destruct (mem p phases); [| discriminate].
    now intros [= <-].
Qed.

(** The tables that step 7 hands on, whatever the spline routine.  The
    phases with a table are the active phases; the concentration table and
    the slope table have entries for the same pairs of phase and element;
    and the base element has no entry in any phase. *)
Theorem slope_tables :
  forall (UnivariateSpline : list float -> list float -> outcome Spline)
         (args : Args) (T0 : float) (columns : list string) (data : ndarray)
         (phases : list string) (sums : dict (list float)) (C slopes : dict (dict float)),
    result (find_slopes UnivariateSpline args T0 columns data phases sums)
    = Ok (C, slopes) ->
    (forall p, dict_get p C = None <-> mem p phases = false)
    /\ (forall p, dict_get p slopes = None <-> mem p phases = false)
    /\ (forall p e, has_entry C p e = has_entry slopes p e)
    /\ (forall p, has_entry C p (args_base args) = false).
Proof.
  intros U args T0 columns data phases sums C slopes H.
  destruct (find_slopes_invariant U args T0 columns data phases sums C slopes H)
    as [HkC [HkS [HbC [_ He]]]].
  assert (Hkeys : forall p, dict_get p (dict_of_keys phases (@nil (string * float))) = None
                            <-> mem p phases = false).
  { intros p. rewrite dict_of_keys_get. destruct (mem p phases); split; congruence. }
  split; [| split; [| split]].
  - intros p. now rewrite HkC.
  - intros p. now rewrite HkS.
  - exact He.
  - intros p. unfold has_entry, dict_get2.
    destruct (dict_get p C) as [inner |] eqn:E; simpl; [| reflexivity].
    now rewrite (HbC p inner E).
Qed.

Lemma slope_tables_witness :
  match result (find_slopes Scipy.UnivariateSpline default_args 1700 one_row_columns
                  window_table ["LIQUID"] window_sums) with
  | Ok (C, slopes) =>
      has_entry C "LIQUID" "Fe" = false /\ has_entry C "LIQUID" "Cr" = has_entry slopes "LIQUID" "Cr"
  | Raise _ => False
  end.
Proof.
  destruct (result (find_slopes Scipy.UnivariateSpline default_args 1700 one_row_columns
                      window_table ["LIQUID"] window_sums)) as [[C slopes] | e] eqn:E;
    [| vm_compute in E; discriminate E].
  destruct (slope_tables Scipy.UnivariateSpline default_args 1700 one_row_columns
              window_table ["LIQUID"] window_sums C slopes E) as [_ [_ [He Hb]]].
  split; [apply Hb | apply He].
Defined.

(** * A run without the phase LIQUID *)

Lemma forallb_impl {A} (p q : A -> bool) (l : list A) :
  (forall x, p x = true -> q x = true) -> forallb p l = true -> forallb q l = true.
Proof.
  intros Hpq. induction l as [| x l IH]; simpl; [reflexivity |]. intros H.
  apply andb_prop in H as [Hx Hl]. now rewrite (Hpq x Hx), IH.
Qed.

Lemma aborts_rbind {A B} (x : run A) (f : A -> run B) :
  forallb (fun ev => negb (result_line ev)) (output x) = true ->
  (forall a, result x = Ok a -> aborts (f a)) ->
  aborts (rbind x f).
Proof.
  unfold aborts. destruct x as [out [a | e]]; simpl; intros Hx Hf.
  - destruct (Hf a eq_refl) as [[e He] Ho]. destruct (f a) as [out' r]. simpl in *.
    split; [now exists e |]. now rewrite forallb_app, Hx, Ho.
  - split; [now exists e | exact Hx].
Qed.

Lemma for_enumerate_output {St} (body : nat -> string -> St -> run St) (p : event -> bool) :
  (forall i c st, forallb p (output (body i c st)) = true) ->
  forall columns i st, forallb p (output (for_enumerate body i columns st)) = true.
Proof.
  intros Hb. induction columns as [| c columns IH]; simpl; intros i st; [reflexivity |].
  apply output_rbind; [apply Hb | intros st'; apply IH].
Qed.

Lemma analyze_quiet (args : Args) (columns : list string) (data : ndarray) :
  forallb (fun ev => negb (result_line ev))
          (output (analyze_phase_fractions args columns data)) = true.
Proof.
  apply (forallb_impl interval_report); [| apply analyze_phase_fractions_output].
  now intros [].
Qed.

Lemma extract_quiet (args : Args) (columns : list string) (data : ndarray) :
  forallb (fun ev => negb (result_line ev))
          (output (extract_phases_elements args columns data)) = true.
Proof.
  unfold extract_phases_elements.
  pose proof (extract_loop_silent args data columns 0 ([], [])) as Ho.
  destruct (for_enumerate (extract_column args data) 0 columns ([], []))
    as [out [[el ph] | e]]; simpl in Ho; subst out; [| reflexivity].
  simpl. destruct (list_remove (args_base args) el); reflexivity.
Qed.

Lemma normalization_silent (columns : list string) (data : ndarray) (phases : list string) :
  output (normalization columns data phases) = [].
Proof.
  unfold normalization. apply for_enumerate_silent. intros i c sums. unfold sums_column.
  destruct (parse_element_content c) as [[elem phase] |]; [| reflexivity].
  destruct (mem phase phases); [| reflexivity].
  destruct (dict_get phase sums); [| reflexivity]. simpl.
  destruct (column i data); reflexivity.
Qed.

Lemma find_slopes_quiet (U : list float -> list float -> outcome Spline)
    (args : Args) (T0 : float) (columns : list string) (data : ndarray)
    (phases : list string) (sums : dict (list float)) :
  forallb (fun ev => negb (result_line ev))
          (output (find_slopes U args T0 columns data phases sums)) = true.
Proof.
  unfold find_slopes. apply for_enumerate_output. intros i c [C slopes].
  unfold fit_column.
  destruct (parse_element_content c) as [[elem phase] |]; [| reflexivity].
  destruct (String.eqb elem (args_base args) || negb (mem phase phases)); [reflexivity |].
  destruct (column i data); [| reflexivity]. simpl.
  destruct (dict_get phase sums); [| reflexivity]. simpl.
  destruct (0 <? count_true _); [| reflexivity].
  destruct (U _ _); [| reflexivity]. simpl.
  destruct (dict_set2 phase elem _ slopes); [| reflexivity]. simpl.
  destruct (dict_set2 phase elem _ C); reflexivity.
Qed.

(** The phase LIQUID is needed.  When the header has no element column of
    LIQUID, or LIQUID is among the skipped phases, the run ends with an
    exception (at the latest the KeyError of the title line, which reads
    the LIQUID concentrations) and prints no freezing range and no
    phase balance. *)
Theorem liquid_required :
  forall (UnivariateSpline : list float -> list float -> outcome Spline)
         (args : Args) (columns : list string) (data : ndarray),
    forallb not_of_liquid columns || mem "LIQUID" (args_skip_phases args) = true ->
    aborts (main UnivariateSpline args columns data).
Proof.
  intros U args columns data H. unfold main.
  apply aborts_rbind; [apply analyze_quiet |]. intros [st T0] _.
  apply aborts_rbind; [apply extract_quiet |]. intros [el ph] Hex.
  assert (Hliq : mem "LIQUID" ph = false).
  { apply mem_not_In. intros Hin.
    destruct (extract_result _ _ _ _ _ Hex) as [_ [_ [_ [_ Hp]]]].
    destruct (Hp _ Hin) as [Hsk [c [e [Hc Hpc]]]].
    apply orb_prop in H as [H | H]; [| congruence].
    rewrite forallb_forall in H. specialize (H c Hc). unfold not_of_liquid in H.
    rewrite Hpc in H. discriminate. }
  apply aborts_rbind; [now rewrite normalization_silent |]. intros sums _.
  apply aborts_rbind; [apply find_slopes_quiet |]. intros [C slopes] Hfs.
  destruct (find_slopes_invariant U _ _ _ _ _ _ _ _ Hfs) as [HkC _].
  assert (HC : dict_get "LIQUID" C = None).
  { apply HkC. rewrite dict_of_keys_get. now rewrite Hliq. }
  rewrite HC. split; [now exists KeyError | reflexivity].
Qed.

Lemma liquid_required_witness :
  aborts (main Scipy.UnivariateSpline
            (mk_Args (mk_Range 1600 1800) None "Fe" 0.5 false false false ["LIQUID"])
            one_row_columns one_row_table).
Proof. apply liquid_required. reflexivity. Defined.

(** * The order of the elements, and the report of step 8 *)

Section FreezingRangeOrder.

Context {num : Type} (zero one : num) (add sub mul div : num -> num -> num).
Hypothesis add_assoc : forall a b c, add (add a b) c = add a (add b c).
Hypothesis add_comm : forall a b, add a b = add b a.
Variables C slopes : dict (dict num).

Lemma fold_add_perm (l l' : list num) :
  Permutation l l' -> forall z, fold_left add l z = fold_left add l' z.
Proof.
  induction 1 as [| x l l' _ IH | x y l | l l' l'' _ IH1 _ IH2]; intros z; simpl.
  - reflexivity.
  - apply IH.
  - f_equal. rewrite !add_assoc. f_equal. apply add_comm.
  - now rewrite IH1.
Qed.

Lemma total_perm (l l' : list num) :
  Permutation l l' -> total zero add l = total zero add l'.
Proof. intros H. unfold total. now apply fold_add_perm. Qed.

Lemma gather_Forall2 (phase : string) (elements : list string)
    (es : list (num * num * num * num)) :
  gather C slopes phase elements = Ok es
  <-> Forall2 (fun elem e => entries C slopes phase elem = Ok e) elements es.
Proof.
  revert es. induction elements as [| elem elements' IH]; intros es; simpl.
  - split.
    + intros [= <-]. constructor.
    + intros H. inversion H. reflexivity.
  - split.
    + destruct (entries C slopes phase elem) as [e |] eqn:He; simpl; [| discriminate].
      destruct (gather C slopes phase elements') as [es' |]; simpl; [| discriminate].
      intros [= <-]. constructor; [exact He | now apply IH].
    + intros H. inversion H as [| ? e ? es' He Hes]; subst.
      rewrite He. simpl. apply IH in Hes. rewrite Hes. reflexivity.
Qed.

Lemma gather_raise (phase : string) (elements : list string) (e : exn) :
  gather C slopes phase elements = Raise e ->
  e = KeyError /\ exists elem e', In elem elements /\ entries C slopes phase elem = Raise e'.
Proof.
  induction elements as [| elem elements' IH]; simpl; [discriminate |].
  destruct (entries C slopes phase elem) as [x |] eqn:He; simpl.
  - destruct (gather C slopes phase elements') as [es' | e0]; simpl; [discriminate |].
    intros [= <-]. destruct (IH eq_refl) as [-> [el [e' [Hin H]]]].
    split; [reflexivity |]. exists el, e'. now split; [right |].
  - intros [= <-]. split; [exact (entries_raise _ _ _ _ _ He) |].
    exists elem, e0. now split; [left |].
Qed.

Lemma gather_raises (phase : string) (elements : list string) (elem : string) (e : exn) :
  In elem elements -> entries C slopes phase elem = Raise e ->
  gather C slopes phase elements = Raise KeyError.
Proof.
  induction elements as [| el elements' IH]; simpl; [intros [] |].
  intros [-> | Hin] He.
  - rewrite He. simpl. now rewrite (entries_raise _ _ _ _ _ He).
  - destruct (entries C slopes phase el) as [x |] eqn:Hel; simpl.
    + now rewrite (IH Hin He).
    + now rewrite (entries_raise _ _ _ _ _ Hel).
Qed.

Lemma spec_perm (es es' : list (num * num * num * num)) :
  Permutation es es' ->
  spec_K zero add sub div es = spec_K zero add sub div es'
  /\ spec_DeltaT1 zero add sub mul div es = spec_DeltaT1 zero add sub mul div es'
  /\ spec_DeltaT2 zero one add sub mul div es = spec_DeltaT2 zero one add sub mul div es'.
Proof.
  intros H.
  assert (HL : spec_sumL zero add sub div es = spec_sumL zero add sub div es')
    by (unfold spec_sumL; apply total_perm; now apply Permutation_map).
  assert (HS : spec_sumS zero add sub div es = spec_sumS zero add sub div es')
    by (unfold spec_sumS; apply total_perm; now apply Permutation_map).
  split; [| split].
  - unfold spec_K. now rewrite HL, HS.
  - unfold spec_DeltaT1. rewrite HS. apply total_perm. now apply Permutation_map.
  - unfold spec_DeltaT2. rewrite HL, HS. apply total_perm. now apply Permutation_map.
Qed.

Lemma headline_perm (elements elements' : list string) (phase : string) :
  Permutation elements elements' ->
  headline (freezing_range zero one add sub mul div C slopes elements phase)
  = headline (freezing_range zero one add sub mul div C slopes elements' phase).
Proof.
  intros H. rewrite !freezing_range_spec.
  destruct (gather C slopes phase elements) as [es | e] eqn:Hes.
  - apply gather_Forall2 in Hes.
    destruct (Permutation_Forall2 H Hes) as [es' [Hp Hes']].
    apply gather_Forall2 in Hes'. rewrite Hes'. simpl.
    destruct es as [| x es0].
    + apply Permutation_nil in Hp. now subst.
    + destruct es' as [| x' es0'].
      * apply Permutation_sym, Permutation_nil in Hp. discriminate.
      * destruct (spec_perm _ _ Hp) as [-> [-> ->]]. reflexivity.
  - destruct (gather_raise _ _ _ Hes) as [-> [elem [e' [Hin He]]]].
    rewrite (gather_raises phase elements' elem e'); [reflexivity | | exact He].
    now apply (Permutation_in _ H).
Qed.

End FreezingRangeOrder.

Lemma Qplus_assoc_eq (a b c : Q) : Qplus (Qplus a b) c = Qplus a (Qplus b c).
Proof.
  destruct a as [an ad], b as [bn bd], c as [cn cd]. unfold Qplus. simpl.
  f_equal; [| now rewrite Pos.mul_assoc].
  rewrite !Pos2Z.inj_mul. ring.
Qed.

Lemma Qplus_comm_eq (a b : Q) : Qplus a b = Qplus b a.
Proof.
  destruct a as [an ad], b as [bn bd]. unfold Qplus. simpl.
  f_equal; [ring | apply Pos.mul_comm].
Qed.

(** The order of the elements in exact arithmetic.  For any numbers whose
    addition is associative and commutative, the rationals being such, the
    three numbers of a phase, or its exception, are the same for every
    order of [elements], which is the order of the header.  In binary64
    they are not: of three elements read in the two directions, DeltaT1
    differs in its last digits. *)
Theorem freezing_range_order :
  (forall (num : Type) (zero one : num) (add sub mul div : num -> num -> num)
          (C slopes : dict (dict num)) (elements elements' : list string)
          (phase : string),
      (forall a b c, add (add a b) c = add a (add b c)) ->
      (forall a b, add a b = add b a) ->
      Permutation elements elements' ->
      headline (freezing_range zero one add sub mul div C slopes elements phase)
      = headline (freezing_range zero one add sub mul div C slopes elements' phase))
  /\ headline (freezing_range_float (fst three_elements_float) (snd three_elements_float)
                 ["Cr"; "Ni"; "Mo"] "BCC_A2")
     = Ok (2, 0.46666666666666656, 0)%float
  /\ headline (freezing_range_float (fst three_elements_float) (snd three_elements_float)
                 ["Mo"; "Ni"; "Cr"] "BCC_A2")
     = Ok (2, 0.46666666666666667, 0)%float.
Proof.
  split; [| split].
  - intros. now apply headline_perm.
  - vm_compute. reflexivity.
  - vm_compute. reflexivity.
Qed.

Lemma freezing_range_order_witness :
  headline (freezing_range_Q (fst three_elements_Q) (snd three_elements_Q)
              ["Cr"; "Ni"; "Mo"] "BCC_A2")
  = headline (freezing_range_Q (fst three_elements_Q) (snd three_elements_Q)
                ["Mo"; "Ni"; "Cr"] "BCC_A2").
Proof.
  apply (proj1 freezing_range_order Q 0%Q 1%Q Qplus Qminus Qmult Qdiv
           (fst three_elements_Q) (snd three_elements_Q)
           ["Cr"; "Ni"; "Mo"] ["Mo"; "Ni"; "Cr"] "BCC_A2"
           Qplus_assoc_eq Qplus_comm_eq).
  apply Permutation_trans with (l' := ["Ni"; "Cr"; "Mo"]); [apply perm_swap |].
  apply Permutation_trans with (l' := ["Ni"; "Mo"; "Cr"]);
    [apply perm_skip, perm_swap | apply perm_swap].
Defined.

Lemma delta_loop_lines {num} (one : num) (add sub mul div : num -> num -> num)
    (C slopes : dict (dict num)) (phase : string) (elements : list string) (sumL sumS : num) :
  forall D1 D2 lines D1' D2' lines',
    delta_loop one add sub mul div C slopes phase elements sumL sumS D1 D2 lines
    = Ok (D1', D2', lines') ->
    map fst lines' = (map fst lines ++ elements)%list.
Proof.
  induction elements as [| elem elements' IH]; simpl; intros D1 D2 lines D1' D2' lines' H.
  - injection H as _ _ <-. now rewrite app_nil_r.
  - destruct (entries C slopes phase elem) as [[[[mL mS] CL] CS] | e]; simpl in H;
      [| discriminate].
    apply IH in H. rewrite H, map_app, <- app_assoc. reflexivity.
Qed.

Lemma freezing_range_lines {num} (zero one : num) (add sub mul div : num -> num -> num)
    (C slopes : dict (dict num)) (elements : list string) (phase : string)
    (K D1 D2 : num) (lines : list (contribution num)) :
  freezing_range zero one add sub mul div C slopes elements phase = Ok (K, D1, D2, lines) ->
  map fst lines = elements.
Proof.
  unfold freezing_range.
  destruct (sum_loop _ _ _ _ _ _ _ _ _) as [[sumL sumS] |]; simpl; [| discriminate].
  destruct (delta_loop _ _ _ _ _ _ _ _ _ _ _ _ _ _) as [[[D1' D2'] lines'] |] eqn:Hd;
    simpl; [| discriminate].
  apply delta_loop_lines in Hd. destruct elements; [discriminate |].
  intros [= _ _ _ <-]. exact Hd.
Qed.

Lemma freezing_phase_subjects (args : Args) (st : tables) (elements : list string)
    (phase : string) :
  result (freezing_phase args st elements phase) = Ok tt ->
  map subject_of (output (freezing_phase args st elements phase))
  = if solid phase
    then ((if args_verbose args then map OfElement elements else []) ++ [OfPhase phase])%list
    else [].
Proof.
  unfold freezing_phase, solid. destruct st as [C slopes].
  destruct (String.eqb phase "LIQUID"); [reflexivity |]. simpl.
  destruct (freezing_range_float C slopes elements phase)
    as [[[[K D1] D2] lines] | e] eqn:Hf; [| discriminate].
  apply freezing_range_lines in Hf. intros _.
  destruct (args_verbose args); simpl; [| reflexivity].
  rewrite map_app. simpl. f_equal. rewrite <- Hf, !map_map.
  apply map_ext. now intros [elem [[[[[[sS sL] dT1] dT2] k] r] m]].
Qed.

Lemma for_phases_subjects :
  forall (args : Args) (st : tables) (elements phases : list string),
    result (for_phases (freezing_phase args st elements) phases) = Ok tt ->
    map subject_of (output (for_phases (freezing_phase args st elements) phases))
    = flat_map (fun phase =>
                  (if args_verbose args then map OfElement elements else [])
                  ++ [OfPhase phase])%list
               (filter solid phases).
Proof.
  intros args st elements phases.
  induction phases as [| p ps IH]; [reflexivity |].
  cbn [for_phases filter]. intros H.
  destruct (result (freezing_phase args st elements p)) as [[] | e] eqn:Hp.
  - pose proof (freezing_phase_subjects args st elements p Hp) as Hs.
    destruct (freezing_phase args st elements p) as [out1 r1] eqn:E1.
    simpl in Hp. subst r1. cbn [rbind] in H |- *.
    destruct (for_phases (freezing_phase args st elements) ps) as [out2 r2] eqn:E2.
    simpl in H |- *. simpl in Hs, IH. rewrite map_app, Hs, (IH H).
    destruct (solid p); reflexivity.
  - destruct (freezing_phase args st elements p) as [out1 r1] eqn:E1.
    simpl in Hp. subst r1. discriminate H.
Qed.

(** The report of step 8.  When the loop over the phases returns, it has
    printed, for every active phase other than LIQUID and in the order of
    [phases], the line of the phase, preceded with [--verbose] by one line
    per element, in the order of [elements]; it has printed nothing else,
    and nothing for LIQUID. *)
Theorem freezing_report :
  forall (args : Args) (st : tables) (elements phases : list string),
    result (for_phases (freezing_phase args st elements) phases) = Ok tt ->
    map subject_of (output (for_phases (freezing_phase args st elements) phases))
    = flat_map (fun phase =>
                  (if args_verbose args then map OfElement elements else [])
                  ++ [OfPhase phase])%list
               (filter solid phases).
Proof. exact for_phases_subjects. Qed.

Lemma freezing_report_witness :
  map subject_of
    (output (for_phases
               (freezing_phase verbose_args
                  (fst three_elements_float, snd three_elements_float) ["Cr"; "Ni"; "Mo"])
               ["LIQUID"; "BCC_A2"]))
  = [OfElement "Cr"; OfElement "Ni"; OfElement "Mo"; OfPhase "BCC_A2"].
Proof.
  apply (freezing_report verbose_args
           (fst three_elements_float, snd three_elements_float) ["Cr"; "Ni"; "Mo"]
           ["LIQUID"; "BCC_A2"]).
  vm_compute. reflexivity.
Defined.

(** * The equivalents of step 9 *)

Lemma equivalents_Ni (items : dict float) :
  forall a b b', fst (equivalents items a b) = fst (equivalents (filter in_Ni items) a b').
Proof.
  induction items as [| [elem c] items' IH]; intros a b b'; [reflexivity |].
  cbn [equivalents filter]. unfold in_Ni at 1. cbn [fst].
  destruct (dict_get elem Ni_coeffs) as [k |] eqn:E.
  - cbn [equivalents]. rewrite E. apply IH.
  - apply IH.
Qed.

Lemma equivalents_Cr (items : dict float) :
  forall a a' b, snd (equivalents items a b) = snd (equivalents (filter in_Cr items) a' b).
Proof.
  induction items as [| [elem c] items' IH]; intros a a' b; [reflexivity |].
  cbn [equivalents filter]. unfold in_Cr at 1. cbn [fst].
  destruct (dict_get elem Cr_coeffs) as [k |] eqn:E.
  - cbn [equivalents]. rewrite E. apply IH.
  - apply IH.
Qed.

Lemma equivalents_both (items : dict float) :
  forall a b,
    equivalents items a b = equivalents (filter (fun x => in_Ni x || in_Cr x) items) a b.
Proof.
  induction items as [| [elem c] items' IH]; intros a b; [reflexivity |].
  cbn [equivalents filter]. unfold in_Ni at 1, in_Cr at 1. cbn [fst].
  destruct (dict_get elem Ni_coeffs) as [k |] eqn:E1,
           (dict_get elem Cr_coeffs) as [k' |] eqn:E2;
    cbn [orb equivalents]; try rewrite E1; try rewrite E2; apply IH.
Qed.

(** Step 9 reads the eight elements of its two tables and no other.  Ni_eq
    is what the entries of Ni, Mn, C and N of the LIQUID concentrations give,
    Cr_eq what those of Cr, Mo, Si and Nb give, each in the order of the
    header; every other element of the alloy leaves the three numbers of the
    line as they are. *)
Theorem equivalents_relevant :
  forall liquid : dict float,
    Ni_eq liquid = Ni_eq (filter in_Ni liquid)
    /\ Cr_eq liquid = Cr_eq (filter in_Cr liquid)
    /\ bcc_wt liquid = bcc_wt (filter (fun x => in_Ni x || in_Cr x) liquid)
    /\ forall args,
         schaeffler args liquid
         = schaeffler args (filter (fun x => in_Ni x || in_Cr x) liquid).
Proof.
  intros liquid.
  assert (H : forall l, Ni_eq l = Ni_eq (filter (fun x => in_Ni x || in_Cr x) l)
                        /\ Cr_eq l = Cr_eq (filter (fun x => in_Ni x || in_Cr x) l)).
  { intros l. unfold Ni_eq, Cr_eq. now rewrite <- equivalents_both. }
  split; [apply equivalents_Ni | split; [apply equivalents_Cr | split]].
  - unfold bcc_wt. destruct (H liquid) as [<- <-]. reflexivity.
  - intros args. unfold schaeffler, bcc_wt. destruct (H liquid) as [<- <-]. reflexivity.
Qed.

(** * The regular expressions: what the parsers return *)

Lemma list_ascii_of_string_app (a b : string) :
  list_ascii_of_string (a ++ b) = (list_ascii_of_string a ++ list_ascii_of_string b)%list.
Proof. induction a as [| x a IH]; simpl; [reflexivity | now rewrite IH]. Qed.

Lemma string_of_list_ascii_app (a b : list ascii) :
  string_of_list_ascii (a ++ b)
  = (string_of_list_ascii a ++ string_of_list_ascii b)%string.
Proof. induction a as [| x a IH]; simpl; [reflexivity | now rewrite IH]. Qed.

Lemma length_list_ascii_of_string (s : string) :
  List.length (list_ascii_of_string s) = String.length s.
Proof. induction s as [| x s IH]; simpl; [reflexivity | now rewrite IH]. Qed.

Lemma match_here_Grp (c : Re.cclass) (least : nat) (re' : Re.regex) (s : list ascii) :
  Re.match_here (Re.Grp c least :: re') s = greedy c least (Re.match_here re') s [].
Proof.
  cbn [Re.match_here]. generalize (@nil ascii) as acc.
  induction s as [| a s IH]; intros acc; [reflexivity |].
  cbn [greedy]. rewrite <- IH. reflexivity.
Qed.

Lemma match_here_Lit (l : string) (re' : Re.regex) (s : list ascii) :
  Re.match_here (Re.Lit l :: re') s
  = match Re.strip_prefix (list_ascii_of_string l) s with
    | Some s' =>
        match Re.match_here re' s' with
        | Some (caps, n) => Some (caps, String.length l + n)
        | None => None
        end
    | None => None
    end.
Proof. reflexivity. Qed.

Lemma strip_prefix_Some (l s s' : list ascii) :
  Re.strip_prefix l s = Some s' -> s = (l ++ s')%list.
Proof.
  revert s. induction l as [| a l IH]; intros s; simpl.
  - now intros [= ->].
  - destruct s as [| b s]; [discriminate |].
    destruct (Ascii.eqb a b) eqn:E; [| discriminate].
    apply Ascii.eqb_eq in E. subst b. intros H. now rewrite (IH _ H).
Qed.

Lemma strip_prefix_app (l s : list ascii) : Re.strip_prefix l (l ++ s) = Some s.
Proof.
  induction l as [| a l IH]; simpl; [reflexivity |]. now rewrite Ascii.eqb_refl.
Qed.

Lemma greedy_sound (c : Re.cclass) (least : nat)
    (k : list ascii -> option (list string * nat)) (s : list ascii) :
  forall acc caps n,
    greedy c least k s acc = Some (caps, n) ->
    exists w rest caps' n',
      s = (w ++ rest)%list
      /\ forallb (Re.in_class c) w = true
      /\ least <= List.length acc + List.length w
      /\ k rest = Some (caps', n')
      /\ caps = string_of_list_ascii (rev acc ++ w) :: caps'
      /\ n = List.length acc + List.length w + n'.
Proof.
  assert (Hstop : forall s acc caps n,
             (if least <=? List.length acc then
                match k s with
                | Some (caps, n) =>
                    Some (string_of_list_ascii (rev acc) :: caps, List.length acc + n)
                | None => None
                end
              else None) = Some (caps, n) ->
             exists w rest caps' n',
               s = (w ++ rest)%list
               /\ forallb (Re.in_class c) w = true
               /\ least <= List.length acc + List.length w
               /\ k rest = Some (caps', n')
               /\ caps = string_of_list_ascii (rev acc ++ w) :: caps'
               /\ n = List.length acc + List.length w + n').
  { intros s0 acc caps n H. destruct (least <=? List.length acc) eqn:El; [| discriminate].
    apply Nat.leb_le in El. destruct (k s0) as [[caps' n'] |] eqn:Ek; [| discriminate].
    injection H as <- <-. exists [], s0, caps', n'. simpl.
    rewrite app_nil_r, Nat.add_0_r. repeat split; [lia | exact Ek]. }
  induction s as [| a s IH]; intros acc caps n H.
  - now apply Hstop.
  - cbn [greedy] in H. destruct (Re.in_class c a) eqn:Ea; [| now apply Hstop].
    destruct (greedy c least k s (a :: acc)) as [r |] eqn:Er; [| now apply Hstop].
    injection H as ->. destruct (IH _ _ _ Er) as [w [rest [caps' [n' H]]]].
    destruct H as [-> [Hw [Hl [Hk [-> ->]]]]].
    exists (a :: w), rest, caps', n'. simpl in *. rewrite Ea, Hw, <- app_assoc. simpl.
    repeat split; [lia | exact Hk | lia].
Qed.

(** What [match_here] returns is a match: the text of the pattern for the
    captured groups stands at the start, and is what was consumed. *)
Lemma match_here_sound (re : Re.regex) :
  forall s caps n,
    Re.match_here re s = Some (caps, n) ->
    exists t rest,
      text_of re caps = Some t /\ s = (t ++ rest)%list /\ n = List.length t.
Proof.
  induction re as [| [l | c least] re' IH]; intros s caps n H.
  - injection H as <- <-. now exists [], s.
  - rewrite match_here_Lit in H.
    destruct (Re.strip_prefix (list_ascii_of_string l) s) as [s' |] eqn:Es; [| discriminate].
    destruct (Re.match_here re' s') as [[caps' n'] |] eqn:Em; [| discriminate].
    injection H as <- <-. apply strip_prefix_Some in Es.
    destruct (IH _ _ _ Em) as [t [rest [Ht [-> ->]]]].
    exists (list_ascii_of_string l ++ t)%list, rest. cbn [text_of]. rewrite Ht.
    rewrite Es, <- app_assoc, length_app, length_list_ascii_of_string. now repeat split.
  - rewrite match_here_Grp in H. apply greedy_sound in H.
    destruct H as [w [rest0 [caps' [n' [-> [Hw [Hl [Hk [-> ->]]]]]]]]].
    destruct (IH _ _ _ Hk) as [t [rest [Ht [-> ->]]]].
    exists (w ++ t)%list, rest. cbn [text_of rev app].
    rewrite list_ascii_of_string_of_list_ascii, Hw, Ht.
    rewrite <- length_list_ascii_of_string, list_ascii_of_string_of_list_ascii.
    simpl in Hl. apply Nat.leb_le in Hl. rewrite Hl. simpl.
    rewrite <- app_assoc, length_app. now repeat split.
Qed.

Lemma findall_from_sound (re : Re.regex) (s : list ascii) :
  forall skip caps,
    In caps (Re.findall_from re s skip) ->
    exists pre t post, text_of re caps = Some t /\ s = (pre ++ t ++ post)%list.
Proof.
  induction s as [| a s IH]; intros skip caps H; [destruct H |].
  assert (Hrest : forall k, In caps (Re.findall_from re s k) ->
                            exists pre t post,
                              text_of re caps = Some t /\ a :: s = (pre ++ t ++ post)%list).
  { intros k Hk. destruct (IH _ _ Hk) as [pre [t [post [Ht ->]]]].
    now exists (a :: pre), t, post. }
  cbn [Re.findall_from] in H. destruct skip as [| k]; [| now apply (Hrest k)].
  destruct (Re.match_here re (a :: s)) as [[caps' n] |] eqn:Em; [| now apply (Hrest 0)].
  destruct H as [<- | H]; [| now apply (Hrest (n - 1))].
  destruct (match_here_sound _ _ _ _ Em) as [t [rest [Ht [Hs _]]]].
  exists [], t, rest. now split.
Qed.

Lemma findall_sound (re : Re.regex) (c : string) (caps : list string) :
  In caps (Re.findall re c) ->
  exists t, text_of re caps = Some t /\ contains (string_of_list_ascii t) c.
Proof.
  unfold Re.findall. intros H.
  destruct (findall_from_sound _ _ _ _ H) as [pre [t [post [Ht Hs]]]].
  exists t. split; [exact Ht |].
  exists (string_of_list_ascii pre), (string_of_list_ascii post).
  rewrite <- !string_of_list_ascii_app, <- Hs.
  now rewrite string_of_list_ascii_of_string.
Qed.

Lemma name_of_group (c : Re.cclass) (cap : string) :
  forallb (Re.in_class c) (list_ascii_of_string cap) && (1 <=? String.length cap) = true ->
  name c cap = true.
Proof.
  intros H. apply andb_prop in H as [Hc Hl]. unfold name. rewrite Hc, andb_true_r.
  destruct cap; [discriminate | reflexivity].
Qed.

Lemma text_of_nil (caps : list string) (t : list ascii) :
  text_of [] caps = Some t -> caps = [] /\ t = [].
Proof. destruct caps; simpl; [now intros [= <-] | discriminate]. Qed.

Lemma text_of_Lit (l : string) (re' : Re.regex) (caps : list string) (t : list ascii) :
  text_of (Re.Lit l :: re') caps = Some t ->
  exists t', text_of re' caps = Some t' /\ t = (list_ascii_of_string l ++ t')%list.
Proof.
  cbn [text_of]. destruct (text_of re' caps) as [t' |]; [| discriminate].
  intros [= <-]. now exists t'.
Qed.

Lemma text_of_Grp (c : Re.cclass) (re' : Re.regex) (caps : list string) (t : list ascii) :
  text_of (Re.Grp c 1 :: re') caps = Some t ->
  exists cap caps' t',
    caps = cap :: caps' /\ name c cap = true
    /\ text_of re' caps' = Some t' /\ t = (list_ascii_of_string cap ++ t')%list.
Proof.
  cbn [text_of]. destruct caps as [| cap caps']; [discriminate |].
  destruct (forallb (Re.in_class c) (list_ascii_of_string cap) && (1 <=? String.length cap))
    eqn:E; [| discriminate].
  destruct (text_of re' caps') as [t' |] eqn:Et; [| discriminate].
  intros [= <-]. exists cap, caps', t'.
  split; [reflexivity | split; [now apply name_of_group | split; [exact Et | reflexivity]]].
Qed.

Lemma masspct_sound (c : string) (caps : list string) :
  In caps (Re.findall Regex.masspct c) ->
  exists e p,
    caps = [e; p] /\ name Re.Word e = true /\ name Re.WordHash p = true
    /\ contains ("Mass percent of " ++ e ++ " in " ++ p) c.
Proof.
  intros H. destruct (findall_sound _ _ _ H) as [t [Ht Hc]].
  unfold Regex.masspct in Ht.
  apply text_of_Lit in Ht as [t1 [Ht ->]].
  apply text_of_Grp in Ht as [e [caps1 [t2 [-> [He [Ht ->]]]]]].
  apply text_of_Lit in Ht as [t3 [Ht ->]].
  apply text_of_Grp in Ht as [p [caps2 [t4 [-> [Hp [Ht ->]]]]]].
  apply text_of_nil in Ht as [-> ->].
  exists e, p. repeat split; try assumption.
  rewrite app_nil_r, <- !list_ascii_of_string_app, string_of_list_ascii_of_string in Hc.
  exact Hc.
Qed.

Lemma gram_sound (c : string) (caps : list string) :
  In caps (Re.findall Regex.gram c) ->
  exists e p,
    caps = [e; p] /\ name Re.Word e = true /\ name Re.WordHash p = true
    /\ contains ("Amount of " ++ e ++ " in " ++ p ++ " [g]") c.
Proof.
  intros H. destruct (findall_sound _ _ _ H) as [t [Ht Hc]].
  unfold Regex.gram in Ht.
  apply text_of_Lit in Ht as [t1 [Ht ->]].
  apply text_of_Grp in Ht as [e [caps1 [t2 [-> [He [Ht ->]]]]]].
  apply text_of_Lit in Ht as [t3 [Ht ->]].
  apply text_of_Grp in Ht as [p [caps2 [t4 [-> [Hp [Ht ->]]]]]].
  apply text_of_Lit in Ht as [t5 [Ht ->]].
  apply text_of_nil in Ht as [-> ->].
  exists e, p. repeat split; try assumption.
  rewrite app_nil_r, <- !list_ascii_of_string_app, string_of_list_ascii_of_string in Hc.
  exact Hc.
Qed.

Lemma phase_mol_sound (c : string) (caps : list string) :
  In caps (Re.findall Regex.phase_mol c) ->
  exists p,
    caps = [p] /\ name Re.WordHash p = true
    /\ contains ("Amount of " ++ p ++ " [mol]") c.
Proof.
  intros H. destruct (findall_sound _ _ _ H) as [t [Ht Hc]].
  unfold Regex.phase_mol in Ht.
  apply text_of_Lit in Ht as [t1 [Ht ->]].
  apply text_of_Grp in Ht as [p [caps2 [t4 [-> [Hp [Ht ->]]]]]].
  apply text_of_Lit in Ht as [t5 [Ht ->]].
  apply text_of_nil in Ht as [-> ->].
  exists p. repeat split; try assumption.
  rewrite app_nil_r, <- !list_ascii_of_string_app, string_of_list_ascii_of_string in Hc.
  exact Hc.
Qed.

Lemma parse_element_content_contains (c e p : string) :
  parse_element_content c = Some (e, p) ->
  name Re.Word e = true /\ name Re.WordHash p = true
  /\ (contains ("Mass percent of " ++ e ++ " in " ++ p) c
      \/ contains ("Amount of " ++ e ++ " in " ++ p ++ " [g]") c).
Proof.
  unfold parse_element_content, Re.findall2.
  destruct (Re.findall Regex.masspct c) as [| caps l] eqn:E1; cbn [map].
  - destruct (Re.findall Regex.gram c) as [| caps l] eqn:E2; cbn [map]; [discriminate |].
    destruct (gram_sound c caps) as [e' [p' [-> [He [Hp Hc]]]]];
      [rewrite E2; now left |].
    intros [= <- <-]. now repeat split; [| | right].
  - destruct (masspct_sound c caps) as [e' [p' [-> [He [Hp Hc]]]]];
      [rewrite E1; now left |].
    intros [= <- <-]. now repeat split; [| | left].
Qed.

Lemma parse_phase_fraction_contains (c p : string) :
  parse_phase_fraction c = Some p ->
  name Re.WordHash p = true /\ contains ("Amount of " ++ p ++ " [mol]") c.
Proof.
  unfold parse_phase_fraction, Re.findall1.
  destruct (Re.findall Regex.phase_mol c) as [| caps l] eqn:E1; cbn [map]; [discriminate |].
  destruct (phase_mol_sound c caps) as [p' [-> [Hp Hc]]]; [rewrite E1; now left |].
  intros [= <-]. now split.
Qed.

(** What the two parsers return.  The element that [parse_element_content]
    returns is a non-empty word and the phase a non-empty word that may hold
    the character #, and the header holds the text of one of the two element
    patterns with these two names; the phase of [parse_phase_fraction] is
    such a name, and the header holds [Amount of <phase> [mol]].  A name is
    therefore never the empty string, which is the one entry of the default
    list of skipped phases. *)
Theorem parsers_sound :
  forall c : string,
    (forall e p,
        parse_element_content c = Some (e, p) ->
        name Re.Word e = true /\ name Re.WordHash p = true
        /\ mem p [""] = false
        /\ (contains ("Mass percent of " ++ e ++ " in " ++ p) c
            \/ contains ("Amount of " ++ e ++ " in " ++ p ++ " [g]") c))
    /\ (forall p,
           parse_phase_fraction c = Some p ->
           name Re.WordHash p = true /\ contains ("Amount of " ++ p ++ " [mol]") c).
Proof.
  intros c. split.
  - intros e p H. destruct (parse_element_content_contains c e p H) as [He [Hp Hc]].
    repeat split; try assumption.
    unfold name in Hp. apply andb_prop in Hp as [Hp _].
    unfold mem. cbn [existsb]. rewrite orb_false_r.
    destruct p; [discriminate | reflexivity].
  - intros p. apply parse_phase_fraction_contains.
Qed.

Lemma parsers_sound_witness :
  name Re.Word "Cr" = true /\ name Re.WordHash "FCC_A1#2" = true
  /\ name Re.WordHash "LIQUID" = true.
Proof.
  destruct (proj1 (parsers_sound "Mass percent of Cr in FCC_A1#2 (x)") "Cr" "FCC_A1#2"
              eq_refl) as [He [Hp _]].
  destruct (proj2 (parsers_sound "Amount of LIQUID [mol]") "LIQUID" eq_refl) as [Hl _].
  now repeat split.
Defined.

(** * The regular expressions: the headers of ThermoCalc *)

Lemma greedy_run (c : Re.cclass) (least : nat)
    (k : list ascii -> option (list string * nat)) (w rest : list ascii)
    (caps : list string) (n : nat) :
  forallb (Re.in_class c) w = true ->
  boundary c rest = true ->
  k rest = Some (caps, n) ->
  forall acc,
    least <= List.length acc + List.length w ->
    greedy c least k (w ++ rest) acc
    = Some (string_of_list_ascii (rev acc ++ w) :: caps,
            List.length acc + List.length w + n).
Proof.
  intros Hw Hb Hk. induction w as [| a w IH]; intros acc Hl.
  - simpl in Hl. rewrite Nat.add_0_r in Hl. apply Nat.leb_le in Hl.
    rewrite app_nil_r, Nat.add_0_r. simpl.
    destruct rest as [| b rest]; cbn [greedy].
    + now rewrite Hl, Hk.
    + cbn [boundary] in Hb. apply negb_true_iff in Hb. now rewrite Hb, Hl, Hk.
  - cbn [forallb] in Hw. apply andb_prop in Hw as [Ha Hw].
    cbn [app greedy]. rewrite Ha, (IH Hw (a :: acc)); [| simpl in *; lia].
    cbn [rev List.length]. rewrite <- app_assoc. cbn [app].
    do 2 f_equal. lia.
Qed.

Lemma greedy_dot_close (u : list ascii) :
  forallb (Re.in_class Re.Dot) u = true ->
  forall acc,
    greedy Re.Dot 0 (Re.match_here [Re.Lit "]"]) (u ++ ["]"%char]) acc
    = Some ([string_of_list_ascii (rev acc ++ u)], List.length acc + List.length u + 1).
Proof.
  induction u as [| a u IH]; intros Hu acc.
  - rewrite app_nil_r. cbn [app greedy]. simpl. do 2 f_equal. lia.
  - cbn [forallb] in Hu. apply andb_prop in Hu as [Ha Hu].
    cbn [app greedy]. rewrite Ha, (IH Hu (a :: acc)).
    cbn [rev List.length]. rewrite <- app_assoc. cbn [app].
    do 2 f_equal. lia.
Qed.

Lemma findall_from_skip (re : Re.regex) (s : list ascii) :
  forall k, List.length s <= k -> Re.findall_from re s k = [].
Proof.
  induction s as [| a s IH]; intros k H; [reflexivity |].
  simpl in H. destruct k as [| k]; [lia |]. cbn [Re.findall_from]. apply IH. lia.
Qed.

Lemma findall_whole (re : Re.regex) (s : list ascii) (caps : list string) (n : nat) :
  Re.match_here re s = Some (caps, n) -> 1 <= List.length s <= n ->
  Re.findall_from re s 0 = [caps].
Proof.
  intros Hm Hl. destruct s as [| a s]; [simpl in Hl; lia |].
  cbn [Re.findall_from]. rewrite Hm. f_equal. apply findall_from_skip. simpl in Hl. lia.
Qed.

Lemma findall_nowhere (re : Re.regex) (s : list ascii) :
  nowhere re s = true -> forall k, Re.findall_from re s k = [].
Proof.
  induction s as [| a s IH]; intros H k; [reflexivity |].
  cbn [nowhere] in H. destruct (Re.match_here re (a :: s)) eqn:Em; [discriminate |].
  cbn [Re.findall_from]. rewrite Em. destruct k; now apply IH.
Qed.

Lemma nowhere_lit (l : string) (re' : Re.regex) (a0 : ascii) (l' lit rest : list ascii) :
  list_ascii_of_string l = a0 :: l' ->
  forallb (fun b => negb (Ascii.eqb a0 b)) lit = true ->
  nowhere (Re.Lit l :: re') rest = true ->
  nowhere (Re.Lit l :: re') (lit ++ rest) = true.
Proof.
  intros Hl Hlit Hrest. induction lit as [| b lit IH]; [exact Hrest |].
  cbn [forallb] in Hlit. apply andb_prop in Hlit as [Hb Hlit]. apply negb_true_iff in Hb.
  cbn [app nowhere]. rewrite match_here_Lit, Hl. cbn [Re.strip_prefix]. rewrite Hb.
  now apply IH.
Qed.

Lemma wordhash_not_space (a : ascii) :
  Re.in_class Re.WordHash a = true -> Ascii.eqb " " a = false /\ Ascii.eqb a " " = false.
Proof.
  intros H. split.
  - destruct (Ascii.eqb " " a) eqn:E; [| reflexivity].
    apply Ascii.eqb_eq in E. subst a. discriminate H.
  - destruct (Ascii.eqb a " ") eqn:E; [| reflexivity].
    apply Ascii.eqb_eq in E. subst a. discriminate H.
Qed.

Lemma word_wordhash (w : list ascii) :
  forallb (Re.in_class Re.Word) w = true -> forallb (Re.in_class Re.WordHash) w = true.
Proof.
  induction w as [| a w IH]; [reflexivity |]. simpl. intros H.
  apply andb_prop in H as [Ha Hw]. now rewrite Ha, (IH Hw).
Qed.

Lemma strip_prefix_word (l1 : list ascii) (x : ascii) (l2 : list ascii) :
  forallb (fun b => negb (Ascii.eqb b " ")) l1 = true ->
  forall w rest,
    forallb (Re.in_class Re.WordHash) w = true ->
    follow x rest = true ->
    Re.strip_prefix (l1 ++ " "%char :: x :: l2) (w ++ rest) = None.
Proof.
  induction l1 as [| b l1 IH]; intros Hl1 w rest Hw Hf.
  - destruct w as [| a w]; cbn [app].
    + destruct rest as [| a r]; [reflexivity |]. cbn [Re.strip_prefix].
      destruct (Ascii.eqb " " a); [| reflexivity].
      cbn [follow] in Hf. apply andb_prop in Hf as [_ Hf].
      destruct r as [| y r]; [reflexivity |]. cbn [Re.strip_prefix].
      apply negb_true_iff in Hf. now rewrite Hf.
    + cbn [forallb] in Hw. apply andb_prop in Hw as [Ha _].
      cbn [Re.strip_prefix]. now rewrite (proj1 (wordhash_not_space a Ha)).
  - cbn [forallb] in Hl1. apply andb_prop in Hl1 as [Hb Hl1]. apply negb_true_iff in Hb.
    destruct w as [| a w]; cbn [app].
    + destruct rest as [| a r]; [reflexivity |]. cbn [Re.strip_prefix].
      cbn [follow] in Hf. apply andb_prop in Hf as [Ha _]. apply Ascii.eqb_eq in Ha. subst a.
      now rewrite Hb.
    + cbn [forallb] in Hw. apply andb_prop in Hw as [_ Hw].
      cbn [Re.strip_prefix]. destruct (Ascii.eqb b a); [| reflexivity].
      now apply IH.
Qed.

Lemma nowhere_word (l : string) (re' : Re.regex) (l1 : list ascii) (x : ascii)
    (l2 w rest : list ascii) :
  list_ascii_of_string l = (l1 ++ " "%char :: x :: l2)%list ->
  forallb (fun b => negb (Ascii.eqb b " ")) l1 = true ->
  forallb (Re.in_class Re.WordHash) w = true ->
  follow x rest = true ->
  nowhere (Re.Lit l :: re') rest = true ->
  nowhere (Re.Lit l :: re') (w ++ rest) = true.
Proof.
  intros Hl Hl1 Hw Hf Hrest. induction w as [| a w IH]; [exact Hrest |].
  cbn [app nowhere]. rewrite match_here_Lit, Hl.
  change (a :: (w ++ rest))%list with ((a :: w) ++ rest)%list.
  rewrite (strip_prefix_word l1 x l2 Hl1 (a :: w) rest Hw Hf).
  cbn [forallb] in Hw. apply andb_prop in Hw as [_ Hw]. now apply IH.
Qed.

Lemma greedy_word_fail (c : Re.cclass) (least : nat) (l : string) (re' : Re.regex)
    (l' w rest : list ascii) :
  list_ascii_of_string l = " "%char :: l' ->
  forallb (Re.in_class Re.WordHash) w = true ->
  boundary c rest = true ->
  Re.match_here (Re.Lit l :: re') rest = None ->
  forall acc,
    greedy c least (Re.match_here (Re.Lit l :: re')) (w ++ rest) acc = None.
Proof.
  intros Hl Hw Hb Hk. induction w as [| a w IH]; intros acc.
  - cbn [app]. destruct rest as [| b rest]; cbn [greedy].
    + rewrite Hk. now destruct (least <=? List.length acc).
    + cbn [boundary] in Hb. apply negb_true_iff in Hb. rewrite Hb, Hk.
      now destruct (least <=? List.length acc).
  - cbn [forallb] in Hw. apply andb_prop in Hw as [Ha Hw].
    assert (Hka : Re.match_here (Re.Lit l :: re') (a :: w ++ rest) = None).
    { rewrite match_here_Lit, Hl. cbn [Re.strip_prefix].
      now rewrite (proj1 (wordhash_not_space a Ha)). }
    cbn [app greedy]. rewrite (IH Hw), Hka.
    destruct (Re.in_class c a); now destruct (least <=? List.length acc).
Qed.

Lemma name_chars (c : Re.cclass) (s : string) :
  name c s = true ->
  forallb (Re.in_class c) (list_ascii_of_string s) = true
  /\ 1 <= List.length (list_ascii_of_string s).
Proof.
  unfold name. intros H. apply andb_prop in H as [Hn Hc]. split; [exact Hc |].
  destruct s; [discriminate | simpl; lia].
Qed.

Section Headers.

Variables e p : string.
Hypothesis He : name Re.Word e = true.
Hypothesis Hp : name Re.WordHash p = true.

Let le := list_ascii_of_string e.
Let lp := list_ascii_of_string p.

Lemma group_at_end (c : Re.cclass) (s : string) :
  name c s = true ->
  Re.match_here [Re.Grp c 1] (list_ascii_of_string s)
  = Some ([s], String.length s).
Proof.
  intros H. destruct (name_chars c s H) as [Hc Hl].
  rewrite match_here_Grp, <- (app_nil_r (list_ascii_of_string s)).
  rewrite (greedy_run c 1 _ (list_ascii_of_string s) [] [] 0 Hc eq_refl eq_refl [] Hl).
  cbn [rev app List.length].
  rewrite string_of_list_ascii_of_string, length_list_ascii_of_string, Nat.add_0_r.
  reflexivity.
Qed.

Lemma group_before (c : Re.cclass) (s l : string) (re' : Re.regex) (l' rest : list ascii)
    (caps : list string) (n : nat) :
  name c s = true ->
  Re.in_class c " " = false ->
  list_ascii_of_string l = " "%char :: l' ->
  Re.match_here (Re.Lit l :: re') (list_ascii_of_string l ++ rest) = Some (caps, n) ->
  Re.match_here (Re.Grp c 1 :: Re.Lit l :: re')
    (list_ascii_of_string s ++ list_ascii_of_string l ++ rest)
  = Some (s :: caps, String.length s + n).
Proof.
  intros H Hsp Hl Hk. destruct (name_chars c s H) as [Hc Hlen].
  rewrite match_here_Grp.
  rewrite (greedy_run c 1 _ (list_ascii_of_string s) (list_ascii_of_string l ++ rest)
             caps n Hc); [| | exact Hk | exact Hlen].
  - cbn [rev app List.length].
    now rewrite string_of_list_ascii_of_string, length_list_ascii_of_string.
  - rewrite Hl. cbn [app boundary]. now rewrite Hsp.
Qed.

Lemma literal_before (l : string) (re' : Re.regex) (rest : list ascii)
    (caps : list string) (n : nat) :
  Re.match_here re' rest = Some (caps, n) ->
  Re.match_here (Re.Lit l :: re') (list_ascii_of_string l ++ rest)
  = Some (caps, String.length l + n).
Proof. intros H. now rewrite match_here_Lit, strip_prefix_app, H. Qed.

Lemma findall_masspct_header :
  Re.findall Regex.masspct ("Mass percent of " ++ e ++ " in " ++ p) = [[e; p]].
Proof.
  unfold Re.findall. rewrite !list_ascii_of_string_app.
  eapply findall_whole.
  - unfold Regex.masspct. apply literal_before.
    eapply group_before; [exact He | reflexivity | reflexivity |].
    apply literal_before. apply (group_at_end _ _ Hp).
  - rewrite !length_app, !length_list_ascii_of_string. simpl. lia.
Qed.

Lemma findall_gram_header :
  Re.findall Regex.gram ("Amount of " ++ e ++ " in " ++ p ++ " [g]") = [[e; p]].
Proof.
  unfold Re.findall. rewrite !list_ascii_of_string_app.
  eapply findall_whole.
  - unfold Regex.gram. apply literal_before.
    eapply group_before; [exact He | reflexivity | reflexivity |].
    apply literal_before.
    rewrite <- (app_nil_r (list_ascii_of_string " [g]")).
    eapply group_before; [exact Hp | reflexivity | reflexivity |].
    apply literal_before. reflexivity.
  - rewrite !length_app, !length_list_ascii_of_string. simpl. lia.
Qed.

Lemma findall_phase_header :
  Re.findall Regex.phase_mol ("Amount of " ++ p ++ " [mol]") = [[p]].
Proof.
  unfold Re.findall. rewrite !list_ascii_of_string_app.
  eapply findall_whole.
  - unfold Regex.phase_mol. apply literal_before.
    rewrite <- (app_nil_r (list_ascii_of_string " [mol]")).
    eapply group_before; [exact Hp | reflexivity | reflexivity |].
    apply literal_before. reflexivity.
  - rewrite !length_app, !length_list_ascii_of_string. simpl. lia.
Qed.

Let He' : forallb (Re.in_class Re.WordHash) le = true :=
  word_wordhash _ (proj1 (name_chars _ _ He)).
Let Hp' : forallb (Re.in_class Re.WordHash) lp = true := proj1 (name_chars _ _ Hp).

Lemma masspct_not_in_gram_header :
  Re.findall Regex.masspct ("Amount of " ++ e ++ " in " ++ p ++ " [g]") = [].
Proof.
  unfold Re.findall. rewrite !list_ascii_of_string_app. apply findall_nowhere.
  unfold Regex.masspct.
  eapply nowhere_lit; [reflexivity | reflexivity |].
  eapply nowhere_word with (l1 := list_ascii_of_string "Mass") (x := "p"%char);
    [reflexivity | reflexivity | exact He' | reflexivity |].
  eapply nowhere_lit; [reflexivity | reflexivity |].
  eapply nowhere_word with (l1 := list_ascii_of_string "Mass") (x := "p"%char);
    [reflexivity | reflexivity | exact Hp' | reflexivity |].
  reflexivity.
Qed.

Lemma masspct_not_in_phase_header :
  Re.findall Regex.masspct ("Amount of " ++ p ++ " [mol]") = [].
Proof.
  unfold Re.findall. rewrite !list_ascii_of_string_app. apply findall_nowhere.
  unfold Regex.masspct.
  eapply nowhere_lit; [reflexivity | reflexivity |].
  eapply nowhere_word with (l1 := list_ascii_of_string "Mass") (x := "p"%char);
    [reflexivity | reflexivity | exact Hp' | reflexivity |].
  reflexivity.
Qed.

Lemma phase_mol_not_in_masspct_header :
  Re.findall Regex.phase_mol ("Mass percent of " ++ e ++ " in " ++ p) = [].
Proof.
  unfold Re.findall. rewrite !list_ascii_of_string_app. apply findall_nowhere.
  unfold Regex.phase_mol.
  eapply nowhere_lit; [reflexivity | reflexivity |].
  eapply nowhere_word with (l1 := list_ascii_of_string "Amount") (x := "o"%char);
    [reflexivity | reflexivity | exact He' | reflexivity |].
  eapply nowhere_lit; [reflexivity | reflexivity |].
  rewrite <- (app_nil_r (list_ascii_of_string p)).
  eapply nowhere_word with (l1 := list_ascii_of_string "Amount") (x := "o"%char);
    [reflexivity | reflexivity | exact Hp' | reflexivity |].
  reflexivity.
Qed.

(** At the start of a header of the other kind, where the literal
    [Amount of] stands, the group that follows takes the name and the rest
    of the pattern does not go on. *)
Lemma nowhere_from_start (l : string) (c : Re.cclass) (l2 : string) (re' : Re.regex)
    (l2' w rest : list ascii) :
  list_ascii_of_string l = ("A"%char :: list_ascii_of_string "mount of ")%list ->
  list_ascii_of_string l2 = " "%char :: l2' ->
  forallb (Re.in_class Re.WordHash) w = true ->
  boundary c rest = true ->
  follow "o" rest = true ->
  Re.match_here (Re.Lit l2 :: re') rest = None ->
  nowhere (Re.Lit l :: Re.Grp c 1 :: Re.Lit l2 :: re') rest = true ->
  nowhere (Re.Lit l :: Re.Grp c 1 :: Re.Lit l2 :: re')
    (list_ascii_of_string "Amount of " ++ w ++ rest) = true.
Proof.
  intros Hl Hl2 Hw Hb Hf Hk Hrest.
  change (list_ascii_of_string "Amount of " ++ w ++ rest)%list
    with ("A"%char :: list_ascii_of_string "mount of " ++ w ++ rest)%list.
  cbn [nowhere].
  assert (Hm : Re.match_here (Re.Lit l :: Re.Grp c 1 :: Re.Lit l2 :: re')
                 ("A"%char :: list_ascii_of_string "mount of " ++ w ++ rest) = None).
  { rewrite match_here_Lit, Hl.
    change ("A"%char :: list_ascii_of_string "mount of " ++ w ++ rest)%list
      with (("A"%char :: list_ascii_of_string "mount of ") ++ w ++ rest)%list.
    rewrite strip_prefix_app, match_here_Grp.
    now rewrite (greedy_word_fail c 1 l2 re' l2' w rest Hl2 Hw Hb Hk). }
  rewrite Hm.
  apply (nowhere_lit l _ "A"%char (list_ascii_of_string "mount of ")
           (list_ascii_of_string "mount of ") _ Hl eq_refl).
  apply (nowhere_word l _ (list_ascii_of_string "Amount") "o"%char
           (list_ascii_of_string "f ") w rest Hl eq_refl Hw Hf).
  exact Hrest.
Qed.

Lemma gram_not_in_phase_header :
  Re.findall Regex.gram ("Amount of " ++ p ++ " [mol]") = [].
Proof.
  unfold Re.findall. rewrite !list_ascii_of_string_app. apply findall_nowhere.
  unfold Regex.gram.
  eapply nowhere_from_start;
    [reflexivity | reflexivity | exact Hp' | reflexivity | reflexivity | reflexivity |].
  reflexivity.
Qed.

Lemma phase_mol_not_in_gram_header :
  Re.findall Regex.phase_mol ("Amount of " ++ e ++ " in " ++ p ++ " [g]") = [].
Proof.
  unfold Re.findall. rewrite !list_ascii_of_string_app. apply findall_nowhere.
  unfold Regex.phase_mol.
  eapply nowhere_from_start;
    [reflexivity | reflexivity | exact He' | reflexivity | reflexivity | reflexivity |].
  eapply nowhere_lit; [reflexivity | reflexivity |].
  eapply nowhere_word with (l1 := list_ascii_of_string "Amount") (x := "o"%char);
    [reflexivity | reflexivity | exact Hp' | reflexivity |].
  reflexivity.
Qed.

End Headers.

Lemma findall_temperature_header (u : string) :
  forallb (Re.in_class Re.Dot) (list_ascii_of_string u) = true ->
  Re.findall Regex.temperature ("Temperature [" ++ u ++ "]") = [[u]].
Proof.
  intros Hu. unfold Re.findall. rewrite !list_ascii_of_string_app.
  eapply findall_whole.
  - unfold Regex.temperature. apply literal_before.
    rewrite match_here_Grp.
    change (list_ascii_of_string "]") with ["]"%char].
    rewrite (greedy_dot_close _ Hu []). cbn [rev app List.length].
    now rewrite string_of_list_ascii_of_string.
  - rewrite !length_app. simpl. lia.
Qed.

(** The headers that ThermoCalc writes are read back.  For an element name
    of word characters and a phase name of word characters and #, both not
    empty, each of the three kinds of header gives back the names it was
    made of; and the unit of the temperature header, any text without a
    line break, is the one string that [findall] returns. *)
Theorem headers_parsed :
  forall e p u : string,
    name Re.Word e = true ->
    name Re.WordHash p = true ->
    forallb (Re.in_class Re.Dot) (list_ascii_of_string u) = true ->
    parse_element_content ("Mass percent of " ++ e ++ " in " ++ p) = Some (e, p)
    /\ parse_element_content ("Amount of " ++ e ++ " in " ++ p ++ " [g]") = Some (e, p)
    /\ parse_phase_fraction ("Amount of " ++ p ++ " [mol]") = Some p
    /\ Re.findall1 Regex.temperature ("Temperature [" ++ u ++ "]") = [u].
Proof.
  intros e p u He Hp Hu. split; [| split; [| split]].
  - unfold parse_element_content, Re.findall2.
    now rewrite (findall_masspct_header e p He Hp).
  - unfold parse_element_content, Re.findall2.
    now rewrite (masspct_not_in_gram_header e p He Hp), (findall_gram_header e p He Hp).
  - unfold parse_phase_fraction, Re.findall1.
    now rewrite (findall_phase_header p Hp).
  - unfold Re.findall1. now rewrite (findall_temperature_header u Hu).
Qed.

Lemma headers_parsed_witness :
  parse_element_content "Mass percent of Cr in FCC_A1#2" = Some ("Cr", "FCC_A1#2")
  /\ parse_element_content "Amount of Cr in FCC_A1#2 [g]" = Some ("Cr", "FCC_A1#2")
  /\ parse_phase_fraction "Amount of FCC_A1#2 [mol]" = Some "FCC_A1#2"
  /\ Re.findall1 Regex.temperature "Temperature [K]" = ["K"].
Proof.
  exact (headers_parsed "Cr" "FCC_A1#2" "K" eq_refl eq_refl eq_refl).
Defined.

(** The three kinds of header are kept apart.  A header of an element
    content, in mass percent or in grams, is no header of a phase amount,
    and a header of a phase amount is no header of an element content: no
    column of such a table is read as both. *)
Theorem header_kinds_apart :
  forall e p : string,
    name Re.Word e = true ->
    name Re.WordHash p = true ->
    parse_phase_fraction ("Mass percent of " ++ e ++ " in " ++ p) = None
    /\ parse_phase_fraction ("Amount of " ++ e ++ " in " ++ p ++ " [g]") = None
    /\ parse_element_content ("Amount of " ++ p ++ " [mol]") = None.
Proof.
  intros e p He Hp. split; [| split].
  - unfold parse_phase_fraction, Re.findall1.
    now rewrite (phase_mol_not_in_masspct_header e p He Hp).
  - unfold parse_phase_fraction, Re.findall1.
    now rewrite (phase_mol_not_in_gram_header e p He Hp).
  - unfold parse_element_content, Re.findall2.
    now rewrite (masspct_not_in_phase_header p Hp), (gram_not_in_phase_header p Hp).
Qed.

Lemma header_kinds_apart_witness :
  parse_phase_fraction "Mass percent of Cr in LIQUID" = None
  /\ parse_phase_fraction "Amount of Cr in LIQUID [g]" = None
  /\ parse_element_content "Amount of LIQUID [mol]" = None.
Proof.
  exact (header_kinds_apart "Cr" "LIQUID" eq_refl eq_refl).
Defined.

(** * The grid of the figure (steps 6 and 7) *)

Lemma Ncols_double (nfigs : nat) :
  2 * Ncols nfigs = nfigs + (if Nat.odd nfigs then 1 else 0).
Proof.
  unfold Ncols.
  pose proof (Nat.div_mod_eq (nfigs + 1) 2) as Hd.
  pose proof (Nat.mod_upper_bound (nfigs + 1) 2 ltac:(lia)) as Hm.
  destruct (Nat.odd nfigs) eqn:Ho.
  - apply Nat.odd_spec in Ho as [k Hk]. subst nfigs.
    replace (2 * k + 1 + 1) with ((k + 1) * 2) in * by lia.
    rewrite Nat.div_mul; lia.
  - assert (He : Nat.even nfigs = true)
      by (rewrite <- Nat.negb_odd, Ho; reflexivity).
    apply Nat.even_spec in He as [k Hk]. subst nfigs.
    replace (2 * k + 1) with (1 + k * 2) in * by lia.
    rewrite Nat.div_add; simpl; lia.
Qed.

Lemma axis_cell (nfigs n : nat) :
  n < 2 * Ncols nfigs ->
  axis (Ncols nfigs) n = Ok (n / Ncols nfigs, n mod Ncols nfigs)
  /\ n / Ncols nfigs < 2
  /\ n mod Ncols nfigs < Ncols nfigs
  /\ n = (n / Ncols nfigs) * Ncols nfigs + n mod Ncols nfigs.
Proof.
  intros H. assert (Hpos : Ncols nfigs <> 0) by lia.
  unfold axis. destruct (Ncols nfigs =? 0) eqn:E; [apply Nat.eqb_eq in E; lia |].
  split; [reflexivity | split; [| split]].
  - apply Nat.Div0.div_lt_upper_bound. lia.
  - now apply Nat.mod_upper_bound.
  - pose proof (Nat.div_mod_eq n (Ncols nfigs)). lia.
Qed.

Lemma list_index_In (x : string) (l : list string) :
  In x l ->
  exists k, list_index x l = Ok k /\ k < List.length l /\ nth k l "" = x.
Proof.
  induction l as [| y l IH]; [intros [] |]. intros H. cbn [list_index].
  destruct (String.eqb x y) eqn:E.
  - apply String.eqb_eq in E. subst y. exists 0. simpl. repeat split. lia.
  - destruct H as [-> | H]; [now rewrite String.eqb_refl in E |].
    destruct (IH H) as [k [Hk [Hlt Hn]]]. exists (S k). rewrite Hk. simpl.
    repeat split; [lia | exact Hn].
Qed.



(** * The list of skipped phases *)

Lemma split_nonempty (sep : ascii) (s : string) : split sep s <> [].
Proof.
  induction s as [| a s IH]; simpl; [discriminate |].
  destruct (Ascii.eqb a sep); [discriminate |].
  destruct (split sep s); [contradiction | discriminate].
Qed.

Lemma split_concat (sep : ascii) (s : string) :
  String.concat (String sep "") (split sep s) = s.
Proof.
  induction s as [| a s IH]; [reflexivity |]. cbn [split].
  pose proof (split_nonempty sep s) as Hne.
  destruct (Ascii.eqb a sep) eqn:E.
  - apply Ascii.eqb_eq in E. subst a.
    destruct (split sep s) as [| w ws]; [contradiction |].
    change (String.concat (String sep "") ("" :: w :: ws))
      with (String sep (String.concat (String sep "") (w :: ws))).
    now rewrite IH.
  - destruct (split sep s) as [| w ws]; [contradiction |].
    destruct ws as [| w' ws].
    + simpl in *. now subst.
    + change (String.concat (String sep "") (String a w :: w' :: ws))
        with (String a (String.concat (String sep "") (w :: w' :: ws))).
      now rewrite IH.
Qed.

Lemma split_pieces (sep : ascii) (s : string) :
  Forall (fun w => has_char sep w = false) (split sep s).
Proof.
  induction s as [| a s IH]; cbn [split]; [now constructor |].
  destruct (Ascii.eqb a sep) eqn:E; [now constructor |].
  destruct (split sep s) as [| w ws]; [now constructor; [simpl; rewrite E |] |].
  inversion IH as [| ? ? Hw Hws]; subst. constructor; [| exact Hws].
  cbn [has_char]. now rewrite E, Hw.
Qed.

Lemma split_piece (sep : ascii) (w : string) :
  has_char sep w = false -> split sep w = [w].
Proof.
  induction w as [| a w IH]; [reflexivity |]. cbn [has_char split]. intros H.
  apply orb_false_iff in H as [Ha Hw]. now rewrite Ha, (IH Hw).
Qed.

Lemma split_append (sep : ascii) (w rest : string) :
  has_char sep w = false ->
  split sep (w ++ String sep rest) = w :: split sep rest.
Proof.
  induction w as [| a w IH]; cbn [has_char]; intros H.
  - cbn [String.append split]. now rewrite Ascii.eqb_refl.
  - apply orb_false_iff in H as [Ha Hw]. cbn [String.append split].
    now rewrite Ha, (IH Hw).
Qed.

Lemma name_no_comma (p : string) : name Re.WordHash p = true -> has_char "," p = false.
Proof.
  unfold name. intros H. apply andb_prop in H as [_ H].
  induction p as [| a p IH]; [reflexivity |].
  cbn [list_ascii_of_string forallb] in H. apply andb_prop in H as [Ha Hp].
  cbn [has_char]. rewrite (IH Hp), orb_false_r.
  destruct (Ascii.eqb a ",") eqn:E; [| reflexivity].
  apply Ascii.eqb_eq in E. subst a. discriminate Ha.
Qed.

(** The words of [--skip-phases].  Splitting at the commas loses nothing:
    the words joined by commas are the argument, there is always a word, and
    no word holds a comma.  A list of phase names written with commas
    between them is read back as that list, phase names holding no comma. *)
Theorem skip_phases_words :
  (forall s : string,
      String.concat "," (str2words s) = s
      /\ str2words s <> []
      /\ Forall (fun w => has_char "," w = false) (str2words s))
  /\ (forall (p : string) (ps : list string),
         Forall (fun w => name Re.WordHash w = true) (p :: ps) ->
         str2words (String.concat "," (p :: ps)) = p :: ps).
Proof.
  split.
  - intros s. unfold str2words.
    split; [apply split_concat | split; [apply split_nonempty | apply split_pieces]].
  - intros p ps. revert p. unfold str2words.
    induction ps as [| q ps IH]; intros p H.
    + inversion H as [| ? ? Hp _]; subst. cbn [String.concat].
      apply split_piece. now apply name_no_comma.
    + inversion H as [| ? ? Hp Hps]; subst.
      change (String.concat "," (p :: q :: ps))
        with (p ++ String "," (String.concat "," (q :: ps)))%string.
      rewrite split_append; [| now apply name_no_comma]. now rewrite (IH q Hps).
Qed.

Lemma skip_phases_words_witness :
  str2words "LIQUID,FCC_A1#2" = ["LIQUID"; "FCC_A1#2"].
Proof.
  apply (proj2 skip_phases_words "LIQUID" ["FCC_A1#2"]).
  repeat constructor.
Defined.

(** * The window of step 3 *)

Lemma SFcompare_refl (x : SpecFloat.spec_float) :
  SpecFloat.SFcompare x x = Some Eq \/ x = SpecFloat.S754_nan.
Proof.
  destruct x as [s | s | | s m e]; simpl.
  - now left.
  - left. now destruct s.
  - now right.
  - left. rewrite Z.compare_refl, Pos.compare_refl. now destruct s.
Qed.

Lemma isnan_spec (x : float) :
  isnan x = true -> FloatOps.Prim2SF x = SpecFloat.S754_nan.
Proof.
  unfold isnan, PrimFloat.is_nan. rewrite FloatAxioms.eqb_spec. unfold SpecFloat.SFeqb.
  destruct (SFcompare_refl (FloatOps.Prim2SF x)) as [-> | H]; [discriminate | now intros _].
Qed.

Lemma ltb_nan (x y : float) :
  isnan x = true \/ isnan y = true -> (x <? y)%float = false.
Proof.
  rewrite FloatAxioms.ltb_spec. unfold SpecFloat.SFltb.
  intros [H | H]; apply isnan_spec in H; rewrite H.
  - reflexivity.
  - now destruct (FloatOps.Prim2SF x).
Qed.

Lemma ltb_irrefl (x : float) : (x <? x)%float = false.
Proof.
  rewrite FloatAxioms.ltb_spec. unfold SpecFloat.SFltb.
  destruct (SFcompare_refl (FloatOps.Prim2SF x)) as [-> | ->]; reflexivity.
Qed.

Lemma ltb_neq (x y : float) : (x <? y)%float = true -> (x =? y)%float = false.
Proof.
  rewrite FloatAxioms.ltb_spec, FloatAxioms.eqb_spec.
  unfold SpecFloat.SFltb, SpecFloat.SFeqb.
  now destruct (SpecFloat.SFcompare _ _) as [[] |].
Qed.

(** Step 3 keeps, in their order, the rows whose temperature lies strictly
    inside the window, and the width of the table.  A row at the lower or
    at the upper bound itself is dropped, and so is a row without a
    temperature; when a bound of the window is NaN no row is left.
    Filtering twice is filtering once. *)
Theorem filter_window_rows :
  forall (T : Range) (a : ndarray),
    ncols (filter_window T a) = ncols a
    /\ (forall r, In r (rows (filter_window T a)) <->
                  In r (rows a)
                  /\ (rmin T <? cell r 0)%float = true
                  /\ (cell r 0 <? rmax T)%float = true)
    /\ (forall r, In r (rows (filter_window T a)) ->
                  isnan (cell r 0) = false
                  /\ (rmin T =? cell r 0)%float = false
                  /\ (cell r 0 =? rmax T)%float = false)
    /\ (isnan (rmin T) = true \/ isnan (rmax T) = true ->
        rows (filter_window T a) = [])
    /\ filter_window T (filter_window T a) = filter_window T a.
Proof.
  intros T a.
  assert (Hin : forall r, In r (rows (filter_window T a)) <->
                          In r (rows a)
                          /\ (rmin T <? cell r 0)%float = true
                          /\ (cell r 0 <? rmax T)%float = true).
  { intros r. unfold filter_window. cbn [rows]. rewrite filter_In, andb_true_iff.
    reflexivity. }
  split; [reflexivity | split; [exact Hin | split; [| split]]].
  - intros r Hr. apply Hin in Hr as [_ [Hlo Hhi]].
    split; [| split].
    + destruct (isnan (cell r 0)) eqn:E; [| reflexivity].
      rewrite ltb_nan in Hhi; [discriminate | now left].
    + now apply ltb_neq.
    + now apply ltb_neq.
  - intros Hnan. clear Hin. unfold filter_window. cbn [rows].
    induction (rows a) as [| r rs IH]; [reflexivity |]. cbn [filter].
    destruct Hnan as [H | H].
    + rewrite (ltb_nan (rmin T) (cell r 0)); [| now left]. exact IH.
    + rewrite (ltb_nan (cell r 0) (rmax T)); [| now right].
      rewrite andb_false_r. exact IH.
  - clear Hin. unfold filter_window. cbn [rows ncols]. f_equal.
    induction (rows a) as [| r rs IH]; [reflexivity |]. cbn [filter].
    destruct ((rmin T <? cell r 0)%float && (cell r 0 <? rmax T)%float) eqn:E.
    + cbn [filter]. now rewrite E, IH.
    + exact IH.
Qed.

(** * The loop of step 2 over any header *)

Lemma rbind_inv {A B} (x : run A) (f : A -> run B) (b : B) :
  result (rbind x f) = Ok b ->
  exists a,
    result x = Ok a /\ result (f a) = Ok b
    /\ output (rbind x f) = (output x ++ output (f a))%list.
Proof.
  destruct x as [out [a | e]]; simpl; [| discriminate].
  destruct (f a) as [out' r] eqn:E. simpl. intros ->. exists a. rewrite E.
  now repeat split.
Qed.

Lemma convert_temperature_kelvin (c : string) (st : interval_state) :
  convert_temperature c st
  = if kelvin c then st
    else mk_state (add_kelvin (st_data st)) (st_T st) (st_T0 st) (st_plot st).
Proof.
  unfold convert_temperature, kelvin.
  destruct (Re.findall1 Regex.temperature c) as [| u us]; [reflexivity |].
  now destruct (mem "C" (u :: us)).
Qed.

Lemma analyze_phase_summary (args : Args) (i : nat) (c : string) (st st' : interval_state) :
  result (analyze_phase args i c st) = Ok st' ->
  st_data st' = st_data st
  /\ st_plot st' = st_plot st || (args_phases args && is_phase_header c)
  /\ forallb solidus_line (output (analyze_phase args i c st)) = true
  /\ List.length (output (analyze_phase args i c st)) = (if is_liquid c then 1 else 0).
Proof.
  unfold analyze_phase, is_phase_header, is_liquid.
  destruct (parse_phase_fraction c) as [phase |].
  - assert (Hst : forall s : interval_state,
               s = (if args_phases args
                    then mk_state (st_data st) (st_T st) (st_T0 st) true else st) ->
               st_data s = st_data st
               /\ st_plot s = st_plot st || (args_phases args && true)).
    { intros s ->. destruct (args_phases args); simpl.
      - now rewrite orb_true_r.
      - now rewrite orb_false_r. }
    destruct (Hst _ eq_refl) as [Hd Hp].
    set (s := if args_phases args
              then mk_state (st_data st) (st_T st) (st_T0 st) true else st) in *.
    destruct (String.eqb phase "LIQUID").
    + destruct (solidus (st_data s) i) as [sol |]; [| discriminate].
      destruct (liquidus (st_data s) i) as [liq |]; [| discriminate].
      destruct (negb (args_manual args)); simpl; intros [= <-]; simpl; now repeat split.
    + simpl. intros [= <-]. now repeat split.
  - simpl. intros [= <-]. rewrite andb_false_r, orb_false_r. now repeat split.
Qed.

Lemma analyze_column_summary (args : Args) (i : nat) (c : string) (st st' : interval_state) :
  result (analyze_column args i c st) = Ok st' ->
  st_data st' = (if kelvin c then st_data st else add_kelvin (st_data st))
  /\ st_plot st' = st_plot st || (args_phases args && is_phase_header c)
  /\ forallb solidus_line (output (analyze_column args i c st)) = true
  /\ List.length (output (analyze_column args i c st)) = (if is_liquid c then 1 else 0).
Proof.
  unfold analyze_column. intros H.
  destruct (analyze_phase_summary _ _ _ _ _ H) as [Hd [Hp [Ho Hl]]].
  rewrite Hd, Hp. rewrite convert_temperature_kelvin in *.
  destruct (kelvin c); now repeat split.
Qed.

Lemma iter_add_kelvin (n : nat) (a : ndarray) :
  Nat.iter n add_kelvin (add_kelvin a) = add_kelvin (Nat.iter n add_kelvin a).
Proof. induction n as [| n IH]; simpl; [reflexivity | now rewrite IH]. Qed.

Lemma analyze_loop_summary (args : Args) (columns : list string) :
  forall k st st',
    result (for_enumerate (analyze_column args) k columns st) = Ok st' ->
    st_data st'
    = Nat.iter (List.length (filter (fun c => negb (kelvin c)) columns)) add_kelvin
        (st_data st)
    /\ st_plot st' = st_plot st || (args_phases args && existsb is_phase_header columns)
    /\ forallb solidus_line (output (for_enumerate (analyze_column args) k columns st)) = true
    /\ List.length (output (for_enumerate (analyze_column args) k columns st))
       = List.length (filter is_liquid columns).
Proof.
  induction columns as [| c cs IH]; intros k st st' H.
  - simpl in H. injection H as <-. simpl. rewrite andb_false_r, orb_false_r.
    now repeat split.
  - cbn [for_enumerate] in H |- *.
    apply rbind_inv in H as [st1 [H1 [H2 ->]]].
    destruct (analyze_column_summary _ _ _ _ _ H1) as [Hd1 [Hp1 [Ho1 Hl1]]].
    destruct (IH _ _ _ H2) as [Hd2 [Hp2 [Ho2 Hl2]]].
    split; [| split; [| split]].
    + rewrite Hd2, Hd1. cbn [filter]. destruct (kelvin c); cbn [negb]; [reflexivity |].
      cbn [List.length]. rewrite iter_add_kelvin. reflexivity.
    + rewrite Hp2, Hp1. cbn [existsb].
      destruct (st_plot st), (args_phases args), (is_phase_header c); reflexivity.
    + rewrite forallb_app, Ho1, Ho2. reflexivity.
    + rewrite length_app, Hl1, Hl2. cbn [filter].
      destruct (is_liquid c); reflexivity.
Qed.

(** Step 2 over any header, when it returns.  The temperatures have been
    raised by 273.15 once for every header that carries the unit C, so
    twice when two do; [plot_phases] is set when [--phases] is given and
    some header is the amount of a phase; and the lines printed are one
    line of solidus and liquidus for every header of the amount of LIQUID,
    and then the line of the window. *)
Theorem analyze_summary :
  forall (args : Args) (columns : list string) (data : ndarray)
         (st : interval_state) (T0 : float),
    result (analyze_phase_fractions args columns data) = Ok (st, T0) ->
    st_data st
    = Nat.iter (List.length (filter (fun c => negb (kelvin c)) columns)) add_kelvin data
    /\ st_plot st = args_phases args && existsb is_phase_header columns
    /\ exists out,
         output (analyze_phase_fractions args columns data)
         = (out ++ [PrintWindow (rmin (st_T st)) T0 (rmax (st_T st))])%list
         /\ forallb solidus_line out = true
         /\ List.length out = List.length (filter is_liquid columns).
Proof.
  intros args columns data st T0 H. rewrite analyze_phase_fractions_unfold in *.
  apply rbind_inv in H as [st1 [H1 [H ->]]]. simpl in H. injection H as <- <-.
  destruct (analyze_loop_summary _ _ _ _ _ H1) as [Hd [Hp [Ho Hl]]].
  split; [exact Hd | split; [exact Hp |]].
  exists (output (for_enumerate (analyze_column args) 0 columns
                    (mk_state data (args_T args) (args_T0 args) false))).
  split; [reflexivity | split; [exact Ho | exact Hl]].
Qed.

Lemma analyze_summary_witness :
  exists st T0,
    result (analyze_phase_fractions default_args
              ["Temperature [C]"; "Amount of LIQUID [mol]"; "Temperature [C]"]
              celsius_table) = Ok (st, T0)
    /\ st_data st = add_kelvin (add_kelvin celsius_table).
Proof.
  destruct (result (analyze_phase_fractions default_args
                      ["Temperature [C]"; "Amount of LIQUID [mol]"; "Temperature [C]"]
                      celsius_table)) as [[st T0] | e] eqn:E;
    [| vm_compute in E; discriminate E].
  exists st, T0. split; [reflexivity |].
  exact (proj1 (analyze_summary _ _ _ st T0 E)).
Defined.

(** * A run that returns *)

Lemma find_slopes_partition (U : list float -> list float -> outcome Spline)
    (args : Args) (T0 : float) (columns : list string) (data : ndarray)
    (phases : list string) (sums : dict (list float)) :
  forallb partition_line (output (find_slopes U args T0 columns data phases sums)) = true.
Proof.
  unfold find_slopes. apply for_enumerate_output. intros i c [C slopes].
  unfold fit_column.
  destruct (parse_element_content c) as [[elem phase] |]; [| reflexivity].
  destruct (String.eqb elem (args_base args) || negb (mem phase phases)); [reflexivity |].
  destruct (column i data); [| reflexivity]. simpl.
  destruct (dict_get phase sums); [| reflexivity]. simpl.
  destruct (0 <? count_true _); [| reflexivity].
  destruct (U _ _); [| reflexivity]. simpl.
  destruct (dict_set2 phase elem _ slopes); [| reflexivity]. simpl.
  destruct (dict_set2 phase elem _ C); reflexivity.
Qed.



(** * When step 8 returns, and what step 7 enters *)

Lemma entries_present {num} (C slopes : dict (dict num)) (phase elem : string) :
  lacks_entry C slopes phase elem = false ->
  exists e, entries C slopes phase elem = Ok e.
Proof.
  unfold lacks_entry, has_entry, entries. intros H. apply negb_false_iff in H.
  destruct (dict_get2 "LIQUID" elem slopes) as [mL |]; [| discriminate].
  destruct (dict_get2 phase elem slopes) as [mS |]; [| discriminate].
  destruct (dict_get2 "LIQUID" elem C) as [CL |]; [| discriminate].
  destruct (dict_get2 phase elem C) as [CS |]; [| discriminate].
  now exists (mL, mS, CL, CS).
Qed.

Lemma gather_present {num} (C slopes : dict (dict num)) (phase : string)
    (elements : list string) :
  existsb (lacks_entry C slopes phase) elements = false ->
  exists es, gather C slopes phase elements = Ok es
             /\ List.length es = List.length elements.
Proof.
  induction elements as [| elem elements' IH]; cbn [existsb gather]; intros H.
  - now exists [].
  - apply orb_false_iff in H as [He Hes].
    destruct (entries_present C slopes phase elem He) as [e ->].
    destruct (IH Hes) as [es [-> Hl]]. exists (e :: es). simpl. now rewrite Hl.
Qed.

Lemma headline_Ok {num} (r : outcome (num * num * num * list (contribution num))) :
  (exists K D1 D2 lines, r = Ok (K, D1, D2, lines))
  <-> exists y, headline r = Ok y.
Proof.
  unfold headline. destruct r as [[[[K D1] D2] lines] | e]; simpl.
  - split; [now exists (K, D1, D2) | now exists K, D1, D2, lines].
  - split; [intros [? [? [? [? H]]]]; discriminate | intros [? H]; discriminate].
Qed.

(** Step 8 raises for no other reason than the two of the missing entry
    and of the empty list: for a phase and a list of elements the numbers
    K, DeltaT1 and DeltaT2 are computed exactly when the list is not empty
    and every element has its slope and its concentration for LIQUID and
    for the phase.  A slope or a sum that is zero does not raise; numpy
    divides by it. *)
Theorem freezing_returns :
  forall (C slopes : dict (dict float)) (elements : list string) (phase : string),
    (exists K DeltaT1 DeltaT2 lines,
        freezing_range_float C slopes elements phase = Ok (K, DeltaT1, DeltaT2, lines))
    <-> elements <> [] /\ existsb (lacks_entry C slopes phase) elements = false.
Proof.
  intros C slopes elements phase. unfold freezing_range_float.
  rewrite headline_Ok, freezing_range_spec. split.
  - intros [y H].
    destruct (existsb (lacks_entry C slopes phase) elements) eqn:E.
    + pose proof (freezing_range_lacking 0%float 1%float PrimFloat.add PrimFloat.sub
                    PrimFloat.mul PrimFloat.div C slopes phase elements E) as Hr.
      pose proof (freezing_range_spec 0%float 1%float PrimFloat.add PrimFloat.sub
                    PrimFloat.mul PrimFloat.div C slopes elements phase) as Hs.
      rewrite Hr in Hs. simpl in Hs. rewrite <- Hs in H. discriminate.
    + split; [| reflexivity]. intros ->. discriminate H.
  - intros [Hne Hl]. destruct (gather_present C slopes phase elements Hl) as [es [-> Hlen]].
    destruct es as [| e es]; simpl.
    + destruct elements; [contradiction | discriminate].
    + eexists. reflexivity.
Qed.

Lemma fit_column_entry (U : list float -> list float -> outcome Spline)
    (args : Args) (T0 : float) (data : ndarray) (phases : list string)
    (sums : dict (list float)) (i : nat) (c : string)
    (C slopes C' slopes' : dict (dict float)) (p e : string) :
  result (fit_column U args T0 data phases sums i c (C, slopes)) = Ok (C', slopes') ->
  has_entry C' p e = true ->
  has_entry C p e = true
  \/ (parse_element_content c = Some (e, p)
      /\ mem p phases = true /\ String.eqb e (args_base args) = false
      /\ (i <? ncols data) = true
      /\ exists s, dict_get p sums = Some s
                   /\ 0 < count_true (map (fun x => (0 <? x)%float) s)).
Proof.
  unfold fit_column.
  destruct (parse_element_content c) as [[elem phase] |];
    [| simpl; intros [= <- <-]; now left].
  destruct (String.eqb elem (args_base args)) eqn:Hb; simpl;
    [intros [= <- <-]; now left |].
  destruct (mem phase phases) eqn:Hp; simpl; [| intros [= <- <-]; now left].
  unfold column. destruct (i <? ncols data) eqn:Hi; simpl; [| discriminate].
  destruct (dict_get phase sums) as [s |] eqn:Hs; simpl; [| discriminate].
  destruct (0 <? count_true _) eqn:Hc; [| simpl; intros [= <- <-]; now left].
  destruct (U _ _) as [spl |]; simpl; [| discriminate].
  destruct (dict_set2 phase elem (1 / spl_derivative spl T0)%float slopes)
    as [s1 |] eqn:H1; simpl; [| discriminate].
  destruct (dict_set2 phase elem (spl_call spl T0) C) as [c1 |] eqn:H2; simpl;
    [| discriminate].
  intros [= <- <-]. apply dict_set2_get in H2 as [innerC [HC HgC]].
  rewrite (has_entry_step C c1 phase elem _ innerC p e HC HgC).
  destruct (String.eqb p phase && String.eqb e elem) eqn:E; [| now left].
  apply andb_prop in E as [Ep Ee]. apply String.eqb_eq in Ep, Ee. subst p e.
  intros _. right. repeat split; try assumption.
  exists s. split; [exact Hs | now apply Nat.ltb_lt].
Qed.

Lemma fit_loop_entry (U : list float -> list float -> outcome Spline)
    (args : Args) (T0 : float) (data : ndarray) (phases : list string)
    (sums : dict (list float)) (columns : list string) (p e : string) :
  forall i C slopes C' slopes',
    result (for_enumerate (fit_column U args T0 data phases sums) i columns (C, slopes))
    = Ok (C', slopes') ->
    has_entry C' p e = true ->
    has_entry C p e = true
    \/ (mem p phases = true /\ String.eqb e (args_base args) = false
        /\ exists k c s,
             nth_error columns k = Some c
             /\ parse_element_content c = Some (e, p)
             /\ i + k < ncols data
             /\ dict_get p sums = Some s
             /\ 0 < count_true (map (fun x => (0 <? x)%float) s)).
Proof.
  induction columns as [| c columns IH]; simpl; intros i C slopes C' slopes' H He.
  - injection H as <- <-. now left.
  - apply rbind_result in H as [[C1 s1] [H1 H2]].
    destruct (IH _ _ _ _ _ H2 He) as [He1 | [Hp [Hb [k [c' [s [Hn [Hc [Hi [Hs Hpos]]]]]]]]]].
    + destruct (fit_column_entry _ _ _ _ _ _ _ _ _ _ _ _ _ _ H1 He1)
        as [He0 | [Hc [Hp [Hb [Hi [s [Hs Hpos]]]]]]]; [now left |].
      right. split; [exact Hp | split; [exact Hb |]].
      exists 0, c, s. apply Nat.ltb_lt in Hi. repeat split; try assumption. lia.
    + right. split; [exact Hp | split; [exact Hb |]].
      exists (S k), c', s. repeat split; try assumption. lia.
Qed.

(** What step 7 enters in its tables, whatever the spline routine.  An
    entry for a phase and an element is there only for a header of the
    table that is the content of that element in that phase, the phase
    being active, the element not the base, and the sum of the phase
    positive in some row of the window. *)
Theorem slope_entries :
  forall (UnivariateSpline : list float -> list float -> outcome Spline)
         (args : Args) (T0 : float) (columns : list string) (data : ndarray)
         (phases : list string) (sums : dict (list float)) (C slopes : dict (dict float))
         (p e : string),
    result (find_slopes UnivariateSpline args T0 columns data phases sums)
    = Ok (C, slopes) ->
    has_entry C p e = true ->
    has_entry slopes p e = true
    /\ mem p phases = true
    /\ e <> args_base args
    /\ exists k c s,
         nth_error columns k = Some c
         /\ parse_element_content c = Some (e, p)
         /\ k < ncols data
         /\ dict_get p sums = Some s
         /\ 0 < count_true (map (fun x => (0 <? x)%float) s).
Proof.
  intros U args T0 columns data phases sums C slopes p e H He.
  destruct (find_slopes_invariant U _ _ _ _ _ _ _ _ H) as [_ [_ [_ [_ Hsame]]]].
  split; [now rewrite <- Hsame |].
  unfold find_slopes in H.
  destruct (fit_loop_entry U _ _ _ _ _ _ p e _ _ _ _ _ H He)
    as [He0 | [Hp [Hb [k [c [s Hk]]]]]].
  - exfalso. unfold has_entry, dict_get2 in He0. rewrite dict_of_keys_get in He0.
    destruct (mem p phases); discriminate.
  - split; [exact Hp | split].
    + intros ->. now rewrite String.eqb_refl in Hb.
    + now exists k, c, s.
Qed.

Lemma slope_entries_witness :
  exists C slopes,
    result (find_slopes Scipy.UnivariateSpline default_args 1700 one_row_columns
              (filter_window (mk_Range 1625 1725) two_phase_table)
              ["LIQUID"; "FCC_A1"] two_phase_sums) = Ok (C, slopes)
    /\ has_entry slopes "FCC_A1" "Cr" = true
    /\ mem "FCC_A1" ["LIQUID"; "FCC_A1"] = true.
Proof.
  destruct (result (find_slopes Scipy.UnivariateSpline default_args 1700 one_row_columns
                      (filter_window (mk_Range 1625 1725) two_phase_table)
                      ["LIQUID"; "FCC_A1"] two_phase_sums)) as [[C slopes] | e] eqn:E;
    [| vm_compute in E; discriminate E].
  exists C, slopes. split; [reflexivity |].
  assert (He : has_entry C "FCC_A1" "Cr" = true).
  { pose proof E as E'. vm_compute in E'. injection E' as <- _. reflexivity. }
  destruct (slope_entries Scipy.UnivariateSpline default_args 1700 one_row_columns
              (filter_window (mk_Range 1625 1725) two_phase_table)
              ["LIQUID"; "FCC_A1"] two_phase_sums C slopes "FCC_A1" "Cr" E He)
    as [Hs [Hp _]].
  split; [exact Hs | exact Hp].
Defined.
